(** * Live-session mesh and material conversion (gz::omniverse)

    A shallow embedding of [source/liveSession/Util.cpp] (the path
    sanitizer [validPath]) and of [source/liveSession/Mesh.cpp] (the
    mesh and material converter [UpdateMesh] with its helpers
    [copyMaterial], [getMaterialCopyPath], [CreateMaterialInput],
    [ParseSdfMaterial] and [convert]), followed by the properties the
    specification states about them and by further properties of the
    code.

    The scene graph (USD stage), the asset loader, the file system and the
    string helpers of gz-common are libraries the two files call; they are
    modelled as a key-value store keyed by path, and as an interface of
    operations ([GzCommon]) whose laws are not assumed. *)

From Stdlib Require Import String Ascii ZArith QArith DecimalString DecimalZ.
From stdpp Require Import base option list gmap strings.

Local Open Scope string_scope.
Local Open Scope Z_scope.

(** ** std::string and gz::common string helpers *)

Module Str.

(** [std::isdigit] on a byte of the C locale. *)
Definition isdigit (c : ascii) : bool :=
  let n := nat_of_ascii c in (48 <=? n)%nat && (n <=? 57)%nat.

(** [::tolower] on a byte of the C locale. *)
Definition tolower (c : ascii) : ascii :=
  let n := nat_of_ascii c in
  if (65 <=? n)%nat && (n <=? 90)%nat then ascii_of_nat (n + 32) else c.

(** [gz::common::lowercase]: [std::transform] with [::tolower]. *)
Fixpoint lowercase (s : string) : string :=
  match s with
  | EmptyString => EmptyString
  | String c rest => String (tolower c) (lowercase rest)
  end.

(** [std::string::find(sub)] from position 0; [None] is [npos]. *)
Fixpoint find (s sub : string) : option nat :=
  if String.prefix sub s then Some 0%nat
  else match s with
       | EmptyString => None
       | String _ rest => S <$> find rest sub
       end.

(** [gz::common::replaceAll(orig, key, replacement)]: every occurrence of
    [key], found scanning left to right, is replaced; [skip] counts the
    characters of an occurrence still to be dropped.  An empty key finds
    nothing to replace. *)
Fixpoint replaceAll_scan (skip : nat) (orig key replacement : string) : string :=
  match orig with
  | EmptyString => EmptyString
  | String c rest =>
      match skip with
      | S k => replaceAll_scan k rest key replacement
      | O =>
          if String.prefix key orig
          then replacement ++ replaceAll_scan (String.length key - 1) rest key replacement
          else String c (replaceAll_scan 0 rest key replacement)
      end
  end.

Definition replaceAll (orig key replacement : string) : string :=
  match key with
  | EmptyString => orig
  | _ => replaceAll_scan 0 orig key replacement
  end.

(** [endsWith] of Mesh.cpp: size test, then comparison of the tail. *)
Definition endsWith (str suffix : string) : bool :=
  (String.length suffix <=? String.length str)%nat
  && String.eqb
       (substring (String.length str - String.length suffix)
                  (String.length suffix) str)
       suffix.

(** [std::to_string(int)]: decimal digits, a minus sign when negative. *)
Definition to_string (z : Z) : string :=
  NilZero.string_of_int (Z.to_int z).

End Str.

(** ** Util.cpp: the path sanitizer *)

(** [result[0]]: the first character when there is one.  At an empty
    string the index equals the size; [None] stands for that access. *)
Definition first_char (result : string) : option ascii := String.get 0 result.

(** The seven substitutions of [validPath], in the order of the source. *)
Definition validPath_replaced (_path : string) : string :=
  let result := Str.replaceAll _path " " "" in
  let result := Str.replaceAll result "." "_" in
  let result := Str.replaceAll result "-" "_" in
  let result := Str.replaceAll result "<" "_" in
  let result := Str.replaceAll result ">" "_" in
  let result := Str.replaceAll result "[" "_" in
  let result := Str.replaceAll result "]" "_" in
  result.

Definition validPath (_path : string) : string :=
  if String.eqb _path "" then ""
  else
    let result := validPath_replaced _path in
    match first_char result with
    | Some c => if Str.isdigit c then "_" ++ result else result
    | None => result
    end.

(** ** Data of the libraries the converter reads

    Floating-point numbers ([float], [double]) are carried as rationals:
    the converter copies them and computes [1 - v] on texture coordinates,
    nothing else; rounding is not modelled. *)

Module math.

Record Color := mkColor { R : Q; G : Q; B : Q; A : Q }.

Record Vector3d := mkVector3d { X : Q; Y : Q; Z : Q }.

Record Vector2d := mkVector2d { U : Q; V : Q }.

End math.

Module common.

Inductive PbrType := PbrType_NONE | PbrType_METAL | PbrType_SPECULAR.

Inductive NormalMapSpace := TANGENT | OBJECT.

(** [gz::common::Pbr] *)
Record Pbr := mkPbr {
  Type_ : PbrType;
  AlbedoMap : string;
  NormalMap : string;
  NormalMapType : NormalMapSpace;
  MetalnessMap : string;
  EmissiveMap : string;
  RoughnessMap : string;
  SpecularMap : string;
  EnvironmentMap : string;
  AmbientOcclusionMap : string;
  LightMap : string;
  Roughness : Q;
  Glossiness : Q;
  Metalness : Q
}.

(** [gz::common::Material]; [PbrMaterial] is a pointer, [None] when null. *)
Record Material := mkMaterial {
  Emissive : math.Color;
  Diffuse : math.Color;
  Specular : math.Color;
  Ambient : math.Color;
  RenderOrder : Q;
  Lighting : bool;
  TwoSidedEnabled : bool;
  PbrMaterial : option Pbr;
  TextureImage : string
}.

Inductive PrimitiveType :=
  POINTS | LINES | LINESTRIPS | TRIANGLES | TRIFANS | TRISTRIPS.

(** [gz::common::SubMesh]; [MaterialIndex] is [-1] when the submesh
    declares no material. *)
Record SubMesh := mkSubMesh {
  Name : string;
  Vertices : list math.Vector3d;
  Indices : list Z;
  TexCoords : list math.Vector2d;
  Normals : list math.Vector3d;
  SubMeshPrimitiveType : PrimitiveType;
  MaterialIndex : Z
}.

Definition VertexCount (s : SubMesh) : nat := length (Vertices s).
Definition IndexCount (s : SubMesh) : nat := length (Indices s).
Definition TexCoordCount (s : SubMesh) : nat := length (TexCoords s).
Definition NormalCount (s : SubMesh) : nat := length (Normals s).

(** [gz::common::Mesh] *)
Record Mesh := mkMesh {
  MeshName : string;
  SubMeshes : list SubMesh;
  Materials : list Material;
  Min : math.Vector3d;
  Max : math.Vector3d
}.

Definition SubMeshCount (m : Mesh) : nat := length (SubMeshes m).

(** [SubMeshByIndex(i).lock()]: the submesh, null when [i] is out of
    range. *)
Definition SubMeshByIndex (m : Mesh) (i : nat) : option SubMesh :=
  SubMeshes m !! i.

(** [MaterialByIndex(i)]: a null pointer when no material has the index. *)
Definition MaterialByIndex (m : Mesh) (i : Z) : option Material :=
  if i <? 0 then None else Materials m !! Z.to_nat i.

End common.

Module sdf.

Inductive PbrWorkflowType := NONE | METAL | SPECULAR.

Inductive NormalMapSpace := TANGENT | OBJECT.

(** [sdf::PbrWorkflow] *)
Record PbrWorkflow := mkPbrWorkflow {
  Type_ : PbrWorkflowType;
  AlbedoMap : string;
  NormalMap : string;
  NormalMapType : NormalMapSpace;
  MetalnessMap : string;
  EmissiveMap : string;
  RoughnessMap : string;
  SpecularMap : string;
  EnvironmentMap : string;
  AmbientOcclusionMap : string;
  LightMap : string;
  Roughness : Q;
  Glossiness : Q;
  Metalness : Q
}.

(** A default-constructed [sdf::PbrWorkflow]. *)
Definition PbrWorkflow_default : PbrWorkflow :=
  {| Type_ := NONE; AlbedoMap := ""; NormalMap := ""; NormalMapType := TANGENT;
     MetalnessMap := ""; EmissiveMap := ""; RoughnessMap := "";
     SpecularMap := ""; EnvironmentMap := ""; AmbientOcclusionMap := "";
     LightMap := ""; Roughness := (1 # 2)%Q; Glossiness := 0%Q;
     Metalness := (1 # 2)%Q |}.

(** [sdf::Pbr]: at most one workflow per workflow type. *)
Record Pbr := mkPbr {
  MetalWorkflow : option PbrWorkflow;
  SpecularWorkflow : option PbrWorkflow
}.

Definition Pbr_default : Pbr :=
  {| MetalWorkflow := None; SpecularWorkflow := None |}.

Definition Workflow (p : Pbr) (t : PbrWorkflowType) : option PbrWorkflow :=
  match t with
  | METAL => MetalWorkflow p
  | SPECULAR => SpecularWorkflow p
  | NONE => None
  end.

Definition SetWorkflow (t : PbrWorkflowType) (w : PbrWorkflow) (p : Pbr) : Pbr :=
  match t with
  | METAL => {| MetalWorkflow := Some w; SpecularWorkflow := SpecularWorkflow p |}
  | SPECULAR => {| MetalWorkflow := MetalWorkflow p; SpecularWorkflow := Some w |}
  | NONE => p
  end.

(** [sdf::Material] *)
Record Material := mkMaterial {
  Emissive : math.Color;
  Diffuse : math.Color;
  Specular : math.Color;
  Ambient : math.Color;
  RenderOrder : Q;
  Lighting : bool;
  DoubleSided : bool;
  NormalMap_ : string;
  PbrMaterial : option Pbr
}.

(** A default-constructed [sdf::Material]. *)
Definition Material_default : Material :=
  {| Emissive := math.mkColor 0 0 0 1; Diffuse := math.mkColor 0 0 0 1;
     Specular := math.mkColor 0 0 0 1; Ambient := math.mkColor 0 0 0 1;
     RenderOrder := 0%Q; Lighting := true; DoubleSided := false;
     NormalMap_ := ""; PbrMaterial := None |}.

End sdf.

Module msgs.

(** [gz::msgs::MeshGeom], the fields the converter reads. *)
Record MeshGeom := mkMeshGeom {
  filename : string;
  scale : math.Vector3d
}.

End msgs.

(** ** The scene graph: a store of typed primitives keyed by path

    An [SdfPath] is carried as its string.  Only what the converter reads
    or writes is kept: the type of a primitive, its attributes (shader
    inputs and outputs included) and its material binding. *)

Module pxr.

Inductive VtValue :=
| VBool (b : bool)
| VInt (n : Z)
| VFloat (x : Q)
| VDouble (x : Q)
| VVec3f (x y z : Q)
| VToken (t : string)
| VAsset (p : string)
| VIntArray (l : list Z)
| VVec2fArray (l : list (Q * Q))
| VVec3fArray (l : list (Q * Q * Q)).

(** [SdfValueTypeName]: a scalar type, the array type over it, or the
    default-constructed (invalid) name. *)
Inductive SdfValueTypeName :=
| Scalar (name : string)
| Array (name : string)
| NoType.

Definition IsScalar (t : SdfValueTypeName) : bool :=
  match t with Scalar _ => true | _ => false end.

Definition IsArray (t : SdfValueTypeName) : bool :=
  match t with Array _ => true | _ => false end.

Definition GetScalarType (t : SdfValueTypeName) : SdfValueTypeName :=
  match t with Scalar n | Array n => Scalar n | NoType => NoType end.

Definition GetArrayType (t : SdfValueTypeName) : SdfValueTypeName :=
  match t with Scalar n | Array n => Array n | NoType => NoType end.

Record Attribute := mkAttribute {
  typeName : SdfValueTypeName;
  value : option VtValue;
  customData : gmap string VtValue;
  displayName : string;
  displayGroup : string;
  documentation : string;
  colorSpace : string;
  interpolation : string;
  connection : option string
}.

Definition newAttribute (t : SdfValueTypeName) : Attribute :=
  {| typeName := t; value := None; customData := ∅; displayName := "";
     displayGroup := ""; documentation := ""; colorSpace := "";
     interpolation := ""; connection := None |}.

Definition withType (t : SdfValueTypeName) (a : Attribute) : Attribute :=
  {| typeName := t; value := value a; customData := customData a;
     displayName := displayName a; displayGroup := displayGroup a;
     documentation := documentation a; colorSpace := colorSpace a;
     interpolation := interpolation a; connection := connection a |}.

Definition SetValue (v : VtValue) (a : Attribute) : Attribute :=
  {| typeName := typeName a; value := Some v; customData := customData a;
     displayName := displayName a; displayGroup := displayGroup a;
     documentation := documentation a; colorSpace := colorSpace a;
     interpolation := interpolation a; connection := connection a |}.

Definition SetCustomDataByKey (k : string) (v : VtValue) (a : Attribute) : Attribute :=
  {| typeName := typeName a; value := value a;
     customData := <[k := v]> (customData a);
     displayName := displayName a; displayGroup := displayGroup a;
     documentation := documentation a; colorSpace := colorSpace a;
     interpolation := interpolation a; connection := connection a |}.

Definition SetDisplayName (n : string) (a : Attribute) : Attribute :=
  {| typeName := typeName a; value := value a; customData := customData a;
     displayName := n; displayGroup := displayGroup a;
     documentation := documentation a; colorSpace := colorSpace a;
     interpolation := interpolation a; connection := connection a |}.

Definition SetDisplayGroup (g : string) (a : Attribute) : Attribute :=
  {| typeName := typeName a; value := value a; customData := customData a;
     displayName := displayName a; displayGroup := g;
     documentation := documentation a; colorSpace := colorSpace a;
     interpolation := interpolation a; connection := connection a |}.

Definition SetDocumentation (d : string) (a : Attribute) : Attribute :=
  {| typeName := typeName a; value := value a; customData := customData a;
     displayName := displayName a; displayGroup := displayGroup a;
     documentation := d; colorSpace := colorSpace a;
     interpolation := interpolation a; connection := connection a |}.

Definition SetColorSpace (c : string) (a : Attribute) : Attribute :=
  {| typeName := typeName a; value := value a; customData := customData a;
     displayName := displayName a; displayGroup := displayGroup a;
     documentation := documentation a; colorSpace := c;
     interpolation := interpolation a; connection := connection a |}.

Definition SetInterpolation (i : string) (a : Attribute) : Attribute :=
  {| typeName := typeName a; value := value a; customData := customData a;
     displayName := displayName a; displayGroup := displayGroup a;
     documentation := documentation a; colorSpace := colorSpace a;
     interpolation := i; connection := connection a |}.

Definition ConnectToSource (src : string) (a : Attribute) : Attribute :=
  {| typeName := typeName a; value := value a; customData := customData a;
     displayName := displayName a; displayGroup := displayGroup a;
     documentation := documentation a; colorSpace := colorSpace a;
     interpolation := interpolation a; connection := Some src |}.

Record Prim := mkPrim {
  primTypeName : string;
  attributes : gmap string Attribute;
  materialBinding : option string
}.

Definition newPrim (t : string) : Prim :=
  {| primTypeName := t; attributes := ∅; materialBinding := None |}.

Definition retype (t : string) (p : Prim) : Prim :=
  {| primTypeName := t; attributes := attributes p;
     materialBinding := materialBinding p |}.

(** [CreateAttribute(name, type)] then [f] on it: the attribute is made
    when the primitive lacks it, and is given the type. *)
Definition authorAttribute (name : string) (t : SdfValueTypeName)
    (f : Attribute -> Attribute) (p : Prim) : Prim :=
  let a := match attributes p !! name with
           | Some a => withType t a
           | None => newAttribute t
           end in
  {| primTypeName := primTypeName p;
     attributes := <[name := f a]> (attributes p);
     materialBinding := materialBinding p |}.

Definition bindMaterial (material : string) (p : Prim) : Prim :=
  {| primTypeName := primTypeName p; attributes := attributes p;
     materialBinding := Some material |}.

Abbreviation Stage := (gmap string Prim).

(** [UsdStage::DefinePrim(path, typeName)] for a non-empty type name: an
    existing primitive keeps its content and takes the type, a missing one
    is made.  Ancestors are not tracked. *)
Definition DefinePrim (path typeName : string) (stage : Stage) : Stage :=
  match stage !! path with
  | Some p => <[path := retype typeName p]> stage
  | None => <[path := newPrim typeName]> stage
  end.

(** A schema object over the primitive at [path] converts to [true] when
    the primitive exists and has the schema's type. *)
Definition IsA (typeName path : string) (stage : Stage) : bool :=
  match stage !! path with
  | Some p => String.eqb (primTypeName p) typeName
  | None => false
  end.

End pxr.

(** ** The libraries behind the converter

    [GzCommon] gathers what the converter calls in gz-common and gz-math
    and cannot be read from the two source files: URI parsing, path
    helpers, colour comparison, and the process environment ([World]: its
    variables, files, search paths and loaded meshes).  No law is assumed
    of these operations. *)

Class GzCommon := {
  (** [gz::common::URI(str).Scheme()] and [.Path().Str()] *)
  URI_Scheme : string -> string;
  URI_Path : string -> string;
  (** [gz::common::split(str, delim)] *)
  split : string -> string -> list string;
  (** [gz::common::joinPaths(a, b)] *)
  joinPaths : string -> string -> string;
  (** [gz::common::basename(path)] *)
  basename : string -> string;
  (** [gz::math::Color::operator!=] *)
  Color_ne : math.Color -> math.Color -> bool;
  World : Type;
  (** [std::getenv] *)
  getenv : World -> string -> option string;
  (** [gz::common::findFile(name)]; empty when nothing is found *)
  findFile_in : World -> string -> string;
  (** [gz::common::systemPaths()->AddFilePaths(path)] *)
  AddFilePaths_to : string -> World -> World;
  (** [gz::common::createDirectories(path)] *)
  createDirectories_in : string -> World -> World;
  (** [gz::common::copyFile(existing, new)] *)
  copyFile_in : string -> string -> World -> bool * World;
  (** [gz::common::MeshManager::Instance()->Load(name)]; [None] is null *)
  Load_from : World -> string -> option common.Mesh
}.

(** The level of a diagnostic: [gzerr] and [ignerr], or [ignmsg]. *)
Inductive Severity := Err | Msg.

(** What the converter asks of its libraries and of the scene graph, with
    the answers that matter. *)
Inductive Event :=
| Log (sev : Severity) (text : string)
| FindFile (name : string)
| AddFilePaths (path : string)
| LoadMesh (fullname : string) (mesh : option common.Mesh)
| CreateDirectories (path : string)
| CopyFile (existing new : string) (copied : bool)
| Define (path typeName : string)
| Bind (geometry material : string).

Section Machine.

Context `{GzCommon}.

(** The state a call runs in: the stage it is given, the process
    environment, the function-local [static int i] of [ParseSdfMaterial],
    and the record of library calls made so far (oldest first). *)
Record State := mkState {
  stage : pxr.Stage;
  world : World;
  material_i : Z;
  trace : list Event
}.

Definition with_stage (f : pxr.Stage -> pxr.Stage) (s : State) : State :=
  {| stage := f (stage s); world := world s; material_i := material_i s;
     trace := trace s |}.

Definition with_world (w : World) (s : State) : State :=
  {| stage := stage s; world := w; material_i := material_i s;
     trace := trace s |}.

Definition with_material_i (i : Z) (s : State) : State :=
  {| stage := stage s; world := world s; material_i := i; trace := trace s |}.

Definition record (e : Event) (s : State) : State :=
  {| stage := stage s; world := world s; material_i := material_i s;
     trace := trace s ++ [e] |}.

(** A step of a function returning [R]: it goes on with a value, leaves
    the function by [return r], or has undefined behaviour (a null or
    out-of-range access, a signed overflow). *)
Inductive Res (R A : Type) : Type :=
| Next (a : A) (s : State)
| Return (r : R) (s : State)
| Undefined.

Definition M (R A : Type) : Type := State -> Res R A.

Definition ret {R A} (a : A) : M R A := fun s => Next R A a s.

Definition bind {R A B} (m : M R A) (f : A -> M R B) : M R B :=
  fun s =>
    match m s with
    | Next _ _ a s' => f a s'
    | Return _ _ r s' => Return R B r s'
    | Undefined _ _ => Undefined R B
    end.

Definition return_ {R A} (r : R) : M R A := fun s => Return R A r s.

Definition undefined {R A} : M R A := fun _ => Undefined R A.

Definition modify {R} (f : State -> State) : M R unit :=
  fun s => Next R unit tt (f s).

Definition gets {R A} (f : State -> A) : M R A :=
  fun s => Next R A (f s) s.

(** A call of a function returning [A] from a function returning [R]. *)
Definition call {R A} (m : M A A) : M R A :=
  fun s =>
    match m s with
    | Next _ _ a s' | Return _ _ a s' => Next R A a s'
    | Undefined _ _ => Undefined R A
    end.

(** The outcome of a whole function. *)
Inductive Outcome (A : Type) : Type :=
| Done (a : A) (s : State)
| Crash.

Definition run {A} (m : M A A) (s : State) : Outcome A :=
  match m s with
  | Next _ _ a s' | Return _ _ a s' => Done A a s'
  | Undefined _ _ => Crash A
  end.

End Machine.

Arguments Next {_ R A} a s.
Arguments Return {_ R A} r s.
Arguments Undefined {_ R A}.
Arguments Done {_ A} a s.
Arguments Crash {_ A}.

Declare Scope conv_scope.
Delimit Scope conv_scope with conv.

Notation "x <- c ;; k" := (bind c (fun x => k))
  (at level 100, c at next level, right associativity) : conv_scope.
Notation "c ;; k" := (bind c (fun _ => k))
  (at level 100, right associativity) : conv_scope.

Local Open Scope conv_scope.

Section Converter.

Context `{GzCommon}.

(** ** Library calls as steps *)

Definition gzerr {R} (text : string) : M R unit := modify (record (Log Err text)).

Definition ignerr {R} (text : string) : M R unit := modify (record (Log Err text)).

Definition ignmsg {R} (text : string) : M R unit := modify (record (Log Msg text)).

(** [gz::common::env(name, value, allowEmpty)]: the value when the variable
    is set and, unless [allowEmpty], not empty. *)
Definition env {R} (name : string) (allowEmpty : bool) : M R (option string) :=
  gets (fun s =>
    match getenv (world s) name with
    | Some v => if negb allowEmpty && String.eqb v "" then None else Some v
    | None => None
    end).

Definition findFile {R} (name : string) : M R string :=
  fullname <- gets (fun s => findFile_in (world s) name) ;;
  modify (record (FindFile name)) ;;
  ret fullname.

Definition AddFilePaths_ {R} (path : string) : M R unit :=
  modify (fun s => record (AddFilePaths path)
                     (with_world (AddFilePaths_to path (world s)) s)).

Definition createDirectories {R} (path : string) : M R unit :=
  modify (fun s => record (CreateDirectories path)
                     (with_world (createDirectories_in path (world s)) s)).

Definition copyFile {R} (existing new : string) : M R bool :=
  r <- gets (fun s => copyFile_in existing new (world s)) ;;
  modify (fun s => record (CopyFile existing new (fst r)) (with_world (snd r) s)) ;;
  ret (fst r).

Definition Load {R} (fullname : string) : M R (option common.Mesh) :=
  m <- gets (fun s => Load_from (world s) fullname) ;;
  modify (record (LoadMesh fullname m)) ;;
  ret m.

Definition GetPrimAtPath {R} (path : string) : M R (option pxr.Prim) :=
  gets (fun s => stage s !! path).

Definition DefinePrim {R} (path typeName : string) : M R unit :=
  modify (fun s => record (Define path typeName)
                     (with_stage (pxr.DefinePrim path typeName) s)).

(** An attribute of the primitive at [path] is created and written; a
    missing primitive is left missing. *)
Definition author {R} (path name : string) (t : pxr.SdfValueTypeName)
    (f : pxr.Attribute -> pxr.Attribute) : M R unit :=
  modify (with_stage (alter (pxr.authorAttribute name t f) path)).

(** [UsdShadeMaterialBindingAPI(geometry).Bind(material)] *)
Definition Bind_ {R} (geometry material : string) : M R unit :=
  modify (fun s => record (Bind geometry material)
                     (with_stage (alter (pxr.bindMaterial material) geometry) s)).

Definition when_ {R} (b : bool) (m : M R unit) : M R unit :=
  if b then m else ret tt.

Definition empty (s : string) : bool := String.eqb s "".

(** ** Mesh.cpp: texture relocation *)

(** [std::string::rfind(sub)]; [None] is [npos]. *)
Fixpoint rfind (s sub : string) : option nat :=
  match s with
  | EmptyString => if String.prefix sub s then Some 0%nat else None
  | String _ rest =>
      match rfind rest sub with
      | Some k => Some (S k)
      | None => if String.prefix sub s then Some 0%nat else None
      end
  end.

(** [std::string::substr(0, n)] with [n = npos] when [None]. *)
Definition substr0 (s : string) (n : option nat) : string :=
  match n with
  | Some n => substring 0 n s
  | None => s
  end.

Definition copyMaterial (_path _fullPath : string) : M bool bool :=
  if negb (empty _path) && negb (empty _fullPath) then
    let fileName := basename _path in
    let filePathIndex := rfind _path fileName in
    let filePath := substr0 _path filePathIndex in
    when_ (negb (empty filePath)) (createDirectories filePath) ;;
    copied <- copyFile _fullPath _path ;;
    return_ copied
  else return_ false.

Definition getMaterialCopyPath (_uri : string) : string :=
  joinPaths (joinPaths "materials" "textures") (basename _uri).

(** ** Mesh.cpp: shader inputs *)

Definition CreateMaterialInput (_prim _name : string)
    (_vType : pxr.SdfValueTypeName) (_value : pxr.VtValue)
    (_customData : list (string * pxr.VtValue))
    (_displayName _displayGroup _doc _colorSpace : string) : M bool bool :=
  shader <- gets (fun s => pxr.IsA "Shader" _prim (stage s)) ;;
  if negb shader then
    gzerr "Unable to convert the prim to a UsdShadeShader" ;;
    return_ false
  else
    let vTypeName :=
      if pxr.IsScalar _vType then pxr.GetScalarType _vType
      else if pxr.IsArray _vType then pxr.GetArrayType _vType
      else pxr.NoType in
    author _prim ("inputs:" ++ _name) vTypeName (fun attr =>
      let attr := pxr.SetValue _value attr in
      let attr := foldl (fun a kv => pxr.SetCustomDataByKey (fst kv) (snd kv) a)
                        attr _customData in
      let attr := if negb (empty _displayName)
                  then pxr.SetDisplayName _displayName attr else attr in
      let attr := if negb (empty _displayGroup)
                  then pxr.SetDisplayGroup _displayGroup attr else attr in
      let attr := if negb (empty _doc)
                  then pxr.SetDocumentation _doc attr else attr in
      if negb (empty _colorSpace)
      then pxr.SetColorSpace _colorSpace attr else attr) ;;
    return_ true.

(** ** Mesh.cpp: the material primitive and its shader *)

Definition INT_MAX : Z := 2147483647.

Definition Color3f (c : math.Color) : pxr.VtValue :=
  pxr.VVec3f (math.R c) (math.G c) (math.B c).

Definition range3 (d0 d1 d2 : Q) : list (string * pxr.VtValue) :=
  [("default", pxr.VVec3f d0 d1 d2);
   ("range:max", pxr.VVec3f 100000 100000 100000);
   ("range:min", pxr.VVec3f 0 0 0)].

Definition customDataDiffuse := range3 (2 # 10) (2 # 10) (2 # 10).

Definition customDataEmissive := range3 1 (1 # 10) (1 # 10).

Definition customDataEnableEmission : list (string * pxr.VtValue) :=
  [("default", pxr.VInt 0)].

Definition customDataIntensity : list (string * pxr.VtValue) :=
  [("default", pxr.VInt 40); ("range:max", pxr.VInt 100000);
   ("range:min", pxr.VInt 0)].

Definition customDataMetallicConstant : list (string * pxr.VtValue) :=
  [("default", pxr.VDouble (1 # 2)); ("range:max", pxr.VInt 1);
   ("range:min", pxr.VInt 0)].

Definition customDataRoughnessConstant : list (string * pxr.VtValue) :=
  [("default", pxr.VDouble (1 # 2)); ("range:max", pxr.VInt 1);
   ("range:min", pxr.VInt 0)].

Definition customDefaultSdfAssetPath : list (string * pxr.VtValue) :=
  [("default", pxr.VAsset "")].

Definition customDataRoughnessTextureInfluence : list (string * pxr.VtValue) :=
  [("default", pxr.VInt 0); ("range:max", pxr.VInt 1);
   ("range:min", pxr.VInt 0)].

(** The lines every texture block of [ParseSdfMaterial] starts with: the
    destination under materials/textures, the search by base name with the
    reference itself as a last resort, and the copy, whose result is
    dropped. *)
Definition copyTexture {R} (map : string) : M R string :=
  let copyPath := getMaterialCopyPath map in
  fullname <- findFile (basename map) ;;
  let fullname := if empty fullname then map else fullname in
  _ <- call (copyMaterial copyPath fullname) ;;
  ret copyPath.

(** [if (!success) { gzerr << ...; return false; }] *)
Definition check (success : bool) (text _materialPath : string)
  : M (bool * string) unit :=
  if success then ret tt
  else gzerr (text ++ _materialPath ++ "]") ;; return_ (false, _materialPath).

Definition ParseSdfMaterial_pbr (pbrWorkflow : sdf.PbrWorkflow)
    (shaderPrim _materialPath : string) : M (bool * string) unit :=
  success <- call (CreateMaterialInput shaderPrim "metallic_constant"
    (pxr.Scalar "float") (pxr.VFloat (sdf.Metalness pbrWorkflow))
    customDataMetallicConstant "Metallic Amount" "Reflectivity"
    "Metallic Material" "") ;;
  check success "Unable to set the metallic constant of the material at path ["
        _materialPath ;;
  success <- call (CreateMaterialInput shaderPrim "reflection_roughness_constant"
    (pxr.Scalar "float") (pxr.VFloat (sdf.Roughness pbrWorkflow))
    customDataRoughnessConstant "Roughness Amount" "Reflectivity"
    "Higher roughness values lead to more blurry reflections" "") ;;
  check success "Unable to set the roughness constant of the material at path ["
        _materialPath ;;
  (if negb (empty (sdf.AlbedoMap pbrWorkflow)) then
     copyPath <- copyTexture (sdf.AlbedoMap pbrWorkflow) ;;
     success <- call (CreateMaterialInput shaderPrim "diffuse_texture"
       (pxr.Scalar "asset") (pxr.VAsset copyPath) customDefaultSdfAssetPath
       "Base Map" "Albedo" "" "auto") ;;
     check success "Unable to set the albedo of the material at path ["
           _materialPath
   else ret tt) ;;
  (if negb (empty (sdf.MetalnessMap pbrWorkflow)) then
     copyPath <- copyTexture (sdf.MetalnessMap pbrWorkflow) ;;
     success <- call (CreateMaterialInput shaderPrim "metallic_texture"
       (pxr.Scalar "asset") (pxr.VAsset copyPath) customDefaultSdfAssetPath
       "Metallic Map" "Reflectivity" "" "raw") ;;
     check success "Unable to set the reflectivity of the material at path ["
           _materialPath
   else ret tt) ;;
  (if negb (empty (sdf.NormalMap pbrWorkflow)) then
     copyPath <- copyTexture (sdf.NormalMap pbrWorkflow) ;;
     success <- call (CreateMaterialInput shaderPrim "normalmap_texture"
       (pxr.Scalar "asset") (pxr.VAsset copyPath) customDefaultSdfAssetPath
       "Normal Map" "Normal" "" "raw") ;;
     check success "Unable to set the normal map of the material at path ["
           _materialPath
   else ret tt) ;;
  (if negb (empty (sdf.RoughnessMap pbrWorkflow)) then
     copyPath <- copyTexture (sdf.RoughnessMap pbrWorkflow) ;;
     success <- call (CreateMaterialInput shaderPrim "reflectionroughness_texture"
       (pxr.Scalar "asset") (pxr.VAsset copyPath) customDefaultSdfAssetPath
       "RoughnessMap Map" "RoughnessMap" "" "raw") ;;
     check success "Unable to set the roughness map of the material at path ["
           _materialPath ;;
     success <- call (CreateMaterialInput shaderPrim
       "reflection_roughness_texture_influence"
       (pxr.Scalar "bool") (pxr.VBool true) customDataRoughnessTextureInfluence
       "Roughness Map Influence" "Reflectivity" "" "raw") ;;
     check success "Unable to set the reflectivity of the material at path ["
           _materialPath
   else ret tt).

(** [ParseSdfMaterial(_materialSdf, _stage, _materialPath)]: the result and
    the path written to [_materialPath]. *)
Definition ParseSdfMaterial (_materialSdf : sdf.Material)
  : M (bool * string) (bool * string) :=
  let looksPath := "/Looks" in
  looksPrim <- GetPrimAtPath looksPath ;;
  when_ (negb (bool_decide (is_Some looksPrim))) (DefinePrim looksPath "Scope") ;;
  i <- gets material_i ;;
  let _materialPath := "/Looks/Material_" ++ Str.to_string i in
  (if i <? INT_MAX then modify (with_material_i (i + 1)) else undefined) ;;
  usdMaterialPrim <- GetPrimAtPath _materialPath ;;
  when_ (negb (bool_decide (is_Some usdMaterialPrim)))
        (DefinePrim _materialPath "Material") ;;
  let shaderPath := _materialPath ++ "/Shader" in
  DefinePrim shaderPath "Shader" ;;
  shaderPrim <- GetPrimAtPath shaderPath ;;
  (if negb (bool_decide (is_Some shaderPrim)) then
     gzerr ("Not able to cast the UsdShadeShader at path [" ++ shaderPath
            ++ "] to a Prim") ;;
     return_ (false, _materialPath)
   else ret tt) ;;
  let shaderPrim := shaderPath in
  let shaderOut := shaderPath ++ ".outputs:out" in
  author shaderPrim "outputs:out" (pxr.Scalar "token") id ;;
  author _materialPath "outputs:mdl:surface" (pxr.Scalar "token")
         (pxr.ConnectToSource shaderOut) ;;
  author _materialPath "outputs:mdl:volume" (pxr.Scalar "token")
         (pxr.ConnectToSource shaderOut) ;;
  author _materialPath "outputs:mdl:displacement" (pxr.Scalar "token")
         (pxr.ConnectToSource shaderOut) ;;
  author shaderPrim "info:implementationSource" (pxr.Scalar "token")
         (pxr.SetValue (pxr.VToken "sourceAsset")) ;;
  author shaderPrim "info:mdl:sourceAsset" (pxr.Scalar "asset")
         (pxr.SetValue (pxr.VAsset "OmniPBR.mdl")) ;;
  author shaderPrim "info:mdl:sourceAsset:subIdentifier" (pxr.Scalar "token")
         (pxr.SetValue (pxr.VToken "OmniPBR")) ;;
  let diffuse := sdf.Diffuse _materialSdf in
  success <- call (CreateMaterialInput shaderPrim "diffuse_color_constant"
    (pxr.Scalar "color3f") (Color3f diffuse) customDataDiffuse
    "Base Color" "Albedo" "This is the base color" "") ;;
  check success "Unable to set the base color of the material at path ["
        _materialPath ;;
  let emissive := sdf.Emissive _materialSdf in
  success <- call (CreateMaterialInput shaderPrim "emissive_color"
    (pxr.Scalar "color3f") (Color3f emissive) customDataEmissive
    "Emissive Color" "Emissive" "The emission color" "") ;;
  check success "Unable to set the emission color of the material at path ["
        _materialPath ;;
  success <- call (CreateMaterialInput shaderPrim "enable_emission"
    (pxr.Scalar "bool") (pxr.VBool (negb (Qle_bool (math.A emissive) 0)))
    customDataEnableEmission "Enable Emissive" "Emissive"
    "Enables the emission of light from the material" "") ;;
  check success
        "Unable to set the emissive enabled propery of the material at path ["
        _materialPath ;;
  success <- call (CreateMaterialInput shaderPrim "emissive_intensity"
    (pxr.Scalar "float") (pxr.VFloat (math.A emissive)) customDataIntensity
    "Emissive Intensity" "Emissive" "Intensity of the emission" "") ;;
  check success "Unable to set the emissive intensity of the material at path ["
        _materialPath ;;
  match sdf.PbrMaterial _materialSdf with
  | Some pbr =>
      let pbrWorkflow :=
        match sdf.Workflow pbr sdf.METAL with
        | Some w => Some w
        | None => sdf.Workflow pbr sdf.SPECULAR
        end in
      match pbrWorkflow with
      | Some pbrWorkflow =>
          ParseSdfMaterial_pbr pbrWorkflow shaderPrim _materialPath
      | None => ret tt
      end
  | None => ret tt
  end ;;
  return_ (true, _materialPath).

(** ** Mesh.cpp: from the asset's material to the scene's *)

Definition convert (_in : common.Material) : sdf.Material :=
  let out := sdf.Material_default in
  let out := {| sdf.Emissive := common.Emissive _in;
                sdf.Diffuse := common.Diffuse _in;
                sdf.Specular := common.Specular _in;
                sdf.Ambient := common.Ambient _in;
                sdf.RenderOrder := common.RenderOrder _in;
                sdf.Lighting := common.Lighting _in;
                sdf.DoubleSided := common.TwoSidedEnabled _in;
                sdf.NormalMap_ := sdf.NormalMap_ out;
                sdf.PbrMaterial := sdf.PbrMaterial out |} in
  match common.PbrMaterial _in with
  | Some pbr =>
      let pbrOut := sdf.Pbr_default in
      let pbrWorkflow :=
        {| sdf.Type_ :=
             match common.Type_ pbr with
             | common.PbrType_SPECULAR => sdf.SPECULAR
             | _ => sdf.METAL
             end;
           sdf.AlbedoMap :=
             if negb (empty (common.AlbedoMap pbr)) then common.AlbedoMap pbr
             else common.TextureImage _in;
           sdf.NormalMap := common.NormalMap pbr;
           sdf.NormalMapType :=
             match common.NormalMapType pbr with
             | common.TANGENT => sdf.TANGENT
             | _ => sdf.OBJECT
             end;
           sdf.MetalnessMap := common.MetalnessMap pbr;
           sdf.EmissiveMap := common.EmissiveMap pbr;
           sdf.RoughnessMap := common.RoughnessMap pbr;
           sdf.SpecularMap := common.SpecularMap pbr;
           sdf.EnvironmentMap := common.EnvironmentMap pbr;
           sdf.AmbientOcclusionMap := common.AmbientOcclusionMap pbr;
           sdf.LightMap := common.LightMap pbr;
           sdf.Roughness := common.Roughness pbr;
           sdf.Glossiness := common.Glossiness pbr;
           sdf.Metalness := common.Metalness pbr |} in
      let pbrOut :=
        match common.Type_ pbr with
        | common.PbrType_SPECULAR => sdf.SetWorkflow sdf.SPECULAR pbrWorkflow pbrOut
        | _ => sdf.SetWorkflow sdf.METAL pbrWorkflow pbrOut
        end in
      {| sdf.Emissive := sdf.Emissive out; sdf.Diffuse := sdf.Diffuse out;
         sdf.Specular := sdf.Specular out; sdf.Ambient := sdf.Ambient out;
         sdf.RenderOrder := sdf.RenderOrder out; sdf.Lighting := sdf.Lighting out;
         sdf.DoubleSided := sdf.DoubleSided out;
         sdf.NormalMap_ := common.NormalMap pbr;
         sdf.PbrMaterial := Some pbrOut |}
  | None =>
      if negb (empty (common.TextureImage _in)) then
        let pbrOut := sdf.Pbr_default in
        let pbrWorkflow :=
          {| sdf.Type_ := sdf.Type_ sdf.PbrWorkflow_default;
             sdf.AlbedoMap := common.TextureImage _in;
             sdf.NormalMap := sdf.NormalMap sdf.PbrWorkflow_default;
             sdf.NormalMapType := sdf.NormalMapType sdf.PbrWorkflow_default;
             sdf.MetalnessMap := sdf.MetalnessMap sdf.PbrWorkflow_default;
             sdf.EmissiveMap := sdf.EmissiveMap sdf.PbrWorkflow_default;
             sdf.RoughnessMap := sdf.RoughnessMap sdf.PbrWorkflow_default;
             sdf.SpecularMap := sdf.SpecularMap sdf.PbrWorkflow_default;
             sdf.EnvironmentMap := sdf.EnvironmentMap sdf.PbrWorkflow_default;
             sdf.AmbientOcclusionMap :=
               sdf.AmbientOcclusionMap sdf.PbrWorkflow_default;
             sdf.LightMap := sdf.LightMap sdf.PbrWorkflow_default;
             sdf.Roughness := sdf.Roughness sdf.PbrWorkflow_default;
             sdf.Glossiness := sdf.Glossiness sdf.PbrWorkflow_default;
             sdf.Metalness := sdf.Metalness sdf.PbrWorkflow_default |} in
        let pbrOut := sdf.SetWorkflow sdf.SPECULAR pbrWorkflow pbrOut in
        {| sdf.Emissive := sdf.Emissive out; sdf.Diffuse := sdf.Diffuse out;
           sdf.Specular := sdf.Specular out; sdf.Ambient := sdf.Ambient out;
           sdf.RenderOrder := sdf.RenderOrder out;
           sdf.Lighting := sdf.Lighting out;
           sdf.DoubleSided := sdf.DoubleSided out;
           sdf.NormalMap_ := sdf.NormalMap_ out;
           sdf.PbrMaterial := Some pbrOut |}
      else out
  end.

(** ** Mesh.cpp: the conversion call *)

(** The variadic [joinPaths] of Filesystem.hh: the first two paths are
    joined, then the join of the others is appended. *)
Fixpoint joinPathsV (first : string) (others : list string) : string :=
  match others with
  | [] => first
  | second :: [] => joinPaths first second
  | second :: (third :: others') =>
      joinPaths (joinPaths first second) (joinPathsV third others')
  end.

(** [tokens[k]] of a [std::vector]: undefined out of range. *)
Definition at_ {R} (tokens : list string) (k : nat) : M R string :=
  match tokens !! k with
  | Some t => ret t
  | None => undefined
  end.

(** [for (i = 7; i < tokens.size(); i++)], over the tokens from the
    eighth on. *)
Fixpoint nestedPaths {R} (fullname : string) (tokens : list string) : M R string :=
  match tokens with
  | [] => ret fullname
  | t :: tokens' =>
      let fullname := joinPaths fullname (Str.lowercase t) in
      AddFilePaths_ fullname ;;
      nestedPaths fullname tokens'
  end.

(** The branch of [UpdateMesh] for the schemes https and http. *)
Definition remoteFullname {R} (home path : string) : M R string :=
  let tokens := split path "/" in
  server <- at_ tokens 0 ;;
  versionServer <- at_ tokens 1 ;;
  owner <- at_ tokens 2 ;;
  let owner := Str.lowercase owner in
  type <- at_ tokens 3 ;;
  let type := Str.lowercase type in
  modelName <- at_ tokens 4 ;;
  let modelName := Str.lowercase modelName in
  modelVersion <- at_ tokens 5 ;;
  let modelVersion := Str.lowercase modelVersion in
  let fullname :=
    joinPathsV home
      [".gz"; "fuel"; server; owner; type; modelName; modelVersion] in
  AddFilePaths_ fullname ;;
  nestedPaths fullname (drop 7 tokens).

(** The branch of [UpdateMesh] for every other scheme. *)
Definition localFullname (filename : string) : M bool string :=
  fullname <- findFile filename ;;
  fullname <-
    (if empty fullname then
       ignmsg ("Couldn't find file at " ++ filename
               ++ ". Trying again with just the basename.") ;;
       fullname <- findFile (basename filename) ;;
       if empty fullname then
         ignerr "Couldn't locate file." ;;
         return_ false
       else ret fullname
     else ret fullname) ;;
  ignmsg ("Found mesh file " ++ filename ++ " at " ++ fullname) ;;
  ret fullname.

(** [pathLowerCase.find(subMeshLowerCase) != std::string::npos] *)
Definition pathNamesSubMesh (_path : string) (subMesh : common.SubMesh) : bool :=
  let pathLowerCase := Str.lowercase _path in
  let subMeshLowerCase := Str.lowercase (common.Name subMesh) in
  bool_decide (is_Some (Str.find pathLowerCase subMeshLowerCase)).

(** The first loop of [UpdateMesh], [n] iterations from index [i]: is the
    name of some submesh part of the path? *)
Fixpoint isUSDPathInSubMeshName_loop {R} (ignMesh : common.Mesh)
    (_path : string) (n i : nat) : M R bool :=
  match n with
  | O => ret false
  | S n' =>
      let subMesh := common.SubMeshByIndex ignMesh i in
      if negb (common.SubMeshCount ignMesh =? 1)%nat then
        match subMesh with
        | None => undefined
        | Some subMesh =>
            if pathNamesSubMesh _path subMesh then ret true
            else isUSDPathInSubMeshName_loop ignMesh _path n' (S i)
        end
      else isUSDPathInSubMeshName_loop ignMesh _path n' (S i)
  end.

(** The [switch] on the primitive type: [verticesPerFace] and [numFaces],
    or nothing for the types that are not supported. *)
Definition faces (t : common.PrimitiveType) (IndexCount : nat) : option (nat * nat) :=
  match t with
  | common.POINTS => Some (1, IndexCount)%nat
  | common.LINES => Some (2, IndexCount / 2)%nat
  | common.TRIANGLES => Some (3, IndexCount / 3)%nat
  | common.LINESTRIPS | common.TRIFANS | common.TRISTRIPS => None
  end.

Definition GfVec3f (v : math.Vector3d) : Q * Q * Q :=
  (math.X v, math.Y v, math.Z v).

(** The name of the primitive a submesh is written to. *)
Definition primNameOf (_path : string) (subMesh : common.SubMesh) : string :=
  let primName := _path ++ "/" ++ common.Name subMesh in
  let primName := validPath primName in
  if Str.endsWith primName "/"
  then substring 0 (String.length primName - 1) primName
  else primName.

(** The material of a submesh: converted, written to a new material
    primitive, and bound when it is more than a diffuse colour. *)
Definition UpdateMesh_material (ignMesh : common.Mesh)
    (subMesh : common.SubMesh) (primName : string) : M bool unit :=
  let materialIndex := common.MaterialIndex subMesh in
  if negb (materialIndex =? -1) then
    match common.MaterialByIndex ignMesh materialIndex with
    | None => undefined
    | Some material =>
        let materialSdf := convert material in
        parsed <- call (ParseSdfMaterial materialSdf) ;;
        let materialPath := snd parsed in
        (if negb (fst parsed) then
           gzerr "Failed to parse sdf material" ;;
           return_ false
         else ret tt) ;;
        materialPrim <- GetPrimAtPath materialPath ;;
        (if negb (bool_decide (is_Some materialPrim)) then
           gzerr ("Unable to get material prim at path [" ++ materialPath
                  ++ "], but a prim should exist at this path.") ;;
           return_ false
         else ret tt) ;;
        materialUSD <- gets (fun s => pxr.IsA "Material" materialPath (stage s)) ;;
        if Color_ne (sdf.Emissive materialSdf) (math.mkColor 0 0 0 1)
           || Color_ne (sdf.Specular materialSdf) (math.mkColor 0 0 0 1)
           || bool_decide (is_Some (sdf.PbrMaterial materialSdf))
        then when_ materialUSD (Bind_ primName materialPath)
        else ret tt
    end
  else ret tt.

(** One iteration of the second loop of [UpdateMesh], at index [i]. *)
Definition UpdateMesh_submesh (_meshMsg : msgs.MeshGeom) (_path : string)
    (ignMesh : common.Mesh) (isUSDPathInSubMeshName : bool) (i : nat)
  : M bool unit :=
  match common.SubMeshByIndex ignMesh i with
  | None =>
      ignerr ("Unable to get a shared pointer to submesh at index ["
              ++ Str.to_string (Z.of_nat i) ++ "] of parent mesh ["
              ++ common.MeshName ignMesh ++ "]") ;;
      return_ false
  | Some subMesh =>
      if isUSDPathInSubMeshName
         && negb (common.SubMeshCount ignMesh =? 1)%nat
         && negb (pathNamesSubMesh _path subMesh)
      then ret tt
      else
        let meshPoints := GfVec3f <$> common.Vertices subMesh in
        let faceVertexIndices := common.Indices subMesh in
        let uvs := (fun uv => (math.U uv, 1 - math.V uv)%Q)
                     <$> common.TexCoords subMesh in
        let normals := GfVec3f <$> common.Normals subMesh in
        match faces (common.SubMeshPrimitiveType subMesh)
                    (common.IndexCount subMesh) with
        | None =>
            ignerr ("Submesh " ++ common.Name subMesh
                    ++ " has a primitive type that is not supported.") ;;
            return_ false
        | Some (verticesPerFace, numFaces) =>
            let faceVertexCounts := replicate numFaces (Z.of_nat verticesPerFace) in
            let primName := primNameOf _path subMesh in
            DefinePrim primName "Mesh" ;;
            author primName "points" (pxr.Array "point3f")
                   (pxr.SetValue (pxr.VVec3fArray meshPoints)) ;;
            author primName "faceVertexIndices" (pxr.Array "int")
                   (pxr.SetValue (pxr.VIntArray faceVertexIndices)) ;;
            author primName "faceVertexCounts" (pxr.Array "int")
                   (pxr.SetValue (pxr.VIntArray faceVertexCounts)) ;;
            author primName "primvars:st" (pxr.Array "float2")
                   (fun a => pxr.SetValue (pxr.VVec2fArray uvs)
                               (pxr.SetInterpolation "vertex" a)) ;;
            author primName "normals" (pxr.Array "normal3f")
                   (pxr.SetValue (pxr.VVec3fArray normals)) ;;
            author primName "normals" (pxr.Array "normal3f")
                   (pxr.SetInterpolation "vertex") ;;
            author primName "subdivisionScheme" (pxr.Scalar "token")
                   (pxr.SetValue (pxr.VToken "none")) ;;
            let extentBounds := [GfVec3f (common.Min ignMesh);
                                 GfVec3f (common.Max ignMesh)] in
            author primName "extent" (pxr.Array "float3")
                   (pxr.SetValue (pxr.VVec3fArray extentBounds)) ;;
            UpdateMesh_material ignMesh subMesh primName ;;
            author primName "xformOp:scale" (pxr.Scalar "float3")
                   (pxr.SetValue (pxr.VVec3f (math.X (msgs.scale _meshMsg))
                                             (math.Y (msgs.scale _meshMsg))
                                             (math.Z (msgs.scale _meshMsg))))
        end
  end.

(** The second loop of [UpdateMesh]: [n] iterations from index [i]. *)
Fixpoint UpdateMesh_loop (_meshMsg : msgs.MeshGeom) (_path : string)
    (ignMesh : common.Mesh) (isUSDPathInSubMeshName : bool) (n i : nat)
  : M bool unit :=
  match n with
  | O => ret tt
  | S n' =>
      UpdateMesh_submesh _meshMsg _path ignMesh isUSDPathInSubMeshName i ;;
      UpdateMesh_loop _meshMsg _path ignMesh isUSDPathInSubMeshName n' (S i)
  end.

(** The first part of [UpdateMesh]: from the mesh reference to the name
    of the file to load. *)
Definition UpdateMesh_resolve (_meshMsg : msgs.MeshGeom) : M bool string :=
  let uri := msgs.filename _meshMsg in
  let fullname := "" in
  home <- env "HOME" false ;;
  match home with
  | None =>
      ignerr ("The HOME environment variable was not defined, "
              ++ "so the resource [" ++ fullname ++ "] could not be found") ;;
      return_ false
  | Some home =>
      if String.eqb (URI_Scheme uri) "https" || String.eqb (URI_Scheme uri) "http"
      then remoteFullname home (URI_Path uri)
      else localFullname (msgs.filename _meshMsg)
  end.

(** The second part of [UpdateMesh]: the asset is loaded and its submeshes
    are written to the stage. *)
Definition UpdateMesh_convert (_meshMsg : msgs.MeshGeom) (_path fullname : string)
  : M bool bool :=
  ignMesh <- Load fullname ;;
  match ignMesh with
  | None => undefined
  | Some ignMesh =>
      isUSDPathInSubMeshName <-
        isUSDPathInSubMeshName_loop ignMesh _path
          (common.SubMeshCount ignMesh) 0 ;;
      UpdateMesh_loop _meshMsg _path ignMesh isUSDPathInSubMeshName
        (common.SubMeshCount ignMesh) 0 ;;
      return_ true
  end.

Definition UpdateMesh_body (_meshMsg : msgs.MeshGeom) (_path : string)
  : M bool bool :=
  fullname <- UpdateMesh_resolve _meshMsg ;;
  UpdateMesh_convert _meshMsg _path fullname.

(** [UpdateMesh(_meshMsg, _path, _stage)], the stage being the one of the
    state. *)
Definition UpdateMesh (_meshMsg : msgs.MeshGeom) (_path : string)
    (s : State) : Outcome bool :=
  run (UpdateMesh_body _meshMsg _path) s.

End Converter.

(** ** What a run shows to the outside *)

(** The geometry primitives defined, in order. *)
Definition meshDefines (evs : list Event) : list string :=
  omap (fun e => match e with
                 | Define p t => if String.eqb t "Mesh" then Some p else None
                 | _ => None
                 end) evs.

(** The material primitives defined, in order. *)
Definition materialDefines (evs : list Event) : list string :=
  omap (fun e => match e with
                 | Define p t => if String.eqb t "Material" then Some p else None
                 | _ => None
                 end) evs.

(** The material bindings made, in order. *)
Definition binds (evs : list Event) : list (string * string) :=
  omap (fun e => match e with Bind g m => Some (g, m) | _ => None end) evs.

(** The search locations registered, in order. *)
Definition registered (evs : list Event) : list string :=
  omap (fun e => match e with AddFilePaths p => Some p | _ => None end) evs.

(** The diagnostics written by the converter, in order. *)
Definition logged (evs : list Event) : list (Severity * string) :=
  omap (fun e => match e with Log sev t => Some (sev, t) | _ => None end) evs.

(** The file searches made, in order. *)
Definition searches (evs : list Event) : list string :=
  omap (fun e => match e with FindFile n => Some n | _ => None end) evs.

(** The assets loaded, in order. *)
Definition loads (evs : list Event) : list (option common.Mesh) :=
  omap (fun e => match e with LoadMesh _ m => Some m | _ => None end) evs.

(** The value of an attribute of a primitive of a stage. *)
Definition attrValue (st : pxr.Stage) (path name : string) : option pxr.VtValue :=
  p ← st !! path; a ← pxr.attributes p !! name; pxr.value a.

(** The path of the material primitive made when the counter is [i]. *)
Definition materialPathOf (i : Z) : string :=
  "/Looks/Material_" ++ Str.to_string i.

(** ** The rules as the specification words them *)

Module Spec.

(** "remove all spaces" *)
Fixpoint remove_spaces (s : string) : string :=
  match s with
  | EmptyString => EmptyString
  | String c rest =>
      if Ascii.eqb c " " then remove_spaces rest
      else String c (remove_spaces rest)
  end.

Definition punctuation (c : ascii) : bool :=
  Ascii.eqb c "." || Ascii.eqb c "-" || Ascii.eqb c "<" || Ascii.eqb c ">"
  || Ascii.eqb c "[" || Ascii.eqb c "]".

(** "replace each of . - < > [ ] with underscore" *)
Fixpoint replace_punctuation (s : string) : string :=
  match s with
  | EmptyString => EmptyString
  | String c rest =>
      String (if punctuation c then "_"%char else c) (replace_punctuation rest)
  end.

(** "if the resulting first character is a digit, prepend an underscore" *)
Definition prepend_if_digit (s : string) : string :=
  match s with
  | EmptyString => EmptyString
  | String c _ => if Str.isdigit c then String "_" s else s
  end.

Definition sanitize (s : string) : string :=
  prepend_if_digit (replace_punctuation (remove_spaces s)).

(** "Submesh selection": one submesh is always taken; of several, those
    the path names when it names any, all of them otherwise. *)
Definition selected (_path : string) (ignMesh : common.Mesh) : list common.SubMesh :=
  let subs := common.SubMeshes ignMesh in
  if (length subs =? 1)%nat then subs
  else if existsb (pathNamesSubMesh _path) subs
       then List.filter (pathNamesSubMesh _path) subs
       else subs.

(** "1 for Points, 2 for Lines, 3 for Triangles" *)
Definition verticesPerFace (t : common.PrimitiveType) : option nat :=
  match t with
  | common.POINTS => Some 1%nat
  | common.LINES => Some 2%nat
  | common.TRIANGLES => Some 3%nat
  | _ => None
  end.

End Spec.

(** ** A small library to run the converter on

    Paths are joined with a slash, a URI is split at its "://", and the
    world is a table of what it answers. *)

Module Sample.

Fixpoint splitOn (sep : ascii) (s : string) : list string :=
  match s with
  | EmptyString => [EmptyString]
  | String c rest =>
      if Ascii.eqb c sep then EmptyString :: splitOn sep rest
      else match splitOn sep rest with
           | t :: ts => String c t :: ts
           | [] => [String c EmptyString]
           end
  end.

Definition split (s delim : string) : list string :=
  match delim with
  | String sep _ => splitOn sep s
  | EmptyString => [s]
  end.

Definition URI_Scheme (uri : string) : string :=
  match Str.find uri "://" with
  | Some k => substring 0 k uri
  | None => ""
  end.

Definition URI_Path (uri : string) : string :=
  match Str.find uri "://" with
  | Some k => substring (k + 3) (String.length uri - (k + 3)) uri
  | None => uri
  end.

Definition joinPaths (a b : string) : string := a ++ "/" ++ b.

Definition basename (p : string) : string :=
  match rfind p "/" with
  | Some k => substring (S k) (String.length p - S k) p
  | None => p
  end.

Definition Color_ne (a b : math.Color) : bool :=
  negb (Qeq_bool (math.R a) (math.R b) && Qeq_bool (math.G a) (math.G b)
        && Qeq_bool (math.B a) (math.B b) && Qeq_bool (math.A a) (math.A b)).

Fixpoint assoc {V} (k : string) (l : list (string * V)) : option V :=
  match l with
  | [] => None
  | (k', v) :: l' => if String.eqb k k' then Some v else assoc k l'
  end.

Record World := mkWorld {
  variables : list (string * string);
  files : list (string * string);
  filePaths : list string;
  directories : list string;
  readable : list string;
  meshes : list (string * common.Mesh)
}.

Definition getenv (w : World) (name : string) : option string :=
  assoc name (variables w).

Definition findFile_in (w : World) (name : string) : string :=
  default "" (assoc name (files w)).

Definition AddFilePaths_to (p : string) (w : World) : World :=
  {| variables := variables w; files := files w;
     filePaths := filePaths w ++ [p]; directories := directories w;
     readable := readable w; meshes := meshes w |}.

Definition createDirectories_in (p : string) (w : World) : World :=
  {| variables := variables w; files := files w; filePaths := filePaths w;
     directories := directories w ++ [p]; readable := readable w;
     meshes := meshes w |}.

(** A copy succeeds when the source is a readable file. *)
Definition copyFile_in (existing new : string) (w : World) : bool * World :=
  if existsb (String.eqb existing) (readable w)
  then (true,
        {| variables := variables w; files := files w;
           filePaths := filePaths w; directories := directories w;
           readable := readable w ++ [new]; meshes := meshes w |})
  else (false, w).

Definition Load_from (w : World) (fullname : string) : option common.Mesh :=
  assoc fullname (meshes w).

Definition lib : GzCommon :=
  Build_GzCommon URI_Scheme URI_Path split joinPaths basename Color_ne
    World getenv findFile_in AddFilePaths_to createDirectories_in
    copyFile_in Load_from.

End Sample.

(** ** Auxiliary definitions of the proofs *)

(** Replacement of a one-character key, character by character. *)
Fixpoint subst (key : ascii) (replacement s : string) : string :=
  match s with
  | EmptyString => EmptyString
  | String c rest =>
      if Ascii.eqb c key then replacement ++ subst key replacement rest
      else String c (subst key replacement rest)
  end.

(** The string of [n] spaces. *)
Fixpoint spaces (n : nat) : string :=
  match n with
  | O => EmptyString
  | S n' => String " " (spaces n')
  end.

(** The progressively deeper joins of a path with further segments. *)
Fixpoint deeper `{GzCommon} (fullname : string) (segments : list string) : list string :=
  match segments with
  | [] => []
  | t :: segments' =>
      let fullname := joinPaths fullname t in
      fullname :: deeper fullname segments'
  end.

Section Logic.

Context `{GzCommon}.

(** What the material code asks of the libraries: file searches, copies
    and directories, and primitives that are not geometry. *)
Definition material_event (e : Event) : bool :=
  match e with
  | FindFile _ | CreateDirectories _ | CopyFile _ _ _ => true
  | Define _ t => negb (String.eqb t "Mesh")
  | _ => false
  end.

(** The attributes the material code writes: shader inputs and outputs and
    the shader's source. *)
Definition material_attr (n : string) : bool :=
  String.prefix "inputs:" n || String.prefix "outputs:" n
  || String.prefix "info:" n.

(** One change of the state by the material code.  A [quiet] step leaves
    the counter and the set and types of the primitives alone; attributes
    are written only under the names [N] allows. *)
Inductive step (quiet : bool) (N : string -> bool) : State -> State -> Prop :=
| step_record e s :
    material_event e = true -> step quiet N s (record e s)
| step_world w s :
    step quiet N s (with_world w s)
| step_author p n t f s :
    N n = true ->
    step quiet N s (with_stage (alter (pxr.authorAttribute n t f) p) s)
| step_incr s :
    quiet = false -> step quiet N s (with_material_i (material_i s + 1) s)
| step_define p t s :
    quiet = false -> t <> "Mesh" ->
    step quiet N s (with_stage (pxr.DefinePrim p t) s).

Definition steps (quiet : bool) (N : string -> bool) : State -> State -> Prop :=
  rtc (step quiet N).

(** The outcome of a step seen through postconditions: [Q] when it goes
    on, [QR] when it returns, [U] when its behaviour is undefined. *)
Definition wp {R A} (U : Prop) (m : M R A) (Q : A -> State -> Prop)
    (QR : R -> State -> Prop) (s : State) : Prop :=
  match m s with
  | Next a s' => Q a s'
  | Return r s' => QR r s'
  | Undefined => U
  end.

(** Whether a material primitive at [path] is usable as one: the path is
    free, or holds a primitive of type Material. *)
Definition usable (st : pxr.Stage) (path : string) : bool :=
  match st !! path with
  | Some p => String.eqb (pxr.primTypeName p) "Material"
  | None => true
  end.

(** The condition under which [UpdateMesh] binds a material. *)
Definition bindCondition (materialSdf : sdf.Material) : bool :=
  Color_ne (sdf.Emissive materialSdf) (math.mkColor 0 0 0 1)
  || Color_ne (sdf.Specular materialSdf) (math.mkColor 0 0 0 1)
  || bool_decide (is_Some (sdf.PbrMaterial materialSdf)).

(** A texture block of [ParseSdfMaterial]: the copy, the shader input, the
    test of its result. *)
Definition textureBlock (shaderPrim _materialPath map name displayName
    displayGroup colorSpace text : string) : M (bool * string) unit :=
  if negb (empty map) then
    copyPath <- copyTexture map ;;
    success <- call (CreateMaterialInput shaderPrim name
      (pxr.Scalar "asset") (pxr.VAsset copyPath) customDefaultSdfAssetPath
      displayName displayGroup "" colorSpace) ;;
    check success text _materialPath
  else ret tt.

(** What the loop over the submeshes asks of the libraries: anything but
    search locations and assets. *)
Definition conversion_event (e : Event) : bool :=
  match e with
  | AddFilePaths _ | LoadMesh _ _ => false
  | _ => true
  end.

(** What the resolution of the asset asks of the libraries. *)
Definition resolution_event (e : Event) : bool :=
  match e with
  | AddFilePaths _ | FindFile _ | Log _ _ => true
  | _ => false
  end.

(** The submeshes the second loop of [UpdateMesh] does not skip. *)
Definition kept (_path : string) (ignMesh : common.Mesh)
    (isUSDPathInSubMeshName : bool) (subMesh : common.SubMesh) : bool :=
  negb (isUSDPathInSubMeshName
        && negb (common.SubMeshCount ignMesh =? 1)%nat
        && negb (pathNamesSubMesh _path subMesh)).

(** A submesh of a supported primitive type. *)
Definition supported (subMesh : common.SubMesh) : bool :=
  bool_decide (is_Some (faces (common.SubMeshPrimitiveType subMesh)
                              (common.IndexCount subMesh))).

(** From [s] to [s'] the run asked for nothing but conversion work, defined
    the geometry primitives [defs] in this order, which are in the stage,
    removed no primitive, and never lowered the material counter. *)
Definition emits (s s' : State) (defs : list string) : Prop :=
  exists evs,
    trace s' = (trace s ++ evs)%list
    /\ forallb conversion_event evs = true
    /\ meshDefines evs = defs
    /\ material_i s <= material_i s'
    /\ (forall p, is_Some (stage s !! p) -> is_Some (stage s' !! p))
    /\ Forall (fun p => is_Some (stage s' !! p)) defs.

(** The paths registered as search locations, one after the other. *)
Definition registerAll (paths : list string) (s : State) : State :=
  foldl (fun st p => record (AddFilePaths p)
                       (with_world (AddFilePaths_to p (world st)) st))
        s paths.

(** From [s] to [s1] the run only resolved the asset: it searched,
    registered and wrote diagnostics, and left stage and counter alone. *)
Definition resolved (s s1 : State) : Prop :=
  exists pre,
    trace s1 = (trace s ++ pre)%list
    /\ forallb resolution_event pre = true
    /\ material_i s1 = material_i s
    /\ stage s1 = stage s.

(** The workflow [ParseSdfMaterial] reads: metal first, then specular. *)
Definition chosenWorkflow (_materialSdf : sdf.Material) : option sdf.PbrWorkflow :=
  match sdf.PbrMaterial _materialSdf with
  | Some pbr =>
      match sdf.Workflow pbr sdf.METAL with
      | Some w => Some w
      | None => sdf.Workflow pbr sdf.SPECULAR
      end
  | None => None
  end.

(** The texture channels of the shader: the attribute and the map
    reference it is fed from. *)
Definition textureInputs (w : sdf.PbrWorkflow) : list (string * string) :=
  [("inputs:diffuse_texture", sdf.AlbedoMap w);
   ("inputs:metallic_texture", sdf.MetalnessMap w);
   ("inputs:normalmap_texture", sdf.NormalMap w);
   ("inputs:reflectionroughness_texture", sdf.RoughnessMap w)].

End Logic.

(** "each segment is lower-cased, and the segments are joined under the
    local cache root", the nested segments following the six positional
    ones, "along with each progressively deeper nested-path join". *)
Definition claimedCachePaths `{GzCommon} (home : string) (tokens : list string)
  : list string :=
  let segments := Str.lowercase <$> tokens in
  let base := joinPathsV home ([".gz"; "fuel"] ++ take 6 segments)%list in
  base :: deeper base (drop 6 segments).

(** The material binding of a primitive of a stage. *)
Definition bindingOf (st : pxr.Stage) (path : string) : option string :=
  p ← st !! path; pxr.materialBinding p.

(** ** Tactics of the proofs *)

(** Closes [steps q N s s'] when [s'] is [s] under recorded events, new
    worlds, written attributes and defined primitives. *)
Ltac steps_auto :=
  repeat first
    [ apply rtc_refl
    | eapply rtc_r;
        [| first [ apply step_record; reflexivity
                 | apply step_world
                 | apply step_author; first [reflexivity | apply String.eqb_refl]
                 | apply step_define; [reflexivity | discriminate] ] ] ].

(** Folds a texture block of [ParseSdfMaterial_pbr] at the head of the run. *)
Ltac fold_textureBlock :=
  lazymatch goal with
  | |- wp _ (bind (if negb (empty ?map) then
                     bind (copyTexture ?map) (fun copyPath =>
                       bind (call (CreateMaterialInput ?p ?name _ _ _ ?dn ?dg _ ?cs))
                            (fun success => check success ?text ?mp))
                   else ret tt) ?k) ?Q ?QR ?s =>
      change (wp False (bind (textureBlock p mp map name dn dg cs text) k) Q QR s)
  end.

(** Closes [resolved s s'] when [s'] is [s] under recorded events. *)
Ltac resolved_auto :=
  unfold resolved; simpl; rewrite <- ?app_assoc;
  eexists; split; [reflexivity|done].

(** ** Concrete assets and a concrete world, for running the converter *)

Module Example.

Definition black : math.Color := math.mkColor 0 0 0 1.

Definition red : math.Color := math.mkColor 1 0 0 1.

Definition origin : math.Vector3d := math.mkVector3d 0 0 0.

Definition ones : math.Vector3d := math.mkVector3d 1 1 1.

(** A material that is a diffuse colour and nothing else. *)
Definition plain : common.Material :=
  common.mkMaterial black red black black 0 true false None "".

(** A material with a legacy texture image and no PBR record. *)
Definition textured : common.Material :=
  common.mkMaterial black red black black 0 true false None "wood.png".

(** A PBR record without an albedo map. *)
Definition bare : common.Pbr :=
  common.mkPbr common.PbrType_METAL "" "" common.TANGENT "" "" "" "" "" "" ""
    (1 # 2) 0 (1 # 2).

(** A material with that PBR record and a legacy texture image. *)
Definition metal : common.Material :=
  common.mkMaterial black red black black 0 true false (Some bare) "wood.png".

Definition submesh (name : string) (t : common.PrimitiveType) (material : Z)
  : common.SubMesh :=
  common.mkSubMesh name [origin; ones; origin] [0; 1; 2; 0; 2; 1; 1] [] []
    t material.

(** One submesh, a line strip. *)
Definition strip : common.Mesh :=
  common.mkMesh "strip" [submesh "edge" common.LINESTRIPS (-1)] [] origin ones.

(** Two submeshes: triangles, and a line strip. *)
Definition car : common.Mesh :=
  common.mkMesh "car"
    [submesh "wheel" common.TRIANGLES (-1); submesh "body" common.LINESTRIPS (-1)]
    [] origin ones.

(** Two submeshes of triangles with the same material. *)
Definition twins : common.Mesh :=
  common.mkMesh "twins"
    [submesh "left" common.TRIANGLES 0; submesh "right" common.TRIANGLES 0]
    [textured] origin ones.

Definition host : Sample.World :=
  {| Sample.variables := [("HOME", "/home/u")];
     Sample.files := [("strip.dae", "/m/strip.dae"); ("car.dae", "/m/car.dae");
                      ("twins.dae", "/m/twins.dae")];
     Sample.filePaths := [];
     Sample.directories := [];
     Sample.readable := [];
     Sample.meshes := [("/m/strip.dae", strip); ("/m/car.dae", car);
                       ("/m/twins.dae", twins)] |}.

(** A world without the variable HOME. *)
Definition homeless : Sample.World :=
  {| Sample.variables := [];
     Sample.files := Sample.files host;
     Sample.filePaths := [];
     Sample.directories := [];
     Sample.readable := [];
     Sample.meshes := Sample.meshes host |}.

(** An empty stage, a fresh counter, nothing asked yet. *)
Definition initial : @State Sample.lib := @mkState Sample.lib ∅ host 0 [].

Definition lost : @State Sample.lib := @mkState Sample.lib ∅ homeless 0 [].

(** A stage whose first material path holds a primitive of another type. *)
Definition occupied : @State Sample.lib :=
  @mkState Sample.lib {[ "/Looks/Material_0" := pxr.newPrim "Scope" ]} host 0 [].

Definition mesh (filename : string) : msgs.MeshGeom :=
  msgs.mkMeshGeom filename ones.

(** A remote mesh reference. *)
Definition pump : msgs.MeshGeom :=
  mesh "https://Fuel.Example.org/1.0/OpenRobotics/models/Pump/2/files/meshes/Pump.dae".

(** The state a finished run ends in. *)
Definition final `{GzCommon} {A} (o : Outcome A) (otherwise : State) : State :=
  match o with
  | Done _ s => s
  | Crash => otherwise
  end.

End Example.

(** ** Further notions, for the properties of the code beyond the
    specification *)

(** The characters [validPath] removes or replaces. *)
Definition forbidden (c : ascii) : bool :=
  existsb (Ascii.eqb c) [" "; "."; "-"; "<"; ">"; "["; "]"]%char.

(** Every character of a string passes a test. *)
Fixpoint all_chars (P : ascii -> bool) (s : string) : bool :=
  match s with
  | EmptyString => true
  | String c rest => P c && all_chars P rest
  end.

(** A string [validPath] finds nothing to do on. *)
Definition clean (s : string) : bool :=
  all_chars (fun c => negb (forbidden c)) s
  && match s with
     | String c _ => negb (Str.isdigit c)
     | EmptyString => true
     end.

(** The last character of a string. *)
Fixpoint last_char (s : string) : option ascii :=
  match s with
  | EmptyString => None
  | String c EmptyString => Some c
  | String _ rest => last_char rest
  end.

(** A string without its last character. *)
Fixpoint drop_last (s : string) : string :=
  match s with
  | EmptyString => EmptyString
  | String c EmptyString => EmptyString
  | String c rest => String c (drop_last rest)
  end.

(** An attribute of a primitive of a stage. *)
Definition attributeOf (st : pxr.Stage) (path name : string) : option pxr.Attribute :=
  p ← st !! path; pxr.attributes p !! name.

(** The type of the primitive at a path of a stage. *)
Definition typeOf (st : pxr.Stage) (path : string) : option string :=
  pxr.primTypeName <$> st !! path.

Section Frames.

Context `{GzCommon}.

(** A computation keeps a relation between the state it starts in and the
    state it ends in, whether it goes on or returns. *)
Definition keeps {R A} (Rel : State -> State -> Prop) (m : M R A) : Prop :=
  forall s,
    match m s with
    | Next _ s' | Return _ s' => Rel s s'
    | Undefined => True
    end.

(** The primitives at the paths outside [P] are the same in both states. *)
Definition untouched (P : string -> bool) (s s' : State) : Prop :=
  forall p, P p = false -> stage s' !! p = stage s !! p.

(** The paths a conversion call at [_path] may write to: those under
    /Looks and those under the sanitized target path. *)
Definition reach (_path : string) (p : string) : bool :=
  String.prefix "/Looks" p || String.prefix (validPath _path) p.

(** The paths [ParseSdfMaterial] writes to after /Looks, when the counter
    is [i]: the material primitive and its shader. *)
Definition materialPaths (i : Z) (p : string) : bool :=
  String.eqb p (materialPathOf i)
  || String.eqb p (materialPathOf i ++ "/Shader").

End Frames.

(** A name is one of a list. *)
Definition among (names : list string) (n : string) : bool :=
  existsb (String.eqb n) names.

(** The attributes [ParseSdfMaterial] writes for every material: the
    shader's output and source, the material's outputs, and the four
    inputs made from the diffuse and the emissive colour. *)
Definition baseAttributes : list string :=
  ["outputs:out"; "outputs:mdl:surface"; "outputs:mdl:volume";
   "outputs:mdl:displacement"; "info:implementationSource";
   "info:mdl:sourceAsset"; "info:mdl:sourceAsset:subIdentifier";
   "inputs:diffuse_color_constant"; "inputs:emissive_color";
   "inputs:enable_emission"; "inputs:emissive_intensity"].

(** The inputs [ParseSdfMaterial] writes from a PBR workflow. *)
Definition pbrInputs : list string :=
  ["inputs:metallic_constant"; "inputs:reflection_roughness_constant";
   "inputs:diffuse_texture"; "inputs:metallic_texture";
   "inputs:normalmap_texture"; "inputs:reflectionroughness_texture";
   "inputs:reflection_roughness_texture_influence"].

(** The error diagnostics written, in order. *)
Definition errors (evs : list Event) : list string :=
  omap (fun e => match e with Log Err t => Some t | _ => None end) evs.

(** A submesh that declares a material. *)
Definition withMaterial (subMesh : common.SubMesh) : bool :=
  negb (common.MaterialIndex subMesh =? -1).

(** ** Further assets, worlds and stages to run the converter on *)

Module Scenario.

(** A stage that holds a shader and nothing else. *)
Definition shaded : @State Sample.lib :=
  @mkState Sample.lib {[ "/Looks/M/Shader" := pxr.newPrim "Shader" ]}
           Example.host 0 [].

(** A stage that holds a primitive of the scene, away from the target of
    any conversion. *)
Definition furnished : @State Sample.lib :=
  @mkState Sample.lib {[ "/World/ground" := pxr.newPrim "Xform" ]}
           Example.host 0 [].

(** A material with a PBR record that has a metalness map and a roughness
    map, and no albedo map. *)
Definition mapped : common.Material :=
  common.mkMaterial Example.black Example.red Example.black Example.black 0
    true false
    (Some (common.mkPbr common.PbrType_METAL "" "" common.TANGENT
             "textures/metal.png" "" "textures/rough.png" "" "" "" ""
             (1 # 4) 0 (3 # 4)))
    "wood.png".

(** One submesh of triangles with that material. *)
Definition plated : common.Mesh :=
  common.mkMesh "plated" [Example.submesh "plate" common.TRIANGLES 0]
    [mapped] Example.origin Example.ones.

(** An asset without submeshes. *)
Definition hollow : common.Mesh :=
  common.mkMesh "hollow" [] [] Example.origin Example.ones.

(** An asset of two submeshes, the first without a name. *)
Definition anonymous : common.Mesh :=
  common.mkMesh "anonymous"
    [Example.submesh "" common.TRIANGLES (-1);
     Example.submesh "door" common.TRIANGLES (-1)]
    [] Example.origin Example.ones.

(** An asset of two submeshes whose names differ in punctuation only. *)
Definition clashing : common.Mesh :=
  common.mkMesh "clashing"
    [common.mkSubMesh "wheel.1" [Example.origin] [0] [] [] common.POINTS (-1);
     common.mkSubMesh "wheel_1" [Example.ones] [0] [] [] common.POINTS (-1)]
    [] Example.origin Example.ones.

(** A world where the file ghost.dae is found and cannot be loaded, the
    file hollow.dae holds the asset without submeshes, and the file
    car.dae is found under its base name only. *)
Definition haunted : Sample.World :=
  {| Sample.variables := [("HOME", "/home/u")];
     Sample.files := [("ghost.dae", "/m/ghost.dae");
                      ("hollow.dae", "/m/hollow.dae");
                      ("car.dae", "/m/car.dae")];
     Sample.filePaths := [];
     Sample.directories := [];
     Sample.readable := ["/t/metal.png"];
     Sample.meshes := [("/m/hollow.dae", hollow); ("/m/car.dae", Example.car)] |}.

Definition visited : @State Sample.lib := @mkState Sample.lib ∅ haunted 0 [].

(** The state a step ends in. *)
Definition after `{GzCommon} {R A} (r : Res R A) (otherwise : State) : State :=
  match r with
  | Next _ s | Return _ s => s
  | Undefined => otherwise
  end.

End Scenario.

(** * Properties *)

Local Open Scope list_scope.

(** ** The path sanitizer *)

Section Sanitizer.

Lemma append_empty_l (s : string) : ("" ++ s)%string = s.
Proof. reflexivity. Qed.

Lemma prefix_char (key c : ascii) (rest : string) :
  String.prefix (String key EmptyString) (String c rest) = Ascii.eqb c key.
Proof.
  simpl. destruct (ascii_dec key c) as [->|Hne].
  - rewrite Ascii.eqb_refl. by destruct rest.
  - symmetry. apply Ascii.eqb_neq. congruence.
Qed.

Lemma replaceAll_char (key : ascii) (replacement s : string) :
  Str.replaceAll s (String key EmptyString) replacement = subst key replacement s.
Proof.
  unfold Str.replaceAll.
  induction s as [|c rest IH]; [done|].
  cbn [Str.replaceAll_scan subst]. rewrite prefix_char.
  destruct (Ascii.eqb c key); cbn [String.length Nat.sub]; by rewrite IH.
Qed.

Lemma subst_space (s : string) : subst " " "" s = Spec.remove_spaces s.
Proof.
  induction s as [|c rest IH]; [done|].
  simpl. rewrite IH. by destruct (Ascii.eqb c " ").
Qed.

Lemma subst_punctuation (s : string) :
  subst "]" "_" (subst "[" "_" (subst ">" "_" (subst "<" "_"
    (subst "-" "_" (subst "." "_" s))))) = Spec.replace_punctuation s.
Proof.
  induction s as [|c rest IH]; [done|].
  cbn [subst Spec.replace_punctuation]. unfold Spec.punctuation.
  destruct (Ascii.eqb c ".") eqn:E1; simpl; [by rewrite append_empty_l, IH|].
  destruct (Ascii.eqb c "-") eqn:E2; simpl; [by rewrite append_empty_l, IH|].
  destruct (Ascii.eqb c "<") eqn:E3; simpl; [by rewrite append_empty_l, IH|].
  destruct (Ascii.eqb c ">") eqn:E4; simpl; [by rewrite append_empty_l, IH|].
  destruct (Ascii.eqb c "[") eqn:E5; simpl; [by rewrite append_empty_l, IH|].
  destruct (Ascii.eqb c "]") eqn:E6; simpl; by rewrite ?append_empty_l, IH.
Qed.

Lemma validPath_replaced_spec (p : string) :
  validPath_replaced p = Spec.replace_punctuation (Spec.remove_spaces p).
Proof.
  unfold validPath_replaced.
  rewrite !(replaceAll_char _ _ _), subst_space. apply subst_punctuation.
Qed.


Lemma remove_spaces_spaces (n : nat) : Spec.remove_spaces (spaces n) = "".
Proof. induction n as [|n IH]; [done|]. simpl. exact IH. Qed.


End Sanitizer.

(** ** The scene graph *)

Section Stage.

Implicit Types (st : pxr.Stage) (p q name n : string).

Lemma IsA_author t p n ty f q st :
  pxr.IsA t p (alter (pxr.authorAttribute n ty f) q st) = pxr.IsA t p st.
Proof.
  unfold pxr.IsA. rewrite lookup_alter. case_decide; [subst|done].
  by destruct (st !! p).
Qed.

Lemma IsA_bind t p m q st :
  pxr.IsA t p (alter (pxr.bindMaterial m) q st) = pxr.IsA t p st.
Proof.
  unfold pxr.IsA. rewrite lookup_alter. case_decide; [subst|done].
  by destruct (st !! p).
Qed.

Lemma IsA_define_eq t p t' st :
  pxr.IsA t p (pxr.DefinePrim p t' st) = String.eqb t' t.
Proof.
  unfold pxr.IsA, pxr.DefinePrim.
  destruct (st !! p); by rewrite lookup_insert_eq.
Qed.

Lemma IsA_define_ne t p q t' st :
  p <> q -> pxr.IsA t p (pxr.DefinePrim q t' st) = pxr.IsA t p st.
Proof.
  intros Hne. unfold pxr.IsA, pxr.DefinePrim.
  destruct (st !! q); by rewrite lookup_insert_ne.
Qed.

Lemma lookup_define_is_Some p q t st :
  is_Some (st !! p) -> is_Some (pxr.DefinePrim q t st !! p).
Proof.
  unfold pxr.DefinePrim. intros Hp.
  destruct (decide (q = p)) as [->|Hne].
  - destruct (st !! p); rewrite lookup_insert_eq; eauto.
  - destruct (st !! q); by rewrite lookup_insert_ne.
Qed.

Lemma lookup_define_eq p t st : is_Some (pxr.DefinePrim p t st !! p).
Proof.
  unfold pxr.DefinePrim. destruct (st !! p); rewrite lookup_insert_eq; eauto.
Qed.

Lemma lookup_alter_is_Some (f : pxr.Prim -> pxr.Prim) p q st :
  is_Some (alter f q st !! p) <-> is_Some (st !! p).
Proof.
  rewrite lookup_alter. case_decide; [subst|done].
  destruct (st !! p); simpl; split; intros [? ?]; eauto; done.
Qed.

Lemma attrValue_define p name q t st :
  attrValue (pxr.DefinePrim q t st) p name = attrValue st p name.
Proof.
  unfold attrValue, pxr.DefinePrim.
  destruct (decide (q = p)) as [->|Hne].
  - destruct (st !! p) eqn:E; rewrite lookup_insert_eq; simpl; [done|].
    by rewrite lookup_empty.
  - destruct (st !! q); by rewrite lookup_insert_ne.
Qed.

Lemma attrValue_bind p name q m st :
  attrValue (alter (pxr.bindMaterial m) q st) p name = attrValue st p name.
Proof.
  unfold attrValue. rewrite lookup_alter. case_decide; [subst|done].
  by destruct (st !! p).
Qed.

Lemma attrValue_author_ne p name q n ty f st :
  n <> name -> attrValue (alter (pxr.authorAttribute n ty f) q st) p name
               = attrValue st p name.
Proof.
  intros Hne. unfold attrValue. rewrite lookup_alter.
  case_decide; [subst|done].
  destruct (st !! p) as [pr|]; simpl; [|done].
  by rewrite lookup_insert_ne.
Qed.

Lemma attrValue_author_eq p n ty f v st :
  is_Some (st !! p) -> (forall a, pxr.value (f a) = Some v) ->
  attrValue (alter (pxr.authorAttribute n ty f) p st) p n = Some v.
Proof.
  intros [pr Hpr] Hf. unfold attrValue. rewrite lookup_alter, decide_True by done.
  rewrite Hpr. simpl. rewrite lookup_insert_eq. simpl. apply Hf.
Qed.

End Stage.

(** ** Runs and their postconditions *)

Section Wp.

Context `{GzCommon}.

Lemma wp_bind {R A B} U (m : M R A) (f : A -> M R B) Q QR s :
  wp U m (fun a s' => wp U (f a) Q QR s') QR s -> wp U (bind m f) Q QR s.
Proof. unfold wp, bind. by destruct (m s). Qed.

Lemma wp_mono {R A} U (m : M R A) (Q Q' : A -> State -> Prop)
    (QR QR' : R -> State -> Prop) s :
  wp U m Q QR s ->
  (forall a s', Q a s' -> Q' a s') ->
  (forall r s', QR r s' -> QR' r s') ->
  wp U m Q' QR' s.
Proof. unfold wp. destruct (m s); auto. Qed.

Lemma wp_call {R A} U (m : M A A) (Q : A -> State -> Prop)
    (QR : R -> State -> Prop) s :
  wp U m Q Q s -> wp U (call m) Q QR s.
Proof. unfold wp, call. by destruct (m s). Qed.

Lemma wp_weaken {R A} (U : Prop) (m : M R A) Q QR s :
  wp False m Q QR s -> wp U m Q QR s.
Proof. unfold wp. by destruct (m s). Qed.

Lemma wp_run {A} (m : M A A) (Q : A -> State -> Prop) s a s' :
  wp True m Q Q s -> run m s = Done a s' -> Q a s'.
Proof. unfold wp, run. destruct (m s); intros; simplify_eq; done. Qed.

Lemma wp_bind_Next {R A B} U (m : M R A) (f : A -> M R B) Q QR s a s1 :
  m s = Next a s1 -> wp U (f a) Q QR s1 -> wp U (bind m f) Q QR s.
Proof. intros E. unfold wp, bind. by rewrite E. Qed.

Lemma wp_return {R A} U (r : R) (Q : A -> State -> Prop) (QR : R -> State -> Prop) s :
  QR r s -> wp U (return_ r) Q QR s.
Proof. done. Qed.

Lemma wp_ret {R A} U (a : A) (Q : A -> State -> Prop) (QR : R -> State -> Prop) s :
  Q a s -> wp U (ret a) Q QR s.
Proof. done. Qed.

Lemma call_Return {R A} (m : M A A) s a s1 :
  m s = Return a s1 -> call (R := R) m s = Next a s1.
Proof. unfold call. by intros ->. Qed.

End Wp.

(** ** Steps of the material code *)

Section Steps.

Context `{GzCommon}.

Implicit Types (s : State) (N : string -> bool).

Lemma steps_refl q N s : steps q N s s.
Proof. apply rtc_refl. Qed.

Lemma steps_trans q N s1 s2 s3 :
  steps q N s1 s2 -> steps q N s2 s3 -> steps q N s1 s3.
Proof. apply rtc_trans. Qed.

Lemma steps_one q N s s' : step q N s s' -> steps q N s s'.
Proof. apply rtc_once. Qed.

Lemma step_mono q q' N N' s s' :
  (q' = true -> q = true) -> (forall n, N n = true -> N' n = true) ->
  step q N s s' -> step q' N' s s'.
Proof.
  intros Hq HN Hs. destruct Hs.
  - by apply step_record.
  - apply step_world.
  - apply step_author. auto.
  - apply step_incr. destruct q'; [|done]. rewrite Hq in *; done.
  - apply step_define; [|done]. destruct q'; [|done]. rewrite Hq in *; done.
Qed.

Lemma steps_mono q q' N N' s s' :
  (q' = true -> q = true) -> (forall n, N n = true -> N' n = true) ->
  steps q N s s' -> steps q' N' s s'.
Proof.
  intros Hq HN. induction 1 as [|s1 s2 s3 H12 _ IH]; [apply rtc_refl|].
  eapply rtc_l; [|exact IH]. by eapply step_mono.
Qed.

Lemma steps_trace q N s s' :
  steps q N s s' ->
  exists evs, trace s' = trace s ++ evs /\ forallb material_event evs = true.
Proof.
  induction 1 as [s|s1 s2 s3 H12 _ (evs & Ht & Hevs)].
  - exists []. by rewrite app_nil_r.
  - destruct H12; simpl in Ht; try (by exists evs).
    exists (e :: evs). split.
    + by rewrite Ht, <- app_assoc.
    + simpl. by rewrite Hevs, andb_true_r.
Qed.

Lemma steps_counter q N s s' :
  steps q N s s' -> material_i s <= material_i s'.
Proof.
  induction 1 as [s|s1 s2 s3 H12 _ IH]; [lia|].
  destruct H12; simpl in IH; lia.
Qed.

Lemma steps_quiet_counter N s s' :
  steps true N s s' -> material_i s' = material_i s.
Proof.
  induction 1 as [s|s1 s2 s3 H12 _ IH]; [done|].
  destruct H12; simpl in IH; done.
Qed.

Lemma steps_quiet_IsA N t p s s' :
  steps true N s s' -> pxr.IsA t p (stage s') = pxr.IsA t p (stage s).
Proof.
  induction 1 as [s|s1 s2 s3 H12 _ IH]; [done|].
  destruct H12; simpl in IH; try done.
  by rewrite IH, IsA_author.
Qed.

Lemma steps_lookup q N p s s' :
  steps q N s s' -> is_Some (stage s !! p) -> is_Some (stage s' !! p).
Proof.
  induction 1 as [s|s1 s2 s3 H12 _ IH]; [done|].
  intros Hp. apply IH. destruct H12; simpl; try done.
  - by apply lookup_alter_is_Some.
  - by apply lookup_define_is_Some.
Qed.

Lemma steps_attr q N p name s s' :
  N name = false -> steps q N s s' ->
  attrValue (stage s') p name = attrValue (stage s) p name.
Proof.
  intros HN. induction 1 as [s|s1 s2 s3 H12 _ IH]; [done|].
  rewrite IH. destruct H12; simpl; try done.
  - apply attrValue_author_ne. intros ->. congruence.
  - apply attrValue_define.
Qed.

End Steps.

(** ** The material code, step by step *)

Section Material.

Context `{GzCommon}.

Implicit Types (s : State) (N : string -> bool).

Lemma copyMaterial_spec N _path _fullPath s :
  exists b s', copyMaterial _path _fullPath s = Return b s' /\ steps true N s s'.
Proof.
  unfold copyMaterial.
  destruct (negb (empty _path) && negb (empty _fullPath)).
  - destruct (negb (empty (substr0 _path (rfind _path (basename _path)))))
      eqn:E; unfold bind; simpl;
      eexists _, _; (split; [reflexivity|]); steps_auto.
  - eexists _, _. split; [reflexivity|]. steps_auto.
Qed.

Lemma copyTexture_spec {R} N map s :
  exists s', copyTexture (R := R) map s = Next (getMaterialCopyPath map) s'
             /\ steps true N s s'.
Proof.
  unfold copyTexture, bind, findFile, bind. simpl.
  match goal with
  | |- context [call (copyMaterial ?p ?f) ?s1] =>
      destruct (copyMaterial_spec N p f s1) as (b & s' & E & Hs)
  end.
  unfold call. rewrite E. simpl.
  eexists. split; [reflexivity|].
  eapply steps_trans; [|exact Hs]. steps_auto.
Qed.

Lemma value_customData (cd : list (string * pxr.VtValue)) a :
  pxr.value (foldl (fun a kv => pxr.SetCustomDataByKey (fst kv) (snd kv) a) a cd)
  = pxr.value a.
Proof. revert a. induction cd as [|kv cd IH]; intros a; [done|]. simpl. by rewrite IH. Qed.

Lemma IsA_is_Some t p (st : pxr.Stage) : pxr.IsA t p st = true -> is_Some (st !! p).
Proof. unfold pxr.IsA. destruct (st !! p); [eauto|done]. Qed.

Lemma CreateMaterialInput_spec p n ty v cd dn dg doc cs s :
  pxr.IsA "Shader" p (stage s) = true ->
  exists s', CreateMaterialInput p n ty v cd dn dg doc cs s = Return true s'
             /\ steps true (String.eqb ("inputs:" ++ n)%string) s s'
             /\ attrValue (stage s') p ("inputs:" ++ n)%string = Some v.
Proof.
  intros Hp. unfold CreateMaterialInput, bind, gets. rewrite Hp. simpl.
  eexists. split; [reflexivity|]. split; [steps_auto|].
  simpl. apply attrValue_author_eq; [by eapply IsA_is_Some|].
  intros a.
  destruct (negb (empty cs)), (negb (empty doc)), (negb (empty dg)),
    (negb (empty dn)); simpl; by rewrite value_customData.
Qed.

Lemma textureBlock_spec p mp map name dn dg cs text s :
  pxr.IsA "Shader" p (stage s) = true ->
  exists s', textureBlock p mp map name dn dg cs text s = Next tt s'
             /\ steps true (String.eqb ("inputs:" ++ name)%string) s s'
             /\ (empty map = false ->
                 attrValue (stage s') p ("inputs:" ++ name)%string
                 = Some (pxr.VAsset (getMaterialCopyPath map))).
Proof.
  intros Hp. unfold textureBlock. destruct (empty map); simpl.
  - exists s. split; [done|]. split; [apply steps_refl|done].
  - destruct (copyTexture_spec (R := bool * string)
                (String.eqb ("inputs:" ++ name)%string) map s) as (s1 & E1 & S1).
    unfold bind at 1. rewrite E1.
    destruct (CreateMaterialInput_spec p name (pxr.Scalar "asset")
                (pxr.VAsset (getMaterialCopyPath map)) customDefaultSdfAssetPath
                dn dg "" cs s1) as (s2 & E2 & S2 & A2).
    { by rewrite (steps_quiet_IsA _ _ _ _ _ S1). }
    unfold bind, call. rewrite E2. simpl.
    exists s2. split; [done|]. split; [|done].
    by eapply steps_trans.
Qed.

Lemma steps_named q name s s' :
  material_attr name = true ->
  steps true (String.eqb name) s s' -> steps q material_attr s s'.
Proof.
  intros Hname. apply steps_mono; [done|].
  intros n Hn. apply String.eqb_eq in Hn. by subst.
Qed.

Lemma attr_kept q N p name v s s' :
  steps q N s s' -> N name = false ->
  attrValue (stage s) p name = Some v -> attrValue (stage s') p name = Some v.
Proof. intros Hs HN <-. by eapply steps_attr. Qed.

Lemma ParseSdfMaterial_pbr_spec w p mp s :
  pxr.IsA "Shader" p (stage s) = true ->
  wp False (ParseSdfMaterial_pbr w p mp)
     (fun _ s' =>
        steps true material_attr s s'
        /\ forall name map, (name, map) ∈ textureInputs w -> empty map = false ->
             attrValue (stage s') p name
             = Some (pxr.VAsset (getMaterialCopyPath map)))
     (fun _ _ => False) s.
Proof.
  intros Hp. unfold ParseSdfMaterial_pbr.
  edestruct (CreateMaterialInput_spec p) as (s1 & E1 & S1 & _); [exact Hp|].
  eapply wp_bind_Next; [apply call_Return; exact E1|].
  eapply wp_bind_Next; [reflexivity|].
  apply (steps_named true) in S1; [|reflexivity].
  edestruct (CreateMaterialInput_spec p) as (s2 & E2 & S2 & _);
    [by rewrite (steps_quiet_IsA _ _ _ _ _ S1)|].
  eapply wp_bind_Next; [apply call_Return; exact E2|].
  eapply wp_bind_Next; [reflexivity|].
  apply (steps_named true) in S2; [|reflexivity].
  assert (S02 := steps_trans _ _ _ _ _ S1 S2). clear S1 S2 E1 E2.
  fold_textureBlock.
  edestruct (textureBlock_spec p) as (s3 & E3 & S3 & A3);
    [by rewrite (steps_quiet_IsA _ _ _ _ _ S02)|].
  eapply wp_bind_Next; [exact E3|].
  fold_textureBlock.
  edestruct (textureBlock_spec p) as (s4 & E4 & S4 & A4);
    [by rewrite (steps_quiet_IsA _ _ _ _ _ S3), (steps_quiet_IsA _ _ _ _ _ S02)|].
  eapply wp_bind_Next; [exact E4|].
  fold_textureBlock.
  edestruct (textureBlock_spec p) as (s5 & E5 & S5 & A5);
    [by rewrite (steps_quiet_IsA _ _ _ _ _ S4), (steps_quiet_IsA _ _ _ _ _ S3),
         (steps_quiet_IsA _ _ _ _ _ S02)|].
  eapply wp_bind_Next; [exact E5|].
  assert (Hp5 : pxr.IsA "Shader" p (stage s5) = true).
  { by rewrite (steps_quiet_IsA _ _ _ _ _ S5), (steps_quiet_IsA _ _ _ _ _ S4),
       (steps_quiet_IsA _ _ _ _ _ S3), (steps_quiet_IsA _ _ _ _ _ S02). }
  assert (S05 : steps true material_attr s s5).
  { eapply steps_trans; [exact S02|].
    eapply steps_trans; [eapply (steps_named true); [|exact S3]; reflexivity|].
    eapply steps_trans; [eapply (steps_named true); [|exact S4]; reflexivity|].
    eapply (steps_named true); [|exact S5]; reflexivity. }
  assert (K : exists s6, steps true (fun n => String.eqb "inputs:reflectionroughness_texture" n
                                  || String.eqb "inputs:reflection_roughness_texture_influence" n) s5 s6
            /\ (empty (sdf.RoughnessMap w) = false ->
                attrValue (stage s6) p "inputs:reflectionroughness_texture"
                = Some (pxr.VAsset (getMaterialCopyPath (sdf.RoughnessMap w))))
            /\ wp False
                 (if negb (empty (sdf.RoughnessMap w)) then
                    copyPath <- copyTexture (sdf.RoughnessMap w) ;;
                    success <- call (CreateMaterialInput p "reflectionroughness_texture"
                      (pxr.Scalar "asset") (pxr.VAsset copyPath) customDefaultSdfAssetPath
                      "RoughnessMap Map" "RoughnessMap" "" "raw") ;;
                    check success "Unable to set the roughness map of the material at path ["
                          mp ;;
                    success <- call (CreateMaterialInput p
                      "reflection_roughness_texture_influence"
                      (pxr.Scalar "bool") (pxr.VBool true) customDataRoughnessTextureInfluence
                      "Roughness Map Influence" "Reflectivity" "" "raw") ;;
                    check success "Unable to set the reflectivity of the material at path ["
                          mp
                  else ret tt)
                 (fun _ s' => s' = s6) (fun _ _ => False) s5).
  { destruct (empty (sdf.RoughnessMap w)); simpl.
    - exists s5. split; [apply steps_refl|]. split; [done|]. done.
    - destruct (copyTexture_spec (R := bool * string)
                  (fun n => String.eqb "inputs:reflectionroughness_texture" n
                            || String.eqb "inputs:reflection_roughness_texture_influence" n)
                  (sdf.RoughnessMap w) s5) as (t1 & F1 & T1).
      destruct (CreateMaterialInput_spec p "reflectionroughness_texture"
                  (pxr.Scalar "asset")
                  (pxr.VAsset (getMaterialCopyPath (sdf.RoughnessMap w)))
                  customDefaultSdfAssetPath "RoughnessMap Map" "RoughnessMap"
                  "" "raw" t1) as (t2 & F2 & T2 & B2);
        [by rewrite (steps_quiet_IsA _ _ _ _ _ T1)|].
      destruct (CreateMaterialInput_spec p "reflection_roughness_texture_influence"
                  (pxr.Scalar "bool") (pxr.VBool true)
                  customDataRoughnessTextureInfluence "Roughness Map Influence"
                  "Reflectivity" "" "raw" t2) as (t3 & F3 & T3 & B3);
        [by rewrite (steps_quiet_IsA _ _ _ _ _ T2), (steps_quiet_IsA _ _ _ _ _ T1)|].
      exists t3. split; [|split].
      + eapply steps_trans; [exact T1|].
        eapply steps_trans.
        * eapply steps_mono; [done| |exact T2]. intros n Hn.
          apply String.eqb_eq in Hn. by subst n.
        * eapply steps_mono; [done| |exact T3]. intros n Hn.
          apply String.eqb_eq in Hn. by subst n.
      + intros _. eapply attr_kept; [exact T3|reflexivity|exact B2].
      + eapply wp_bind_Next; [exact F1|].
        eapply wp_bind_Next; [apply call_Return; exact F2|].
        eapply wp_bind_Next; [reflexivity|].
        eapply wp_bind_Next; [apply call_Return; exact F3|].
        done. }
  destruct K as (s6 & S6 & A6 & W6).
  eapply wp_mono; [exact W6| |done].
  intros _ s' ->. split.
  - eapply steps_trans; [exact S05|].
    eapply steps_mono; [done| |exact S6].
    intros n [Hn|Hn]%orb_true_iff; apply String.eqb_eq in Hn; by subst.
  - intros name map Hin Hmap.
    assert (Keep : forall n v, attrValue (stage s5) p n = Some v ->
              String.eqb "inputs:reflectionroughness_texture" n
              || String.eqb "inputs:reflection_roughness_texture_influence" n = false ->
              attrValue (stage s6) p n = Some v).
    { intros n v Hv Hn. eapply attr_kept; [exact S6|exact Hn|exact Hv]. }
    unfold textureInputs in Hin.
    repeat (apply elem_of_cons in Hin as [Hin|Hin]); simplify_eq.
    + apply Keep; [|reflexivity].
      eapply attr_kept; [exact S5|reflexivity|].
      eapply attr_kept; [exact S4|reflexivity|]. by apply A3.
    + apply Keep; [|reflexivity].
      eapply attr_kept; [exact S5|reflexivity|]. by apply A4.
    + apply Keep; [|reflexivity]. by apply A5.
    + by apply A6.
    + by apply elem_of_nil in Hin.
Qed.

Lemma append_empty_r (x : string) : (x ++ "")%string = x.
Proof.
  induction x as [|c x IH]; [done|].
  change (String c (x ++ "")%string = String c x). by rewrite IH.
Qed.

Lemma append_ne (x y : string) : y <> "" -> x <> (x ++ y)%string.
Proof.
  intros Hy E.
  assert (E' : (x ++ "")%string = (x ++ y)%string)
    by (by rewrite append_empty_r).
  apply (inj _) in E'. congruence.
Qed.

Lemma Looks_ne i : "/Looks" <> materialPathOf i.
Proof. unfold materialPathOf. cbn. intros [=]. Qed.

Lemma when_missing_spec {R} N p t s :
  t <> "Mesh" ->
  exists s1,
    when_ (R := R) (negb (bool_decide (is_Some (stage s !! p)))) (DefinePrim p t) s
    = Next tt s1
    /\ steps false N s s1
    /\ material_i s1 = material_i s
    /\ is_Some (stage s1 !! p)
    /\ pxr.IsA t p (stage s1)
       = match stage s !! p with
         | Some pr => String.eqb (pxr.primTypeName pr) t
         | None => true
         end
    /\ (forall q, q <> p -> stage s1 !! q = stage s !! q).
Proof.
  intros Ht. destruct (stage s !! p) as [pr|] eqn:E.
  - rewrite bool_decide_true by eauto. exists s. simpl.
    split; [done|]. split; [apply steps_refl|]. split; [done|].
    split; [by rewrite E|]. split; [|done].
    unfold pxr.IsA. by rewrite E.
  - rewrite bool_decide_false by (by intros [? ?]). simpl.
    eexists. split; [reflexivity|]. split.
    { eapply rtc_r; [eapply rtc_r; [apply rtc_refl|]|].
      - by apply step_define.
      - apply step_record. simpl. by destruct (String.eqb_spec t "Mesh"). }
    split; [done|]. simpl. split; [apply lookup_define_eq|].
    split; [by rewrite IsA_define_eq, String.eqb_refl|].
    intros q Hq. unfold pxr.DefinePrim. rewrite E. by rewrite lookup_insert_ne.
Qed.

Lemma usable_IsA (st st' : pxr.Stage) p :
  st' !! p = st !! p -> usable st' p = usable st p.
Proof. unfold usable. by intros ->. Qed.

Lemma chosenWorkflow_step (m : sdf.Material) p mp s :
  pxr.IsA "Shader" p (stage s) = true ->
  wp False
     (match sdf.PbrMaterial m with
      | Some pbr =>
          let pbrWorkflow :=
            match sdf.Workflow pbr sdf.METAL with
            | Some w => Some w
            | None => sdf.Workflow pbr sdf.SPECULAR
            end in
          match pbrWorkflow with
          | Some pbrWorkflow => ParseSdfMaterial_pbr pbrWorkflow p mp
          | None => ret tt
          end
      | None => ret tt
      end)
     (fun _ s' =>
        steps true material_attr s s'
        /\ forall w name map, chosenWorkflow m = Some w ->
             (name, map) ∈ textureInputs w -> empty map = false ->
             attrValue (stage s') p name
             = Some (pxr.VAsset (getMaterialCopyPath map)))
     (fun _ _ => False) s.
Proof.
  intros Hp. unfold chosenWorkflow.
  destruct (sdf.PbrMaterial m) as [pbr|]; cbv zeta.
  - destruct (match sdf.Workflow pbr sdf.METAL with
              | Some w => Some w
              | None => sdf.Workflow pbr sdf.SPECULAR
              end) as [w|].
    + eapply wp_mono; [by apply ParseSdfMaterial_pbr_spec| |done].
      intros _ s' [Hs Ha]. split; [done|].
      intros w' name map [= <-]. apply Ha.
    + split; [apply steps_refl|done].
  - split; [apply steps_refl|done].
Qed.

Lemma ParseSdfMaterial_spec (m : sdf.Material) s :
  material_i s < INT_MAX ->
  wp False (ParseSdfMaterial m) (fun _ _ => False)
     (fun r s' =>
        let mp := materialPathOf (material_i s) in
        r = (true, mp)
        /\ steps false material_attr s s'
        /\ material_i s' = material_i s + 1
        /\ pxr.IsA "Material" mp (stage s') = usable (stage s) mp
        /\ is_Some (stage s' !! mp)
        /\ forall w name map, chosenWorkflow m = Some w ->
             (name, map) ∈ textureInputs w -> empty map = false ->
             attrValue (stage s') (mp ++ "/Shader")%string name
             = Some (pxr.VAsset (getMaterialCopyPath map)))
     s.
Proof.
  intros Hi. unfold ParseSdfMaterial.
  eapply wp_bind_Next; [reflexivity|].
  destruct (when_missing_spec (R := bool * string) material_attr
              "/Looks" "Scope" s) as (s1 & E1 & S1 & C1 & _ & _ & L1); [done|].
  eapply wp_bind_Next; [exact E1|].
  eapply wp_bind_Next; [reflexivity|]. cbv beta.
  rewrite C1. fold (materialPathOf (material_i s)).
  set (mp := materialPathOf (material_i s)) in *.
  eapply wp_bind_Next.
  { apply Z.ltb_lt in Hi. rewrite Hi. reflexivity. }
  eapply wp_bind_Next; [reflexivity|].
  set (s2 := with_material_i (material_i s + 1) s1).
  destruct (when_missing_spec (R := bool * string) material_attr
              mp "Material" s2) as (s3 & E3 & S3 & C3 & L3 & T3 & _); [done|].
  eapply wp_bind_Next; [exact E3|].
  eapply wp_bind_Next; [reflexivity|].
  eapply wp_bind_Next; [reflexivity|].
  eapply wp_bind_Next.
  { simpl. rewrite bool_decide_true by apply lookup_define_eq. reflexivity. }
  do 7 (eapply wp_bind_Next; [reflexivity|]).
  match goal with |- wp _ _ _ _ ?s4' => set (s4 := s4') end.
  assert (S4 : steps false material_attr s3 s4) by (subst s4; steps_auto).
  assert (P4 : pxr.IsA "Shader" (mp ++ "/Shader")%string (stage s4) = true).
  { subst s4. simpl. by rewrite !IsA_author, IsA_define_eq. }
  assert (M4 : pxr.IsA "Material" mp (stage s4) = usable (stage s) mp).
  { subst s4. simpl. rewrite !IsA_author, IsA_define_ne by (by apply append_ne).
    rewrite T3. subst s2. simpl. unfold usable.
    rewrite L1 by apply not_eq_sym, Looks_ne. done. }
  assert (C4 : material_i s4 = material_i s + 1) by (subst s4; simpl; by rewrite C3).
  assert (L4 : is_Some (stage s4 !! mp)) by (by eapply steps_lookup).
  assert (S04 : steps false material_attr s s4).
  { eapply steps_trans; [exact S1|]. eapply steps_trans; [|exact S4].
    eapply steps_trans; [|exact S3]. subst s2.
    eapply rtc_r; [apply rtc_refl|]. rewrite <- C1. by apply step_incr. }
  clearbody s4. clear S4 E3 S3 C3 T3 E1 S1 L1 L3 s2 C1.
  edestruct (CreateMaterialInput_spec (mp ++ "/Shader")%string) as (s5 & E5 & S5 & _);
    [exact P4|].
  eapply wp_bind_Next; [apply call_Return; exact E5|].
  eapply wp_bind_Next; [reflexivity|].
  apply (steps_named true) in S5; [|reflexivity].
  edestruct (CreateMaterialInput_spec (mp ++ "/Shader")%string) as (s6 & E6 & S6 & _);
    [by rewrite (steps_quiet_IsA _ _ _ _ _ S5)|].
  eapply wp_bind_Next; [apply call_Return; exact E6|].
  eapply wp_bind_Next; [reflexivity|].
  apply (steps_named true) in S6; [|reflexivity].
  assert (S46 := steps_trans _ _ _ _ _ S5 S6). clear S5 S6 E5 E6.
  edestruct (CreateMaterialInput_spec (mp ++ "/Shader")%string) as (s7 & E7 & S7 & _);
    [by rewrite (steps_quiet_IsA _ _ _ _ _ S46)|].
  eapply wp_bind_Next; [apply call_Return; exact E7|].
  eapply wp_bind_Next; [reflexivity|].
  apply (steps_named true) in S7; [|reflexivity].
  assert (S47 := steps_trans _ _ _ _ _ S46 S7). clear S46 S7 E7.
  edestruct (CreateMaterialInput_spec (mp ++ "/Shader")%string) as (s8 & E8 & S8 & _);
    [by rewrite (steps_quiet_IsA _ _ _ _ _ S47)|].
  eapply wp_bind_Next; [apply call_Return; exact E8|].
  eapply wp_bind_Next; [reflexivity|].
  apply (steps_named true) in S8; [|reflexivity].
  assert (S48 := steps_trans _ _ _ _ _ S47 S8). clear S47 S8 E8.
  apply wp_bind.
  eapply wp_mono; [apply chosenWorkflow_step| |done].
  { by rewrite (steps_quiet_IsA _ _ _ _ _ S48). }
  intros _ s9 [S9 A9]. apply wp_return. cbv zeta.
  assert (S49 := steps_trans _ _ _ _ _ S48 S9).
  split; [done|]. split.
  { eapply steps_trans; [exact S04|]. by eapply steps_mono; [| |exact S49]. }
  split; [by rewrite (steps_quiet_counter _ _ _ S49)|].
  split; [by rewrite (steps_quiet_IsA _ _ _ _ _ S49)|].
  split; [|exact A9].
  by eapply steps_lookup.
Qed.

End Material.

(** ** The conversion call, step by step *)

Section Conversion.

Context `{GzCommon}.

Implicit Types (s : State).

Lemma ParseSdfMaterial_overflow (m : sdf.Material) s :
  ~ material_i s < INT_MAX -> ParseSdfMaterial m s = Undefined.
Proof.
  intros Hi. unfold ParseSdfMaterial.
  destruct (when_missing_spec (R := bool * string) material_attr
              "/Looks" "Scope" s) as (s1 & E1 & _ & C1 & _); [done|].
  unfold bind at 1. simpl. unfold bind at 1. rewrite E1.
  unfold bind at 1. simpl. unfold bind at 1. rewrite C1.
  apply Z.ltb_nlt in Hi. by rewrite Hi.
Qed.

Lemma UpdateMesh_material_total (ignMesh : common.Mesh) (subMesh : common.SubMesh)
    (primName : string) (material : common.Material) s :
  common.MaterialIndex subMesh <> -1 ->
  common.MaterialByIndex ignMesh (common.MaterialIndex subMesh) = Some material ->
  material_i s < INT_MAX ->
  let mp := materialPathOf (material_i s) in
  exists s1,
    steps false material_attr s s1
    /\ material_i s1 = material_i s + 1
    /\ is_Some (stage s1 !! mp)
    /\ (forall w name map, chosenWorkflow (convert material) = Some w ->
          (name, map) ∈ textureInputs w -> empty map = false ->
          attrValue (stage s1) (mp ++ "/Shader")%string name
          = Some (pxr.VAsset (getMaterialCopyPath map)))
    /\ UpdateMesh_material ignMesh subMesh primName s
       = Next tt (if bindCondition (convert material) && usable (stage s) mp
                  then record (Bind primName mp)
                         (with_stage (alter (pxr.bindMaterial mp) primName) s1)
                  else s1).
Proof.
  intros Hidx Hmat Hi mp. unfold UpdateMesh_material.
  apply Z.eqb_neq in Hidx. rewrite Hidx, Hmat. simpl.
  pose proof (ParseSdfMaterial_spec (convert material) s Hi) as Hp.
  unfold wp in Hp.
  destruct (ParseSdfMaterial (convert material) s) as [|r s1|] eqn:E; [done| |done].
  cbv zeta in Hp. destruct Hp as (-> & S1 & C1 & M1 & L1 & A1).
  exists s1. do 4 (split; [done|]).
  unfold bind at 1. unfold call. rewrite E.
  unfold bind, gets, GetPrimAtPath, gets. simpl.
  rewrite bool_decide_true by done. simpl.
  subst mp. rewrite M1. fold (bindCondition (convert material)).
  destruct (bindCondition (convert material)); simpl; [|done].
  by destruct (usable (stage s) (materialPathOf (material_i s))).
Qed.

Lemma material_events_conversion (evs : list Event) :
  forallb material_event evs = true -> forallb conversion_event evs = true.
Proof.
  induction evs as [|e evs IH]; [done|]. simpl.
  intros [He Hevs]%andb_true_iff. rewrite IH by done.
  by destruct e.
Qed.

Lemma material_events_quiet (evs : list Event) :
  forallb material_event evs = true ->
  meshDefines evs = [] /\ binds evs = [] /\ logged evs = [].
Proof.
  induction evs as [|e evs IH]; [done|]. simpl.
  intros [He Hevs]%andb_true_iff. destruct (IH Hevs) as (I1 & I2 & I3).
  unfold meshDefines, binds, logged in *.
  destruct e; simpl in *; rewrite ?I1, ?I2, ?I3; try done.
  by destruct (String.eqb typeName "Mesh").
Qed.

Lemma emits_refl s : emits s s [].
Proof. exists []. rewrite app_nil_r. repeat split; (done || lia). Qed.

Lemma emits_trans s1 s2 s3 d1 d2 :
  emits s1 s2 d1 -> emits s2 s3 d2 -> emits s1 s3 (d1 ++ d2).
Proof.
  intros (e1 & T1 & F1 & D1 & C1 & P1 & I1) (e2 & T2 & F2 & D2 & C2 & P2 & I2).
  exists (e1 ++ e2). split; [by rewrite T2, T1, app_assoc|].
  split; [by rewrite forallb_app, F1, F2|].
  split; [unfold meshDefines in *; by rewrite omap_app, D1, D2|].
  split; [lia|]. split; [auto|].
  apply Forall_app. split; [|done].
  eapply Forall_impl; [exact I1|]. auto.
Qed.

Lemma emits_steps q N s s' : steps q N s s' -> emits s s' [].
Proof.
  intros Hs. destruct (steps_trace _ _ _ _ Hs) as (evs & T & F).
  exists evs. split; [done|]. split; [by apply material_events_conversion|].
  split; [by destruct (material_events_quiet _ F)|].
  split; [by eapply steps_counter|]. split; [|done].
  intros p. by eapply steps_lookup.
Qed.

Lemma emits_record e s :
  conversion_event e = true -> meshDefines [e] = [] ->
  emits s (record e s) [].
Proof.
  intros He Hd. exists [e]. simpl. rewrite He.
  repeat split; (done || lia).
Qed.

Lemma emits_alter (f : pxr.Prim -> pxr.Prim) p s :
  emits s (with_stage (alter f p) s) [].
Proof.
  exists []. simpl. rewrite app_nil_r. repeat split; try (done || lia).
  intros q. by apply lookup_alter_is_Some.
Qed.

Lemma UpdateMesh_material_spec (ignMesh : common.Mesh) (subMesh : common.SubMesh)
    (primName : string) s :
  wp True (UpdateMesh_material ignMesh subMesh primName)
     (fun _ s' =>
        emits s s' []
        /\ forall p name, material_attr name = false ->
             attrValue (stage s') p name = attrValue (stage s) p name)
     (fun _ _ => False) s.
Proof.
  destruct (decide (common.MaterialIndex subMesh = -1)) as [E|Hidx].
  { unfold UpdateMesh_material, wp. rewrite E. simpl. split; [apply emits_refl|done]. }
  destruct (common.MaterialByIndex ignMesh (common.MaterialIndex subMesh))
    as [material|] eqn:Hmat.
  2: { unfold UpdateMesh_material, wp. apply Z.eqb_neq in Hidx.
       by rewrite Hidx, Hmat. }
  destruct (decide (material_i s < INT_MAX)) as [Hi|Hi].
  - destruct (UpdateMesh_material_total ignMesh subMesh primName material s
                Hidx Hmat Hi) as (s1 & S1 & C1 & _ & _ & E).
    unfold wp. rewrite E.
    pose proof (emits_steps _ _ _ _ S1) as E1.
    destruct (bindCondition (convert material) && usable _ _).
    + split.
      * eapply (emits_trans s s1 _ [] []); [exact E1|].
        eapply (emits_trans _ _ _ [] []); [apply emits_alter|].
        by apply emits_record.
      * intros p name Hn. simpl. rewrite attrValue_bind.
        by eapply steps_attr.
    + split; [done|]. intros p name Hn. by eapply steps_attr.
  - unfold UpdateMesh_material, wp. apply Z.eqb_neq in Hidx.
    rewrite Hidx, Hmat. simpl. unfold bind at 1. unfold call.
    by rewrite ParseSdfMaterial_overflow.
Qed.

Lemma UpdateMesh_submesh_spec (_meshMsg : msgs.MeshGeom) (_path : string)
    (ignMesh : common.Mesh) (flag : bool) (i : nat) s :
  wp True (UpdateMesh_submesh _meshMsg _path ignMesh flag i)
     (fun _ s' =>
        exists subMesh,
          common.SubMeshByIndex ignMesh i = Some subMesh
          /\ if kept _path ignMesh flag subMesh then
               exists verticesPerFace numFaces,
                 faces (common.SubMeshPrimitiveType subMesh)
                       (common.IndexCount subMesh)
                 = Some (verticesPerFace, numFaces)
                 /\ emits s s' [primNameOf _path subMesh]
                 /\ attrValue (stage s') (primNameOf _path subMesh)
                              "faceVertexCounts"
                    = Some (pxr.VIntArray
                              (replicate numFaces (Z.of_nat verticesPerFace)))
             else s' = s)
     (fun r s' =>
        r = false /\ stage s' = stage s /\ emits s s' []
        /\ forall subMesh,
             common.SubMeshByIndex ignMesh i = Some subMesh ->
             kept _path ignMesh flag subMesh = true
             /\ supported subMesh = false)
     s.
Proof.
  unfold UpdateMesh_submesh.
  destruct (common.SubMeshByIndex ignMesh i) as [subMesh|] eqn:Hsub.
  2: { unfold wp. simpl. split; [done|]. split; [done|]. split; [|done].
       by apply emits_record. }
  fold (kept _path ignMesh flag subMesh).
  unfold kept.
  destruct (flag && negb (common.SubMeshCount ignMesh =? 1)%nat
            && negb (pathNamesSubMesh _path subMesh)) eqn:Hk; simpl.
  { unfold wp. simpl. exists subMesh. split; [done|]. unfold kept. by rewrite Hk. }
  destruct (faces (common.SubMeshPrimitiveType subMesh) (common.IndexCount subMesh))
    as [[verticesPerFace numFaces]|] eqn:Hf.
  2: { unfold wp. simpl. split; [done|]. split; [done|].
       split; [by apply emits_record|].
       intros ? [= <-]. unfold kept, supported. rewrite Hk, Hf. split; [done|].
       apply bool_decide_false. by intros [? ?]. }
  do 9 (eapply wp_bind_Next; [reflexivity|]).
  match goal with |- wp _ _ _ _ ?sa' => set (sa := sa') end.
  set (pn := primNameOf _path subMesh) in *.
  assert (Ea : emits s sa [pn]).
  { exists [Define pn "Mesh"]. subst sa. simpl.
    split; [done|]. split; [done|]. split; [done|]. split; [lia|]. split.
    - intros p Hp. rewrite !lookup_alter_is_Some.
      by apply lookup_define_is_Some.
    - constructor; [|done]. rewrite !lookup_alter_is_Some.
      apply lookup_define_eq. }
  assert (Aa : attrValue (stage sa) pn "faceVertexCounts"
               = Some (pxr.VIntArray (replicate numFaces (Z.of_nat verticesPerFace)))).
  { subst sa. simpl. rewrite !attrValue_author_ne by done.
    apply attrValue_author_eq; [|done].
    rewrite !lookup_alter_is_Some. apply lookup_define_eq. }
  clearbody sa. apply wp_bind.
  eapply wp_mono; [apply UpdateMesh_material_spec| |done].
  intros _ sm [Em Am]. unfold wp, author, modify. cbv beta iota.
  exists subMesh. split; [done|]. unfold kept. rewrite Hk. cbv beta iota delta [negb].
  exists verticesPerFace, numFaces. split; [done|]. split.
  - apply (emits_trans s sa _ [pn] []); [exact Ea|].
    apply (emits_trans sa sm _ [] []); [exact Em|apply emits_alter].
  - cbn [stage with_stage]. rewrite attrValue_author_ne by done. by rewrite Am.
Qed.

Lemma isUSDPathInSubMeshName_loop_spec {R} (ignMesh : common.Mesh)
    (_path : string) (n i : nat) s :
  (i + n = common.SubMeshCount ignMesh)%nat ->
  isUSDPathInSubMeshName_loop (R := R) ignMesh _path n i s
  = Next (negb (common.SubMeshCount ignMesh =? 1)%nat
          && existsb (pathNamesSubMesh _path) (drop i (common.SubMeshes ignMesh)))
         s.
Proof.
  revert i. induction n as [|n IH]; intros i Hn.
  - simpl. unfold common.SubMeshCount in Hn.
    rewrite drop_ge by lia. by rewrite andb_false_r.
  - unfold common.SubMeshCount in Hn.
    destruct (lookup_lt_is_Some_2 (common.SubMeshes ignMesh) i) as [subMesh Hsub];
      [lia|].
    rewrite (drop_S _ _ _ Hsub).
    cbn [isUSDPathInSubMeshName_loop existsb].
    unfold common.SubMeshByIndex. rewrite Hsub.
    destruct (common.SubMeshCount ignMesh =? 1)%nat eqn:E1; cbn [negb andb].
    + by rewrite IH by (unfold common.SubMeshCount; lia).
    + destruct (pathNamesSubMesh _path subMesh); [done|].
      by rewrite IH by (unfold common.SubMeshCount; lia).
Qed.

Lemma UpdateMesh_loop_spec (_meshMsg : msgs.MeshGeom) (_path : string)
    (ignMesh : common.Mesh) (flag : bool) (n i : nat) s :
  (i + n = common.SubMeshCount ignMesh)%nat ->
  wp True (UpdateMesh_loop _meshMsg _path ignMesh flag n i)
     (fun _ s' =>
        let ks := List.filter (kept _path ignMesh flag)
                              (drop i (common.SubMeshes ignMesh)) in
        emits s s' (primNameOf _path <$> ks) /\ forallb supported ks = true)
     (fun r s' => r = false /\ exists defs, emits s s' defs)
     s.
Proof.
  revert i s. induction n as [|n IH]; intros i s Hn.
  - unfold wp. simpl. unfold common.SubMeshCount in Hn.
    rewrite drop_ge by lia. simpl. split; [apply emits_refl|done].
  - cbn [UpdateMesh_loop]. apply wp_bind.
    eapply wp_mono; [apply UpdateMesh_submesh_spec| |].
    + intros _ s1 (subMesh & Hsub & Hk).
      unfold common.SubMeshByIndex in Hsub. rewrite (drop_S _ _ _ Hsub).
      cbn [List.filter].
      eapply wp_mono; [apply (IH (S i) s1); lia| |].
      * intros _ s' [Es Fs]. cbv zeta in *.
        destruct (kept _path ignMesh flag subMesh).
        -- destruct Hk as (vpf & nf & Hf & E1 & _). split.
           ++ by apply (emits_trans s s1 s' [primNameOf _path subMesh]).
           ++ cbn [forallb]. rewrite Fs, andb_true_r. unfold supported.
              rewrite Hf. apply bool_decide_true. eauto.
        -- subst s1. done.
      * intros r s' (-> & defs & Es). split; [done|].
        destruct (kept _path ignMesh flag subMesh).
        -- destruct Hk as (vpf & nf & Hf & E1 & _). eexists.
           by eapply emits_trans.
        -- subst s1. eauto.
    + intros r s' (-> & _ & Es & _). eauto.
Qed.

Lemma kept_selected (_path : string) (ignMesh : common.Mesh) :
  List.filter
    (kept _path ignMesh
       (negb (common.SubMeshCount ignMesh =? 1)%nat
        && existsb (pathNamesSubMesh _path) (common.SubMeshes ignMesh)))
    (common.SubMeshes ignMesh)
  = Spec.selected _path ignMesh.
Proof.
  unfold Spec.selected, kept, common.SubMeshCount.
  destruct (length (common.SubMeshes ignMesh) =? 1)%nat; cbn [negb andb].
  { induction (common.SubMeshes ignMesh) as [|x l IH]; [done|].
    simpl. by rewrite IH. }
  destruct (existsb (pathNamesSubMesh _path) (common.SubMeshes ignMesh));
    cbn [negb andb].
  - induction (common.SubMeshes ignMesh) as [|x l IH]; [done|].
    simpl. rewrite IH. by destruct (pathNamesSubMesh _path x).
  - induction (common.SubMeshes ignMesh) as [|x l IH]; [done|].
    simpl. by rewrite IH.
Qed.

Lemma UpdateMesh_convert_spec (_meshMsg : msgs.MeshGeom) (_path fullname : string) s :
  wp True (UpdateMesh_convert _meshMsg _path fullname) (fun _ _ => False)
     (fun b s' =>
        exists ignMesh post,
          Load_from (world s) fullname = Some ignMesh
          /\ trace s' = trace s ++ LoadMesh fullname (Some ignMesh) :: post
          /\ forallb conversion_event post = true
          /\ material_i s <= material_i s'
          /\ (forall p, is_Some (stage s !! p) -> is_Some (stage s' !! p))
          /\ Forall (fun p => is_Some (stage s' !! p)) (meshDefines post)
          /\ (b = true ->
              meshDefines post = primNameOf _path <$> Spec.selected _path ignMesh
              /\ forallb supported (Spec.selected _path ignMesh) = true))
     s.
Proof.
  unfold UpdateMesh_convert.
  eapply wp_bind_Next; [reflexivity|].
  destruct (Load_from (world s) fullname) as [ignMesh|] eqn:El; [|done].
  eapply wp_bind_Next; [by apply isUSDPathInSubMeshName_loop_spec|].
  rewrite drop_0. apply wp_bind.
  eapply wp_mono; [by apply UpdateMesh_loop_spec| |].
  - intros _ s' [(post & T & F & D & C & P & I) Hs]. apply wp_return.
    rewrite drop_0, kept_selected in *.
    exists ignMesh, post. split; [done|]. split.
    { rewrite T. simpl. by rewrite <- app_assoc. }
    split; [done|]. split; [simpl in C; lia|]. split; [exact P|].
    split; [by rewrite D|]. done.
  - intros r s' (-> & defs & post & T & F & D & C & P & I).
    exists ignMesh, post. split; [done|]. split.
    { rewrite T. simpl. by rewrite <- app_assoc. }
    split; [done|]. split; [simpl in C; lia|]. split; [exact P|].
    split; [by rewrite D|]. done.
Qed.

Lemma registerAll_trace (paths : list string) s :
  trace (registerAll paths s) = trace s ++ (AddFilePaths <$> paths)
  /\ material_i (registerAll paths s) = material_i s
  /\ stage (registerAll paths s) = stage s.
Proof.
  unfold registerAll. revert s. induction paths as [|p paths IH]; intros s.
  - simpl. by rewrite app_nil_r.
  - cbn [foldl fmap list_fmap]. destruct (IH (record (AddFilePaths p)
      (with_world (AddFilePaths_to p (world s)) s))) as (T & C & S).
    rewrite T, C, S. simpl. by rewrite <- app_assoc.
Qed.

Lemma registerAll_resolved (paths : list string) s : resolved s (registerAll paths s).
Proof.
  destruct (registerAll_trace paths s) as (T & C & S).
  exists (AddFilePaths <$> paths). repeat split; try done.
  clear. induction paths; [done|]. simpl. done.
Qed.

Lemma nestedPaths_spec {R} (fullname : string) (tokens : list string) s :
  nestedPaths (R := R) fullname tokens s
  = Next (default fullname (last (deeper fullname (Str.lowercase <$> tokens))))
         (registerAll (deeper fullname (Str.lowercase <$> tokens)) s).
Proof.
  revert fullname s. induction tokens as [|t tokens IH]; intros fullname s; [done|].
  cbn [nestedPaths fmap list_fmap deeper]. unfold bind at 1.
  unfold AddFilePaths_, modify. rewrite IH. f_equal.
  rewrite last_cons. by destruct (last _).
Qed.

Lemma remoteFullname_spec {R} (home path : string) s
    (server versionServer owner type modelName modelVersion : string)
    (rest : list string) :
  split path "/" = server :: versionServer :: owner :: type :: modelName
                   :: modelVersion :: rest ->
  let base :=
    joinPathsV home [".gz"; "fuel"; server; Str.lowercase owner;
                     Str.lowercase type; Str.lowercase modelName;
                     Str.lowercase modelVersion] in
  let paths := base :: deeper base (Str.lowercase <$> drop 1 rest) in
  remoteFullname (R := R) home path s
  = Next (default base (last paths)) (registerAll paths s).
Proof.
  intros Hs base paths. unfold remoteFullname. rewrite Hs.
  do 6 (unfold bind at 1; cbn [at_ lookup list_lookup ret]).
  unfold bind at 1. unfold AddFilePaths_, modify.
  change (drop 7 _) with (drop 1 rest).
  rewrite nestedPaths_spec. subst paths. cbn [registerAll foldl].
  f_equal. rewrite last_cons. by destruct (last _).
Qed.

Lemma resolved_refl s : resolved s s.
Proof. exists []. by rewrite app_nil_r. Qed.

Lemma UpdateMesh_resolve_spec (_meshMsg : msgs.MeshGeom) s :
  wp True (UpdateMesh_resolve _meshMsg)
     (fun _ s1 => resolved s s1)
     (fun b s1 => b = false /\ resolved s s1) s.
Proof.
  unfold UpdateMesh_resolve. eapply wp_bind_Next; [reflexivity|].
  destruct (match getenv (world s) "HOME" with
            | Some v => if negb false && String.eqb v "" then None else Some v
            | None => None
            end) as [home|].
  2: { unfold wp. simpl. split; [done|]. resolved_auto. }
  destruct (String.eqb (URI_Scheme (msgs.filename _meshMsg)) "https"
            || String.eqb (URI_Scheme (msgs.filename _meshMsg)) "http").
  - destruct (split (URI_Path (msgs.filename _meshMsg)) "/")
      as [|t0 [|t1 [|t2 [|t3 [|t4 [|t5 rest]]]]]] eqn:Hs;
      try (unfold wp, remoteFullname; rewrite Hs; done).
    unfold wp. erewrite remoteFullname_spec by exact Hs.
    apply registerAll_resolved.
  - unfold wp, localFullname, bind, findFile, bind. simpl.
    destruct (empty (findFile_in (world s) (msgs.filename _meshMsg))); simpl.
    + destruct (empty (findFile_in (world s) (basename (msgs.filename _meshMsg))));
        simpl.
      * split; [done|]. resolved_auto.
      * resolved_auto.
    + resolved_auto.
Qed.

Lemma resolution_events_quiet (evs : list Event) :
  forallb resolution_event evs = true ->
  meshDefines evs = [] /\ loads evs = [] /\ binds evs = [].
Proof.
  induction evs as [|e evs IH]; [done|]. simpl.
  intros [He Hevs]%andb_true_iff. destruct (IH Hevs) as (I1 & I2 & I3).
  unfold meshDefines, loads, binds in *.
  destruct e; simpl in *; rewrite ?I1, ?I2, ?I3; done.
Qed.

Lemma conversion_events_quiet (evs : list Event) :
  forallb conversion_event evs = true -> loads evs = [] /\ registered evs = [].
Proof.
  induction evs as [|e evs IH]; [done|]. simpl.
  intros [He Hevs]%andb_true_iff. destruct (IH Hevs) as (I1 & I2).
  unfold loads, registered in *.
  destruct e; simpl in *; rewrite ?I1, ?I2; done.
Qed.

(** What every finished call of [UpdateMesh] did. *)
Lemma UpdateMesh_spec (_meshMsg : msgs.MeshGeom) (_path : string) s b s' :
  UpdateMesh _meshMsg _path s = Done b s' ->
  exists evs,
    trace s' = trace s ++ evs
    /\ material_i s <= material_i s'
    /\ (forall p, is_Some (stage s !! p) -> is_Some (stage s' !! p))
    /\ Forall (fun p => is_Some (stage s' !! p)) (meshDefines evs)
    /\ (b = true ->
        exists ignMesh,
          loads evs = [Some ignMesh]
          /\ meshDefines evs = primNameOf _path <$> Spec.selected _path ignMesh
          /\ forallb supported (Spec.selected _path ignMesh) = true).
Proof.
  unfold UpdateMesh. intros Hrun. pattern b, s'.
  eapply wp_run; [|exact Hrun]. clear Hrun b s'.
  unfold UpdateMesh_body. apply wp_bind.
  eapply wp_mono; [apply UpdateMesh_resolve_spec| |].
  - intros fullname s1 (pre & T1 & F1 & C1 & S1).
    eapply wp_mono; [apply UpdateMesh_convert_spec|done|].
    intros r s2 (ignMesh & post & _ & T2 & F2 & C2 & P2 & I2 & Hb).
    exists (pre ++ LoadMesh fullname (Some ignMesh) :: post).
    destruct (resolution_events_quiet _ F1) as (Q1 & Q2 & _).
    destruct (conversion_events_quiet _ F2) as (Q3 & _).
    assert (Hd : meshDefines (pre ++ LoadMesh fullname (Some ignMesh) :: post)
                 = meshDefines post).
    { unfold meshDefines in *. by rewrite omap_app, Q1. }
    split; [by rewrite T2, T1, <- app_assoc|]. split; [lia|].
    split; [by rewrite <- S1|]. split; [by rewrite Hd|].
    intros Hr. destruct (Hb Hr) as [D S]. exists ignMesh.
    split; [|by rewrite Hd].
    unfold loads in *. rewrite omap_app, Q2. simpl. f_equal. exact Q3.
  - intros r s1 (-> & pre & T1 & F1 & C1 & S1). exists pre.
    destruct (resolution_events_quiet _ F1) as (Q1 & _).
    split; [done|]. split; [lia|]. split; [by rewrite S1|].
    split; [by rewrite Q1|done].
Qed.

End Conversion.

(** ** Names and bindings *)

Section Names.

Context `{GzCommon}.

Lemma to_int_nonnil (z : Z) :
  Z.to_int z <> Decimal.Pos Decimal.Nil /\ Z.to_int z <> Decimal.Neg Decimal.Nil.
Proof.
  split; intros E; pose proof (DecimalZ.of_to z) as Hz; rewrite E in Hz;
    simpl in Hz; subst z; discriminate E.
Qed.

Lemma to_string_inj (i j : Z) : Str.to_string i = Str.to_string j -> i = j.
Proof.
  unfold Str.to_string. intros E.
  apply (f_equal NilZero.int_of_string) in E.
  destruct (to_int_nonnil i), (to_int_nonnil j).
  rewrite !NilZero.isi in E by done.
  injection E as E. by rewrite <- (DecimalZ.of_to i), <- (DecimalZ.of_to j), E.
Qed.

Lemma materialPathOf_inj (i j : Z) : materialPathOf i = materialPathOf j -> i = j.
Proof. unfold materialPathOf. intros E%(inj _). by apply to_string_inj. Qed.

Lemma bindingOf_author p n ty f q (st : pxr.Stage) :
  bindingOf (alter (pxr.authorAttribute n ty f) q st) p = bindingOf st p.
Proof.
  unfold bindingOf. rewrite lookup_alter. case_decide; [subst|done].
  by destruct (st !! p).
Qed.

Lemma bindingOf_define p q t (st : pxr.Stage) :
  bindingOf (pxr.DefinePrim q t st) p = bindingOf st p.
Proof.
  unfold bindingOf, pxr.DefinePrim. destruct (decide (q = p)) as [->|Hne].
  - destruct (st !! p) eqn:E; by rewrite lookup_insert_eq.
  - destruct (st !! q); by rewrite lookup_insert_ne.
Qed.

Lemma bindingOf_bind p m (st : pxr.Stage) :
  is_Some (st !! p) -> bindingOf (alter (pxr.bindMaterial m) p st) p = Some m.
Proof.
  intros [pr Hp]. unfold bindingOf. rewrite lookup_alter, decide_True by done.
  by rewrite Hp.
Qed.

Lemma steps_binding q N p (s s' : State) :
  steps q N s s' -> bindingOf (stage s') p = bindingOf (stage s) p.
Proof.
  induction 1 as [s|s1 s2 s3 H12 _ IH]; [done|].
  rewrite IH. destruct H12; simpl; try done.
  - apply bindingOf_author.
  - apply bindingOf_define.
Qed.

End Names.

(** * The claims of the specification *)

Section Claims.

Context `{GzCommon}.

Implicit Types (s : State).

(** C1, amended.  Whenever the conversion call succeeds, the geometry
    primitives it emitted are, in order, those of the selected submeshes of
    the asset it loaded, each under the path derived from target-path +
    "/" + submesh-name: the one submesh of a single-submesh asset, whatever
    the path; of several submeshes, exactly those whose lower-cased name is
    part of the lower-cased path when there is such a submesh, and every
    submesh otherwise. *)
Theorem submesh_selection (_meshMsg : msgs.MeshGeom) (_path : string) s s' :
  UpdateMesh _meshMsg _path s = Done true s' ->
  exists evs ignMesh,
    trace s' = trace s ++ evs
    /\ loads evs = [Some ignMesh]
    /\ meshDefines evs = primNameOf _path <$> Spec.selected _path ignMesh
    /\ Forall (fun p => is_Some (stage s' !! p)) (meshDefines evs)
    /\ (forall subMesh, common.SubMeshes ignMesh = [subMesh] ->
        meshDefines evs = [primNameOf _path subMesh]).
Proof.
  intros Hrun.
  destruct (UpdateMesh_spec _ _ _ _ _ Hrun) as (evs & T & _ & _ & I & Hb).
  destruct (Hb eq_refl) as (ignMesh & L & D & _).
  exists evs, ignMesh. do 4 (split; [done|]).
  intros subMesh Hs. rewrite D. unfold Spec.selected. by rewrite Hs.
Qed.

(** C2, amended.  A submesh the second loop reaches and does not skip:
    when its primitive type is Points, Lines or Triangles and its material,
    if it declares one, can be written, the iteration completes and the
    face-vertex-count array of its primitive has indexCount /
    verticesPerFace elements, all equal to verticesPerFace (1, 2 or 3);
    when its type is line-strip, triangle-fan or triangle-strip, the
    iteration returns false with the stage as it was, so no primitive is
    made for it.  A call that loaded an asset with such a submesh among
    the selected ones returns false, and the geometry primitives it defined
    before, like every primitive of the stage it was given, remain. *)
Theorem face_vertex_counts (_meshMsg : msgs.MeshGeom) (_path : string)
    (ignMesh : common.Mesh) (flag : bool) (i : nat) (subMesh : common.SubMesh) s :
  common.SubMeshByIndex ignMesh i = Some subMesh ->
  kept _path ignMesh flag subMesh = true ->
  (forall verticesPerFace,
     Spec.verticesPerFace (common.SubMeshPrimitiveType subMesh)
     = Some verticesPerFace ->
     common.MaterialIndex subMesh = -1
     \/ (is_Some (common.MaterialByIndex ignMesh (common.MaterialIndex subMesh))
         /\ material_i s < INT_MAX) ->
     exists s' counts,
       UpdateMesh_submesh _meshMsg _path ignMesh flag i s = Next tt s'
       /\ attrValue (stage s') (primNameOf _path subMesh) "faceVertexCounts"
          = Some (pxr.VIntArray counts)
       /\ length counts = (common.IndexCount subMesh / verticesPerFace)%nat
       /\ Forall (fun c => c = Z.of_nat verticesPerFace) counts)
  /\ (Spec.verticesPerFace (common.SubMeshPrimitiveType subMesh) = None ->
      exists text,
        UpdateMesh_submesh _meshMsg _path ignMesh flag i s
        = Return false (record (Log Err text) s))
  /\ (forall s0 b s' evs,
        UpdateMesh _meshMsg _path s0 = Done b s' ->
        trace s' = trace s0 ++ evs ->
        loads evs = [Some ignMesh] ->
        In subMesh (Spec.selected _path ignMesh) ->
        Spec.verticesPerFace (common.SubMeshPrimitiveType subMesh) = None ->
        b = false
        /\ Forall (fun p => is_Some (stage s' !! p)) (meshDefines evs)
        /\ (forall p, is_Some (stage s0 !! p) -> is_Some (stage s' !! p))).
Proof.
  intros Hsub Hk. split; [|split].
  - intros vpf Hv Hm.
    assert (Hf : faces (common.SubMeshPrimitiveType subMesh)
                       (common.IndexCount subMesh)
                 = Some (vpf, (common.IndexCount subMesh / vpf)%nat)).
    { destruct (common.SubMeshPrimitiveType subMesh);
        cbn [Spec.verticesPerFace faces] in *; simplify_eq;
        by rewrite ?Nat.div_1_r. }
    assert (Hn : exists s', UpdateMesh_submesh _meshMsg _path ignMesh flag i s
                            = Next tt s').
    { unfold UpdateMesh_submesh. rewrite Hsub.
      unfold kept in Hk. apply negb_true_iff in Hk. rewrite Hk, Hf.
      do 9 (unfold bind at 1; cbn [DefinePrim author modify]).
      match goal with |- context [bind (UpdateMesh_material _ _ ?pn) _ ?sa] =>
        assert (Hsa : exists s1, UpdateMesh_material ignMesh subMesh pn sa
                                 = Next tt s1)
      end.
      { destruct Hm as [Hm|[[material Hm] Hi]].
        - unfold UpdateMesh_material. rewrite Hm. simpl. eauto.
        - destruct (decide (common.MaterialIndex subMesh = -1)) as [E|Hidx].
          { unfold UpdateMesh_material. rewrite E. simpl. eauto. }
          edestruct (UpdateMesh_material_total ignMesh subMesh) as (s1 & _ & _ & _ & _ & E);
            [exact Hidx|exact Hm| |rewrite E; eauto]. exact Hi. }
      destruct Hsa as [s1 Hsa]. unfold bind at 1. rewrite Hsa. eauto. }
    destruct Hn as [s' Hn]. exists s'.
    pose proof (UpdateMesh_submesh_spec _meshMsg _path ignMesh flag i s) as Hs.
    unfold wp in Hs. rewrite Hn in Hs.
    destruct Hs as (subMesh' & Hsub' & Hs). simplify_eq.
    rewrite Hk in Hs. destruct Hs as (vpf' & nf & Hf' & _ & Ha). simplify_eq.
    eexists. split; [done|]. split; [exact Ha|].
    split; [apply length_replicate|]. apply Forall_forall.
    intros c Hc%elem_of_replicate. by destruct Hc.
  - intros Hv. unfold UpdateMesh_submesh. rewrite Hsub.
    unfold kept in Hk. apply negb_true_iff in Hk. rewrite Hk.
    destruct (common.SubMeshPrimitiveType subMesh); simplify_eq/=; eauto.
  - intros s0 b s' evs Hrun T L Hin Hv.
    destruct (UpdateMesh_spec _ _ _ _ _ Hrun) as (evs' & T' & _ & P & I & Hb).
    rewrite T in T'. apply app_inv_head in T'. subst evs'.
    split; [|done]. destruct b; [|done]. exfalso.
    destruct (Hb eq_refl) as (ignMesh' & L' & _ & S).
    rewrite L in L'. simplify_eq.
    rewrite forallb_forall in S. specialize (S _ Hin).
    unfold supported in S. apply bool_decide_eq_true in S as [x Hx].
    destruct (common.SubMeshPrimitiveType subMesh); simplify_eq/=.
Qed.


(** C4.  Every material primitive is made under the name
    Material_<counter>, the counter being the one of the process: each
    material written raises it by exactly one, whatever the material and
    whatever the stage holds; distinct counter values give distinct names;
    no conversion call lowers the counter; and two submeshes with the same
    material index give two material primitives, named by two successive
    counter values. *)
Theorem material_naming :
  (forall (m : sdf.Material) s,
     material_i s < INT_MAX ->
     exists s',
       run (ParseSdfMaterial m) s = Done (true, materialPathOf (material_i s)) s'
       /\ materialPathOf (material_i s)
          = ("/Looks/Material_" ++ Str.to_string (material_i s))%string
       /\ material_i s' = material_i s + 1
       /\ is_Some (stage s' !! materialPathOf (material_i s)))
  /\ (forall i j : Z, materialPathOf i = materialPathOf j -> i = j)
  /\ (forall (_meshMsg : msgs.MeshGeom) (_path : string) s b s',
        UpdateMesh _meshMsg _path s = Done b s' -> material_i s <= material_i s')
  /\ (forall (ignMesh : common.Mesh) (first second : common.SubMesh)
             (firstName secondName : string) (material : common.Material) s,
        common.MaterialIndex first <> -1 ->
        common.MaterialIndex second = common.MaterialIndex first ->
        common.MaterialByIndex ignMesh (common.MaterialIndex first) = Some material ->
        material_i s + 1 < INT_MAX ->
        exists s1 s2,
          UpdateMesh_material ignMesh first firstName s = Next tt s1
          /\ UpdateMesh_material ignMesh second secondName s1 = Next tt s2
          /\ material_i s2 = material_i s + 2
          /\ is_Some (stage s2 !! materialPathOf (material_i s))
          /\ is_Some (stage s2 !! materialPathOf (material_i s + 1))
          /\ materialPathOf (material_i s) <> materialPathOf (material_i s + 1)).
Proof.
  split; [|split; [|split]].
  - intros m s Hi. pose proof (ParseSdfMaterial_spec m s Hi) as Hp.
    unfold wp in Hp. unfold run.
    destruct (ParseSdfMaterial m s) as [|r s'|]; [done| |done].
    cbv zeta in Hp. destruct Hp as (-> & _ & C & _ & L & _). by exists s'.
  - apply materialPathOf_inj.
  - intros _meshMsg _path s b s' Hrun.
    by destruct (UpdateMesh_spec _ _ _ _ _ Hrun) as (evs & _ & C & _).
  - intros ignMesh first second firstName secondName material s Hidx Hsame Hmat Hi.
    destruct (UpdateMesh_material_total ignMesh first firstName material s
                Hidx Hmat) as (t1 & S1 & C1 & L1 & _ & E1); [lia|].
    set (s1 := if bindCondition (convert material) && usable (stage s) _
               then _ else t1) in E1.
    assert (C1' : material_i s1 = material_i s + 1)
      by (subst s1; by destruct (_ && _)).
    assert (L1' : is_Some (stage s1 !! materialPathOf (material_i s))).
    { subst s1. destruct (_ && _); [|done]. simpl. by apply lookup_alter_is_Some. }
    clearbody s1.
    destruct (UpdateMesh_material_total ignMesh second secondName material s1)
      as (t2 & S2 & C2 & L2 & _ & E2); [congruence|by rewrite Hsame|lia|].
    rewrite C1' in *.
    set (s2 := if bindCondition (convert material) && usable (stage s1) _
               then _ else t2) in E2.
    exists s1, s2. split; [done|]. split; [done|].
    split; [subst s2; destruct (_ && _); simpl; lia|].
    split; [|split].
    + subst s2. destruct (_ && _); simpl;
        [apply lookup_alter_is_Some|]; by eapply steps_lookup.
    + subst s2. destruct (_ && _); simpl; [by apply lookup_alter_is_Some|done].
    + intros E%materialPathOf_inj. lia.
Qed.

(** C5, amended.  For a mesh reference whose URI scheme is https or http
    and whose URI path has at least six segments, the segments are taken by
    position: the first (the server) is used as it is written, the second
    (the protocol version) and the seventh are not used, the third to sixth
    (owner, asset type, asset name, asset version) are lower-cased; server,
    owner, type, name and version are joined under <HOME>/.gz/fuel into the
    local cache path, which is registered as a search location, and so is,
    one after the other, each deeper join with the lower-cased segments
    from the eighth on; the deepest path is the file that is loaded. *)
Theorem remote_cache_paths (_meshMsg : msgs.MeshGeom) s
    (home server versionServer owner type modelName modelVersion : string)
    (rest : list string) :
  getenv (world s) "HOME" = Some home ->
  home <> "" ->
  URI_Scheme (msgs.filename _meshMsg) = "https"
  \/ URI_Scheme (msgs.filename _meshMsg) = "http" ->
  split (URI_Path (msgs.filename _meshMsg)) "/"
  = server :: versionServer :: owner :: type :: modelName :: modelVersion :: rest ->
  let base :=
    joinPathsV home [".gz"; "fuel"; server; Str.lowercase owner;
                     Str.lowercase type; Str.lowercase modelName;
                     Str.lowercase modelVersion] in
  let paths := base :: deeper base (Str.lowercase <$> drop 1 rest) in
  UpdateMesh_resolve _meshMsg s
  = Next (default base (last paths)) (registerAll paths s)
  /\ trace (registerAll paths s) = trace s ++ (AddFilePaths <$> paths)
  /\ stage (registerAll paths s) = stage s.
Proof.
  intros Hhome Hne Hscheme Hsplit base paths. split.
  - unfold UpdateMesh_resolve, env, gets. unfold bind at 1. rewrite Hhome.
    apply String.eqb_neq in Hne. rewrite Hne. cbn [negb andb].
    replace (String.eqb (URI_Scheme (msgs.filename _meshMsg)) "https"
             || String.eqb (URI_Scheme (msgs.filename _meshMsg)) "http")
      with true.
    + by apply (remoteFullname_spec _ _ _ _ versionServer).
    + symmetry. destruct Hscheme as [-> | ->]; [done|].
      apply orb_true_r.
  - destruct (registerAll_trace paths s) as (T & _ & S). done.
Qed.

(** C6, amended.  A material is written, and the texture channel [name]
    of the workflow it reads has a map reference: whatever the copy of the
    file into materials/textures/<basename> returns, the call of
    [ParseSdfMaterial] returns true, the texture attribute of the shader is
    the destination path materials/textures/<basename>, and the converter
    writes no diagnostic; the result of the copy is not read.  The
    material step of the conversion call never returns false. *)
Theorem texture_copy_not_fatal (m : sdf.Material) (w : sdf.PbrWorkflow)
    (name map : string) s :
  material_i s < INT_MAX ->
  chosenWorkflow m = Some w ->
  (name, map) ∈ textureInputs w ->
  map <> "" ->
  (exists s' evs,
     run (ParseSdfMaterial m) s = Done (true, materialPathOf (material_i s)) s'
     /\ trace s' = trace s ++ evs
     /\ logged evs = []
     /\ attrValue (stage s') (materialPathOf (material_i s) ++ "/Shader")%string name
        = Some (pxr.VAsset
                  (joinPaths (joinPaths "materials" "textures") (basename map))))
  /\ (forall (ignMesh : common.Mesh) (subMesh : common.SubMesh)
             (primName : string) s0 r s1,
        UpdateMesh_material ignMesh subMesh primName s0 <> Return r s1).
Proof.
  intros Hi Hw Hin Hmap. split.
  - pose proof (ParseSdfMaterial_spec m s Hi) as Hp.
    unfold wp in Hp. unfold run.
    destruct (ParseSdfMaterial m s) as [|r s'|]; [done| |done].
    cbv zeta in Hp. destruct Hp as (-> & S & _ & _ & _ & A).
    destruct (steps_trace _ _ _ _ S) as (evs & T & F).
    exists s', evs. split; [done|]. split; [done|].
    split; [by destruct (material_events_quiet _ F) as (_ & _ & ?)|].
    apply (A w name map Hw Hin). by apply String.eqb_neq.
  - intros ignMesh subMesh primName s0 r s1 E.
    pose proof (UpdateMesh_material_spec ignMesh subMesh primName s0) as Hs.
    unfold wp in Hs. by rewrite E in Hs.
Qed.

(** C9.  When the variable HOME is not set, every conversion call, for
    a local mesh reference as for a remote one, returns false at once: it
    writes one diagnostic and does nothing else, so it searches no file,
    registers no location, loads no asset and leaves the stage as it was. *)
Theorem HOME_unset (_meshMsg : msgs.MeshGeom) (_path : string) s :
  getenv (world s) "HOME" = None ->
  exists text,
    UpdateMesh _meshMsg _path s = Done false (record (Log Err text) s)
    /\ searches [Log Err text] = []
    /\ loads [Log Err text] = []
    /\ meshDefines [Log Err text] = []
    /\ stage (record (Log Err text) s) = stage s.
Proof.
  intros Hhome. eexists. split; [|done].
  unfold UpdateMesh, run, UpdateMesh_body, bind, UpdateMesh_resolve, bind, env, gets.
  rewrite Hhome. reflexivity.
Qed.

(** C10.  A native material with a PBR record whose albedo map is empty
    is converted to a material whose workflow, the one [ParseSdfMaterial]
    reads, has the legacy texture image of the native material as its
    albedo map. *)
Theorem convert_albedo_fallback (_in : common.Material) (pbr : common.Pbr) :
  common.PbrMaterial _in = Some pbr ->
  common.AlbedoMap pbr = "" ->
  exists pbrOut pbrWorkflow,
    sdf.PbrMaterial (convert _in) = Some pbrOut
    /\ sdf.Workflow pbrOut
         (match common.Type_ pbr with
          | common.PbrType_SPECULAR => sdf.SPECULAR
          | _ => sdf.METAL
          end) = Some pbrWorkflow
    /\ chosenWorkflow (convert _in) = Some pbrWorkflow
    /\ sdf.AlbedoMap pbrWorkflow = common.TextureImage _in.
Proof.
  intros Hpbr Halbedo. unfold convert, chosenWorkflow. rewrite Hpbr, Halbedo.
  destruct (common.Type_ pbr); simpl; do 2 eexists; repeat split.
Qed.

(** The case the specification describes: without a PBR record, a legacy
    texture image gives a specular workflow with that image as albedo. *)
Lemma convert_legacy_texture (_in : common.Material) :
  common.PbrMaterial _in = None ->
  common.TextureImage _in <> "" ->
  exists pbrOut pbrWorkflow,
    sdf.PbrMaterial (convert _in) = Some pbrOut
    /\ sdf.Workflow pbrOut sdf.SPECULAR = Some pbrWorkflow
    /\ sdf.AlbedoMap pbrWorkflow = common.TextureImage _in.
Proof.
  intros Hpbr Htex. unfold convert. rewrite Hpbr.
  apply String.eqb_neq in Htex. unfold empty. rewrite Htex. simpl.
  do 2 eexists; repeat split.
Qed.

End Claims.

(** * Runs on concrete assets *)

Section Runs.

Import Example.

(** The helpers on concrete strings. *)
Example find_wheel : Str.find "/car/wheel" "wheel" = Some 5%nat.
Proof. reflexivity. Qed.

Example find_nothing : Str.find "/car/wheel" "body" = None.
Proof. reflexivity. Qed.

Example path_names_submesh_whatever_the_case :
  pathNamesSubMesh "/Car/WHEEL_link" (submesh "Wheel" common.TRIANGLES (-1)) = true.
Proof. reflexivity. Qed.

Example primName_is_sanitized :
  primNameOf "/model" (submesh "front wheel-1.2" common.TRIANGLES (-1))
  = "/model/frontwheel_1_2".
Proof. reflexivity. Qed.

Example primName_without_submesh_name :
  primNameOf "/model" (submesh "" common.TRIANGLES (-1)) = "/model".
Proof. reflexivity. Qed.

Example to_string_negative : Str.to_string (-12) = "-12".
Proof. reflexivity. Qed.

Example selected_by_path :
  Spec.selected "/car/wheel" car = [submesh "wheel" common.TRIANGLES (-1)]
  /\ Spec.selected "/car" car = common.SubMeshes car
  /\ Spec.selected "/anything" strip = common.SubMeshes strip.
Proof. by repeat split. Qed.

(** The call on the asset of two triangle submeshes succeeds, and what it
    emitted is what [submesh_selection] says. *)
Lemma submesh_selection_witness :
  let s' := final (@UpdateMesh Sample.lib (mesh "twins.dae") "/model" initial) initial in
  @UpdateMesh Sample.lib (mesh "twins.dae") "/model" initial = Done true s'
  /\ exists evs ignMesh,
       trace s' = trace initial ++ evs
       /\ loads evs = [Some ignMesh]
       /\ meshDefines evs = primNameOf "/model" <$> Spec.selected "/model" ignMesh
       /\ Forall (fun p => is_Some (stage s' !! p)) (meshDefines evs)
       /\ (forall subMesh, common.SubMeshes ignMesh = [subMesh] ->
           meshDefines evs = [primNameOf "/model" subMesh]).
Proof.
  intros s'.
  assert (Hrun : @UpdateMesh Sample.lib (mesh "twins.dae") "/model" initial = Done true s')
    by (vm_compute; reflexivity).
  split; [exact Hrun|].
  exact (@submesh_selection Sample.lib (mesh "twins.dae") "/model" initial s' Hrun).
Defined.

(** C1, counterexample.  The asset has exactly one submesh, a line strip:
    the call returns false and emits no geometry primitive. *)
Lemma single_submesh_not_emitted :
  common.SubMeshCount strip = 1%nat
  /\ exists s',
       @UpdateMesh Sample.lib (mesh "strip.dae") "/model" initial = Done false s'
       /\ loads (trace s') = [Some strip]
       /\ meshDefines (trace s') = []
       /\ stage s' = ∅.
Proof.
  split; [reflexivity|].
  exists (final (@UpdateMesh Sample.lib (mesh "strip.dae") "/model" initial) initial).
  split; [vm_compute; reflexivity|]. by vm_compute.
Qed.

(** The first submesh of the asset "car" is kept and made of triangles,
    and declares no material: its iteration writes [7 / 3] counts of 3. *)
Lemma face_vertex_counts_witness :
  common.SubMeshByIndex car 0 = Some (submesh "wheel" common.TRIANGLES (-1))
  /\ kept "/car/wheel" car true (submesh "wheel" common.TRIANGLES (-1)) = true
  /\ exists s' counts,
       @UpdateMesh_submesh Sample.lib (mesh "car.dae") "/car/wheel" car true 0 initial
       = Next tt s'
       /\ attrValue (stage s')
            (primNameOf "/car/wheel" (submesh "wheel" common.TRIANGLES (-1)))
            "faceVertexCounts"
          = Some (pxr.VIntArray counts)
       /\ length counts
          = (common.IndexCount (submesh "wheel" common.TRIANGLES (-1)) / 3)%nat
       /\ Forall (fun c => c = Z.of_nat 3) counts.
Proof.
  split; [reflexivity|]. split; [reflexivity|].
  destruct (@face_vertex_counts Sample.lib (mesh "car.dae") "/car/wheel" car true 0%nat
              (submesh "wheel" common.TRIANGLES (-1)) initial)
    as (Hcounts & _ & _); [reflexivity|reflexivity|].
  apply (Hcounts 3%nat); [reflexivity|left; reflexivity].
Defined.

(** C2, counterexample.  The asset "car" has a line-strip submesh, "body";
    the path names the other submesh, so "body" is skipped: the call
    returns true. *)
Lemma skipped_line_strip_does_not_fail :
  In (submesh "body" common.LINESTRIPS (-1)) (common.SubMeshes car)
  /\ exists s',
       @UpdateMesh Sample.lib (mesh "car.dae") "/car/wheel" initial = Done true s'
       /\ loads (trace s') = [Some car]
       /\ meshDefines (trace s') = ["/car/wheel/wheel"].
Proof.
  split; [right; left; reflexivity|].
  exists (final (@UpdateMesh Sample.lib (mesh "car.dae") "/car/wheel" initial) initial).
  split; [vm_compute; reflexivity|]. by vm_compute.
Qed.


(** The material "plain" is a diffuse colour only: it is written and not
    bound. *)
Lemma plain_material_not_bound :
  exists s',
    @UpdateMesh_material Sample.lib
      (common.mkMesh "one" [submesh "part" common.TRIANGLES 0] [plain] origin ones)
      (submesh "part" common.TRIANGLES 0) "/model/part" initial = Next tt s'
    /\ binds (trace s') = []
    /\ is_Some (stage s' !! "/Looks/Material_0").
Proof.
  eexists. split; [vm_compute; reflexivity|].
  split; [by vm_compute|]. vm_compute. eauto.
Qed.

(** A material path held by a primitive of another type: the material is
    written there and is not bound, whatever it carries. *)
Lemma occupied_path_not_bound :
  usable (stage occupied) (materialPathOf 0) = false
  /\ exists s',
       @UpdateMesh_material Sample.lib twins (submesh "left" common.TRIANGLES 0)
         "/model/left" occupied = Next tt s'
       /\ binds (trace s') = [].
Proof.
  split; [by vm_compute|]. eexists. split; [vm_compute; reflexivity|].
  by vm_compute.
Qed.

(** The asset "twins": both submeshes name material 0, and two material
    primitives are made, Material_0 and Material_1. *)
Lemma material_naming_witness :
  exists s1 s2,
    @UpdateMesh_material Sample.lib twins (submesh "left" common.TRIANGLES 0)
      "/model/left" initial = Next tt s1
    /\ @UpdateMesh_material Sample.lib twins (submesh "right" common.TRIANGLES 0)
         "/model/right" s1 = Next tt s2
    /\ material_i s2 = 2
    /\ is_Some (stage s2 !! "/Looks/Material_0")
    /\ is_Some (stage s2 !! "/Looks/Material_1")
    /\ materialPathOf 0 <> materialPathOf 1.
Proof.
  destruct (@material_naming Sample.lib) as (_ & _ & _ & Htwo).
  exact (Htwo twins (submesh "left" common.TRIANGLES 0)
           (submesh "right" common.TRIANGLES 0) "/model/left" "/model/right"
           textured initial ltac:(discriminate) eq_refl eq_refl eq_refl).
Defined.

(** Two calls, one after the other, on the asset "twins": the second goes
    on numbering where the first stopped. *)
Lemma repeated_calls_number_on :
  exists s1 s2,
    @UpdateMesh Sample.lib (mesh "twins.dae") "/first" initial = Done true s1
    /\ @UpdateMesh Sample.lib (mesh "twins.dae") "/second" s1 = Done true s2
    /\ materialDefines (trace s2)
       = ["/Looks/Material_0"; "/Looks/Material_1";
          "/Looks/Material_2"; "/Looks/Material_3"]
    /\ binds (trace s2)
       = [("/first/left", "/Looks/Material_0"); ("/first/right", "/Looks/Material_1");
          ("/second/left", "/Looks/Material_2"); ("/second/right", "/Looks/Material_3")]
    /\ material_i s2 = 4.
Proof.
  exists (final (@UpdateMesh Sample.lib (mesh "twins.dae") "/first" initial) initial).
  exists (final (@UpdateMesh Sample.lib (mesh "twins.dae") "/second"
                   (final (@UpdateMesh Sample.lib (mesh "twins.dae") "/first" initial)
                          initial)) initial).
  split; [vm_compute; reflexivity|].
  split; [vm_compute; reflexivity|]. by vm_compute.
Qed.

(** A remote reference: what is registered for it. *)
Lemma remote_cache_paths_witness :
  let paths := ["/home/u/.gz/fuel/Fuel.Example.org/openrobotics/models/pump/2";
                "/home/u/.gz/fuel/Fuel.Example.org/openrobotics/models/pump/2/meshes";
                "/home/u/.gz/fuel/Fuel.Example.org/openrobotics/models/pump/2/meshes/pump.dae"] in
  @UpdateMesh_resolve Sample.lib pump initial
  = Next "/home/u/.gz/fuel/Fuel.Example.org/openrobotics/models/pump/2/meshes/pump.dae"
         (registerAll paths initial)
  /\ trace (registerAll paths initial) = trace initial ++ (AddFilePaths <$> paths)
  /\ stage (registerAll paths initial) = stage initial.
Proof.
  exact (@remote_cache_paths Sample.lib pump initial "/home/u" "Fuel.Example.org" "1.0"
           "OpenRobotics" "models" "Pump" "2" ["files"; "meshes"; "Pump.dae"]
           eq_refl ltac:(discriminate) (or_introl eq_refl) eq_refl).
Defined.

(** C5, counterexample.  The server segment of the reference has capital
    letters: the paths registered keep them, so they are not the joins of
    the lower-cased segments; the protocol version and the seventh segment
    are in none of them. *)
Lemma server_segment_not_lowercased :
  exists s1 fullname,
    @UpdateMesh_resolve Sample.lib pump initial = Next fullname s1
    /\ registered (trace s1)
       = ["/home/u/.gz/fuel/Fuel.Example.org/openrobotics/models/pump/2";
          "/home/u/.gz/fuel/Fuel.Example.org/openrobotics/models/pump/2/meshes";
          "/home/u/.gz/fuel/Fuel.Example.org/openrobotics/models/pump/2/meshes/pump.dae"]
    /\ @claimedCachePaths Sample.lib "/home/u"
         (@split Sample.lib (@URI_Path Sample.lib (msgs.filename pump)) "/")
       = ["/home/u/.gz/fuel/fuel.example.org/1.0/openrobotics/models/pump/2";
          "/home/u/.gz/fuel/fuel.example.org/1.0/openrobotics/models/pump/2/files";
          "/home/u/.gz/fuel/fuel.example.org/1.0/openrobotics/models/pump/2/files/meshes";
          "/home/u/.gz/fuel/fuel.example.org/1.0/openrobotics/models/pump/2/files/meshes/pump.dae"]
    /\ registered (trace s1)
       <> @claimedCachePaths Sample.lib "/home/u"
            (@split Sample.lib (@URI_Path Sample.lib (msgs.filename pump)) "/")
    /\ Forall (fun p => String.prefix "/home/u/.gz/fuel/Fuel.Example.org/" p = true)
              (registered (trace s1)).
Proof.
  eexists _, _. split; [vm_compute; reflexivity|].
  split; [reflexivity|]. split; [reflexivity|].
  split; [by vm_compute|]. by repeat constructor.
Qed.

(** The converted material "textured" on the sample world, where no file
    can be read. *)
Lemma texture_copy_not_fatal_witness :
  exists w,
    chosenWorkflow (convert textured) = Some w
    /\ ("inputs:diffuse_texture", "wood.png") ∈ textureInputs w
    /\ exists s' evs,
         @run Sample.lib _ (@ParseSdfMaterial Sample.lib (convert textured)) initial
         = Done (true, materialPathOf 0) s'
         /\ trace s' = trace initial ++ evs
         /\ logged evs = []
         /\ attrValue (stage s') (materialPathOf 0 ++ "/Shader")%string
              "inputs:diffuse_texture"
            = Some (pxr.VAsset "materials/textures/wood.png").
Proof.
  eexists. split; [reflexivity|]. split; [apply list_elem_of_here|].
  eapply (@texture_copy_not_fatal Sample.lib (convert textured) _
            "inputs:diffuse_texture" "wood.png" initial);
    [reflexivity|reflexivity|apply list_elem_of_here|discriminate].
Defined.

(** C6, counterexample.  The copy of the texture fails: the call returns
    true, the attribute is the destination path, and the converter has
    written no diagnostic. *)
Lemma copy_failure_not_logged :
  exists s',
    @run Sample.lib _ (@ParseSdfMaterial Sample.lib (convert textured)) initial
    = Done (true, "/Looks/Material_0") s'
    /\ In (CopyFile "wood.png" "materials/textures/wood.png" false) (trace s')
    /\ logged (trace s') = []
    /\ attrValue (stage s') "/Looks/Material_0/Shader" "inputs:diffuse_texture"
       = Some (pxr.VAsset "materials/textures/wood.png").
Proof.
  eexists. split; [vm_compute; reflexivity|].
  split; [|by vm_compute]. simpl. auto 10.
Qed.

(** A world without HOME: a local and a remote reference fail alike. *)
Lemma HOME_unset_witness :
  @getenv Sample.lib (world lost) "HOME" = None
  /\ (exists text,
        @UpdateMesh Sample.lib (mesh "strip.dae") "/model" lost
        = Done false (record (Log Err text) lost))
  /\ (exists text,
        @UpdateMesh Sample.lib pump "/model" lost
        = Done false (record (Log Err text) lost)).
Proof.
  split; [reflexivity|]. split.
  - destruct (@HOME_unset Sample.lib (mesh "strip.dae") "/model" lost eq_refl)
      as (text & E & _). by exists text.
  - destruct (@HOME_unset Sample.lib pump "/model" lost eq_refl) as (text & E & _).
    by exists text.
Defined.

(** The material "metal": a PBR record without albedo map, and a legacy
    texture image. *)
Lemma convert_albedo_fallback_witness :
  common.PbrMaterial metal = Some bare
  /\ common.AlbedoMap bare = ""
  /\ exists pbrOut pbrWorkflow,
       sdf.PbrMaterial (convert metal) = Some pbrOut
       /\ sdf.Workflow pbrOut sdf.METAL = Some pbrWorkflow
       /\ chosenWorkflow (convert metal) = Some pbrWorkflow
       /\ sdf.AlbedoMap pbrWorkflow = "wood.png".
Proof.
  split; [reflexivity|]. split; [reflexivity|].
  exact (convert_albedo_fallback metal bare eq_refl eq_refl).
Defined.

End Runs.

(** * Further properties of the code *)

(** ** Strings *)

Section Strings.

Lemma app_cons (c : ascii) (a b : string) :
  (String c a ++ b)%string = String c (a ++ b)%string.
Proof. reflexivity. Qed.


Lemma length_app_string (a b : string) :
  String.length (a ++ b)%string = (String.length a + String.length b)%nat.
Proof. induction a as [|x a IH]; [done|]. rewrite app_cons. simpl. by rewrite IH. Qed.

Lemma substring_0_length (s : string) : substring 0 (String.length s) s = s.
Proof. induction s as [|c s IH]; [done|]. simpl. by rewrite IH. Qed.

Lemma substring_skip (a b : string) (n : nat) :
  substring (String.length a) n (a ++ b)%string = substring 0 n b.
Proof. induction a as [|x a IH]; [done|]. rewrite app_cons. simpl. exact IH. Qed.


Lemma substring_split (s : string) (n : nat) :
  (n <= String.length s)%nat ->
  (substring 0 n s ++ substring n (String.length s - n) s)%string = s.
Proof.
  revert n. induction s as [|c s IH]; intros n Hn.
  - simpl in Hn. by replace n with 0%nat by lia.
  - destruct n as [|n].
    + rewrite Nat.sub_0_r. change (substring 0 0 (String c s)) with "".
      rewrite append_empty_l. apply substring_0_length.
    + simpl in Hn. cbn [substring String.length Nat.sub]. rewrite app_cons.
      f_equal. apply IH. lia.
Qed.

Lemma prefix_substring (s : string) (n : nat) :
  String.prefix (substring 0 n s) s = true.
Proof.
  revert n. induction s as [|c s IH]; intros [|n]; try done.
  simpl. rewrite IH. by destruct (ascii_dec c c).
Qed.

Lemma prefix_refl (s : string) : String.prefix s s = true.
Proof. induction s as [|c s IH]; [done|]. simpl. by destruct (ascii_dec c c). Qed.

Lemma prefix_app (a b : string) : String.prefix a (a ++ b)%string = true.
Proof.
  induction a as [|c a IH]; [by destruct b|]. rewrite app_cons. simpl.
  by destruct (ascii_dec c c).
Qed.



Lemma last_char_nonempty (c : ascii) (s : string) : is_Some (last_char (String c s)).
Proof.
  revert c. induction s as [|d s IH]; intros c; [by eexists|]. apply (IH d).
Qed.

Lemma last_char_app (a b : string) :
  last_char (a ++ b)%string
  = match last_char b with Some c => Some c | None => last_char a end.
Proof.
  induction a as [|x a IH]; [rewrite append_empty_l; by destruct (last_char b)|].
  rewrite app_cons. destruct a as [|y a].
  - rewrite append_empty_l. destruct b as [|z b]; [done|].
    change (last_char (String x (String z b))) with (last_char (String z b)).
    by destruct (last_char_nonempty z b) as [d ->].
  - rewrite app_cons in *.
    change (last_char (String x (String y (a ++ b)%string)))
      with (last_char (String y (a ++ b)%string)).
    by rewrite IH.
Qed.

Lemma drop_last_app (a : string) (c : ascii) :
  drop_last (a ++ String c EmptyString)%string = a.
Proof.
  induction a as [|x a IH]; [done|]. rewrite app_cons.
  destruct a as [|y a]; [done|]. rewrite app_cons in *.
  change (drop_last (String x (String y (a ++ String c "")%string)))
    with (String x (drop_last (String y (a ++ String c "")%string))).
  by rewrite IH.
Qed.

Lemma drop_last_app_cons (a b : string) (c : ascii) :
  drop_last (a ++ String c b)%string = (a ++ drop_last (String c b))%string.
Proof.
  induction a as [|x a IH]; [done|]. rewrite !app_cons.
  destruct a as [|y a]; [done|]. rewrite app_cons in *.
  change (drop_last (String x (String y (a ++ String c b)%string)))
    with (String x (drop_last (String y (a ++ String c b)%string))).
  by rewrite IH.
Qed.

Lemma substring_0_S (c : ascii) (s : string) (n : nat) :
  substring 0 (S n) (String c s) = String c (substring 0 n s).
Proof. reflexivity. Qed.

Lemma substring_drop_last (s : string) :
  substring 0 (String.length s - 1) s = drop_last s.
Proof.
  induction s as [|c s IH]; [done|]. destruct s as [|d s]; [done|].
  replace (String.length (String c (String d s)) - 1)%nat
    with (S (String.length (String d s) - 1)) by (simpl; lia).
  rewrite substring_0_S. by rewrite IH.
Qed.

Lemma endsWith_char (s : string) (c : ascii) :
  Str.endsWith s (String c EmptyString)
  = match last_char s with Some d => Ascii.eqb d c | None => false end.
Proof.
  unfold Str.endsWith. induction s as [|d s IH]; [done|].
  destruct s as [|e s].
  - change (String.eqb (String d "") (String c "") = Ascii.eqb d c).
    destruct (Ascii.eqb_spec d c) as [->|Hne].
    + apply String.eqb_refl.
    + apply String.eqb_neq. congruence.
  - change (last_char (String d (String e s))) with (last_char (String e s)).
    rewrite <- IH. clear IH.
    change (String.length (String c "")) with 1%nat.
    replace (String.length (String d (String e s)) - 1)%nat
      with (S (String.length (String e s) - 1)) by (simpl; lia).
    done.
Qed.

End Strings.

(** ** The path sanitizer, further *)

Section SanitizerFurther.

Lemma validPath_sanitize (p : string) : validPath p = Spec.sanitize p.
Proof.
  unfold validPath, Spec.sanitize.
  destruct (String.eqb_spec p "") as [->|Hp]; [done|].
  rewrite validPath_replaced_spec. unfold first_char, Spec.prepend_if_digit.
  destruct (Spec.replace_punctuation (Spec.remove_spaces p)) as [|c r]; [done|].
  change (String.get 0 (String c r)) with (Some c). cbv beta iota.
  destruct (Str.isdigit c); reflexivity.
Qed.

Lemma forbidden_spec (c : ascii) :
  forbidden c = Ascii.eqb c " " || Spec.punctuation c.
Proof.
  unfold forbidden, Spec.punctuation. cbn [existsb].
  by repeat destruct (Ascii.eqb c _).
Qed.

Lemma replaced_all_chars (p : string) :
  all_chars (fun c => negb (forbidden c))
            (Spec.replace_punctuation (Spec.remove_spaces p)) = true.
Proof.
  induction p as [|c p IH]; [done|]. cbn [Spec.remove_spaces].
  destruct (Ascii.eqb c " ") eqn:Es; [done|].
  cbn [Spec.replace_punctuation all_chars]. rewrite IH, andb_true_r.
  destruct (Spec.punctuation c) eqn:Ep; [done|].
  by rewrite forbidden_spec, Es, Ep.
Qed.

Lemma validPath_is_clean (p : string) : clean (validPath p) = true.
Proof.
  rewrite validPath_sanitize. unfold Spec.sanitize, clean.
  pose proof (replaced_all_chars p) as Ha.
  destruct (Spec.replace_punctuation (Spec.remove_spaces p)) as [|c r]; [done|].
  unfold Spec.prepend_if_digit. destruct (Str.isdigit c) eqn:Ed.
  - cbn [all_chars] in *. by rewrite Ha.
  - by rewrite Ha, Ed.
Qed.

Lemma clean_unchanged (p : string) : clean p = true -> validPath p = p.
Proof.
  rewrite validPath_sanitize. unfold clean, Spec.sanitize.
  intros [Ha Hd]%andb_true_iff.
  assert (Hr : Spec.replace_punctuation (Spec.remove_spaces p) = p).
  { clear Hd. induction p as [|c p IH]; [done|].
    cbn [all_chars] in Ha. apply andb_true_iff in Ha as [Hc Hp].
    rewrite forbidden_spec in Hc. apply negb_true_iff, orb_false_iff in Hc as [Es Ep].
    cbn [Spec.remove_spaces]. rewrite Es. cbn [Spec.replace_punctuation].
    by rewrite Ep, IH. }
  rewrite Hr. destruct p as [|c p]; [done|].
  unfold Spec.prepend_if_digit. apply negb_true_iff in Hd. by rewrite Hd.
Qed.



Lemma remove_spaces_app (a b : string) :
  Spec.remove_spaces (a ++ b)%string
  = (Spec.remove_spaces a ++ Spec.remove_spaces b)%string.
Proof.
  induction a as [|c a IH]; [done|]. rewrite app_cons. cbn [Spec.remove_spaces].
  rewrite IH. by destruct (Ascii.eqb c " ").
Qed.

Lemma replace_punctuation_app (a b : string) :
  Spec.replace_punctuation (a ++ b)%string
  = (Spec.replace_punctuation a ++ Spec.replace_punctuation b)%string.
Proof.
  induction a as [|c a IH]; [done|]. rewrite app_cons.
  cbn [Spec.replace_punctuation]. by rewrite IH.
Qed.

Lemma validPath_slash (_path name : string) :
  validPath (_path ++ "/" ++ name)%string
  = (validPath _path ++ "/" ++ validPath_replaced name)%string.
Proof.
  rewrite !validPath_sanitize, validPath_replaced_spec. unfold Spec.sanitize.
  rewrite remove_spaces_app, replace_punctuation_app.
  change (Spec.remove_spaces ("/" ++ name)%string)
    with (String "/" (Spec.remove_spaces name)).
  change (Spec.replace_punctuation (String "/" (Spec.remove_spaces name)))
    with ("/" ++ Spec.replace_punctuation (Spec.remove_spaces name))%string.
  destruct (Spec.replace_punctuation (Spec.remove_spaces _path)) as [|c r]; [done|].
  rewrite app_cons. unfold Spec.prepend_if_digit.
  by destruct (Str.isdigit c).
Qed.


End SanitizerFurther.

(** ** The helpers of Mesh.cpp *)

Section Helpers.

Context `{GzCommon}.

(** X4.  [endsWith] holds exactly of the strings that are some string followed
    by the suffix: of every string for the empty suffix, of none shorter
    than the suffix. *)
Theorem endsWith_iff (str suffix : string) :
  Str.endsWith str suffix = true <-> exists front, str = (front ++ suffix)%string.
Proof.
  unfold Str.endsWith. split.
  - intros [Hl He]%andb_true_iff. apply Nat.leb_le in Hl.
    apply String.eqb_eq in He.
    exists (substring 0 (String.length str - String.length suffix) str).
    pose proof (substring_split str (String.length str - String.length suffix)
                  ltac:(lia)) as Hs.
    replace (String.length str - (String.length str - String.length suffix))%nat
      with (String.length suffix) in Hs by lia.
    by rewrite He in Hs.
  - intros [front ->]. rewrite length_app_string.
    apply andb_true_iff. split; [apply Nat.leb_le; lia|].
    replace (String.length front + String.length suffix - String.length suffix)%nat
      with (String.length front) by lia.
    rewrite substring_skip, substring_0_length. apply String.eqb_refl.
Qed.

Lemma primNameOf_unfold (_path : string) (subMesh : common.SubMesh) :
  primNameOf _path subMesh
  = let primName := (validPath _path ++ "/"
                     ++ validPath_replaced (common.Name subMesh))%string in
    match last_char primName with
    | Some c => if Ascii.eqb c "/" then drop_last primName else primName
    | None => primName
    end.
Proof.
  unfold primNameOf. rewrite validPath_slash. cbv zeta.
  rewrite endsWith_char, substring_drop_last.
  by destruct (last_char _).
Qed.

Lemma primNameOf_prefix (_path : string) (subMesh : common.SubMesh) :
  String.prefix (validPath _path) (primNameOf _path subMesh) = true.
Proof.
  rewrite primNameOf_unfold. cbv zeta.
  set (b := validPath_replaced (common.Name subMesh)).
  destruct (last_char (validPath _path ++ "/" ++ b)%string) as [c|] eqn:E;
    [|apply prefix_app].
  destruct (Ascii.eqb c "/"); [|apply prefix_app].
  change ("/" ++ b)%string with (String "/" b).
  rewrite drop_last_app_cons. apply prefix_app.
Qed.


Lemma prefix_length (a b : string) :
  String.prefix a b = true -> (String.length a <= String.length b)%nat.
Proof.
  revert b. induction a as [|x a IH]; intros b; [simpl; lia|].
  destruct b as [|y b]; [done|]. simpl.
  destruct (ascii_dec x y); [|done]. intros Hp%IH. lia.
Qed.

Lemma rfind_long (s sub : string) :
  (String.length s < String.length sub)%nat -> rfind s sub = None.
Proof.
  induction s as [|c s IH]; intros Hl.
  - destruct sub; [simpl in Hl; lia|done].
  - cbn [rfind]. rewrite IH by (simpl in Hl; lia).
    destruct (String.prefix sub (String c s)) eqn:E; [|done].
    apply prefix_length in E. lia.
Qed.

Lemma rfind_self (s : string) : s <> "" -> rfind s s = Some 0%nat.
Proof.
  destruct s as [|c s]; [done|]. intros _. cbn [rfind].
  rewrite rfind_long by (simpl; lia). by rewrite prefix_refl.
Qed.

(** X6.  [copyMaterial] with an empty destination or an empty source returns
    false and asks nothing of the file system.  Otherwise it copies once,
    from the source to the destination, and returns what the copy
    returned; before that it creates at most one directory, whose name is
    a leading part of the destination, and none when the destination is a
    bare file name.  The stage is never touched. *)
Theorem copyMaterial_contract (_path _fullPath : string) s :
  exists copied s',
    copyMaterial _path _fullPath s = Return copied s'
    /\ stage s' = stage s
    /\ material_i s' = material_i s
    /\ if empty _path || empty _fullPath
       then copied = false /\ s' = s
       else exists dirs,
              trace s' = trace s ++ (CreateDirectories <$> dirs)
                                 ++ [CopyFile _fullPath _path copied]
              /\ Forall (fun d => d <> "" /\ String.prefix d _path = true) dirs
              /\ (length dirs <= 1)%nat
              /\ (basename _path = _path -> dirs = []).
Proof.
  unfold copyMaterial.
  destruct (empty _path) eqn:Ep; [by eexists _, _|].
  destruct (empty _fullPath) eqn:Ef; [by eexists _, _|].
  cbn [negb andb orb].
  set (filePath := substr0 _path (rfind _path (basename _path))).
  assert (Hpre : String.prefix filePath _path = true).
  { subst filePath. destruct (rfind _path (basename _path)); simpl;
      [apply prefix_substring|apply prefix_refl]. }
  assert (Hbase : basename _path = _path -> empty filePath = true).
  { intros Hb. subst filePath. rewrite Hb, rfind_self; [by destruct _path|].
    intros ->. done. }
  destruct (empty filePath) eqn:Ed.
  - eexists _, _. split; [reflexivity|]. split; [done|]. split; [done|].
    exists []. simpl. split; [done|]. split; [constructor|]. split; [lia|done].
  - eexists _, _. split; [reflexivity|]. split; [done|]. split; [done|].
    exists [filePath]. simpl. split; [by rewrite <- app_assoc|].
    split; [|split; [lia|]].
    + constructor; [|constructor]. split; [|done].
      intros E. unfold empty in Ed. by rewrite E in Ed.
    + intros Hb. by specialize (Hbase Hb).
Qed.

Lemma foldl_customData_proj {B} (g : pxr.Attribute -> B)
    (cd : list (string * pxr.VtValue)) a :
  (forall k x a, g (pxr.SetCustomDataByKey k x a) = g a) ->
  g (foldl (fun a kv => pxr.SetCustomDataByKey (fst kv) (snd kv) a) a cd) = g a.
Proof.
  intros Hg. revert a. induction cd as [|kv cd IH]; intros a; [done|].
  cbn [foldl]. by rewrite IH, Hg.
Qed.

Lemma foldl_customData_other (cd : list (string * pxr.VtValue)) a k :
  k ∉ cd.*1 ->
  pxr.customData
    (foldl (fun a kv => pxr.SetCustomDataByKey (fst kv) (snd kv) a) a cd) !! k
  = pxr.customData a !! k.
Proof.
  revert a. induction cd as [|[k' x'] cd IH]; intros a Hk; [done|].
  cbn [foldl]. apply not_elem_of_cons in Hk as [Hne Hk].
  rewrite IH by done. simpl. by rewrite lookup_insert_ne.
Qed.

Lemma foldl_customData_key (cd : list (string * pxr.VtValue)) a k x :
  NoDup cd.*1 -> (k, x) ∈ cd ->
  pxr.customData
    (foldl (fun a kv => pxr.SetCustomDataByKey (fst kv) (snd kv) a) a cd) !! k
  = Some x.
Proof.
  revert a. induction cd as [|[k' x'] cd IH]; intros a Hnd Hin.
  - by apply elem_of_nil in Hin.
  - cbn [foldl]. apply NoDup_cons in Hnd as [Hk' Hnd].
    apply elem_of_cons in Hin as [[= <- <-]|Hin].
    + rewrite foldl_customData_other by done. simpl. by rewrite lookup_insert_eq.
    + by apply IH.
Qed.

Lemma attributeOf_author_eq p n ty f (st : pxr.Stage) :
  is_Some (st !! p) ->
  attributeOf (alter (pxr.authorAttribute n ty f) p st) p n
  = Some (f (match attributeOf st p n with
             | Some a => pxr.withType ty a
             | None => pxr.newAttribute ty
             end)).
Proof.
  intros [pr Hpr]. unfold attributeOf. rewrite lookup_alter, decide_True by done.
  rewrite Hpr. simpl. by rewrite lookup_insert_eq.
Qed.

Lemma attributeOf_author_ne p q n name ty f (st : pxr.Stage) :
  n <> name ->
  attributeOf (alter (pxr.authorAttribute n ty f) q st) p name
  = attributeOf st p name.
Proof.
  intros Hne. unfold attributeOf. rewrite lookup_alter.
  case_decide; [subst|done].
  destruct (st !! p) as [pr|]; simpl; [|done]. by rewrite lookup_insert_ne.
Qed.

Lemma typeOf_alter_author p q n ty f (st : pxr.Stage) :
  typeOf (alter (pxr.authorAttribute n ty f) q st) p = typeOf st p.
Proof.
  unfold typeOf. rewrite lookup_alter. case_decide; [subst|done].
  by destruct (st !! p).
Qed.

(** X7.  [CreateMaterialInput] returns whether the primitive it is given is a
    shader.  When it is not, one diagnostic is written and the stage is as
    it was.  When it is, no diagnostic is written, and on the stage nothing
    changes but the input of that name on that primitive: every other
    primitive, every other attribute of the primitive, its type and its
    binding are as before. *)
Theorem CreateMaterialInput_result (p n : string) (ty : pxr.SdfValueTypeName)
    (v : pxr.VtValue) (cd : list (string * pxr.VtValue))
    (dn dg doc cs : string) s :
  exists s',
    CreateMaterialInput p n ty v cd dn dg doc cs s
    = Return (pxr.IsA "Shader" p (stage s)) s'
    /\ material_i s' = material_i s
    /\ world s' = world s
    /\ (forall q, q <> p -> stage s' !! q = stage s !! q)
    /\ (forall name, name <> ("inputs:" ++ n)%string ->
          attributeOf (stage s') p name = attributeOf (stage s) p name)
    /\ typeOf (stage s') p = typeOf (stage s) p
    /\ bindingOf (stage s') p = bindingOf (stage s) p
    /\ if pxr.IsA "Shader" p (stage s)
       then trace s' = trace s
            /\ is_Some (attributeOf (stage s') p ("inputs:" ++ n)%string)
       else stage s' = stage s
            /\ exists text, trace s' = trace s ++ [Log Err text].
Proof.
  unfold CreateMaterialInput, bind, gets.
  destruct (pxr.IsA "Shader" p (stage s)) eqn:Hp; cbn [negb].
  - eexists. split; [reflexivity|]. cbn [stage material_i world trace with_stage].
    split; [done|]. split; [done|].
    split; [intros q Hq; by rewrite lookup_alter_ne|].
    split; [intros name Hn; by apply attributeOf_author_ne|].
    split; [apply typeOf_alter_author|]. split; [apply bindingOf_author|].
    split; [done|]. rewrite attributeOf_author_eq by (by eapply IsA_is_Some).
    eauto.
  - eexists. split; [reflexivity|]. simpl. repeat split; eauto.
Qed.

(** X8.  What [CreateMaterialInput] leaves on a shader: the input holds the
    value and has the type asked for; its custom data holds every entry
    given and keeps the others; display name, display group, documentation
    and colour space are written when they are given non-empty, and kept
    as they were when they are given empty. *)
Theorem CreateMaterialInput_attribute (p n : string) (ty : pxr.SdfValueTypeName)
    (v : pxr.VtValue) (cd : list (string * pxr.VtValue))
    (dn dg doc cs : string) s :
  pxr.IsA "Shader" p (stage s) = true ->
  NoDup cd.*1 ->
  exists before a s',
    before = default (pxr.newAttribute ty)
                     (attributeOf (stage s) p ("inputs:" ++ n)%string)
    /\ CreateMaterialInput p n ty v cd dn dg doc cs s = Return true s'
    /\ attributeOf (stage s') p ("inputs:" ++ n)%string = Some a
    /\ pxr.value a = Some v
    /\ pxr.typeName a = ty
    /\ (forall k x, (k, x) ∈ cd -> pxr.customData a !! k = Some x)
    /\ (forall k, k ∉ cd.*1 ->
          pxr.customData a !! k = pxr.customData before !! k)
    /\ pxr.displayName a = (if empty dn then pxr.displayName before else dn)
    /\ pxr.displayGroup a = (if empty dg then pxr.displayGroup before else dg)
    /\ pxr.documentation a = (if empty doc then pxr.documentation before else doc)
    /\ pxr.colorSpace a = (if empty cs then pxr.colorSpace before else cs).
Proof.
  intros Hp Hnd. unfold CreateMaterialInput, bind, gets. rewrite Hp. cbn [negb].
  eexists _, _, _. split; [reflexivity|]. split; [reflexivity|].
  cbn [stage with_stage]. rewrite attributeOf_author_eq by (by eapply IsA_is_Some).
  split; [reflexivity|].
  set (a0 := match attributeOf (stage s) p ("inputs:" ++ n)%string with
             | Some a => pxr.withType _ a
             | None => pxr.newAttribute _
             end).
  set (before := default (pxr.newAttribute ty) _).
  assert (Hty : (if pxr.IsScalar ty then pxr.GetScalarType ty
                 else if pxr.IsArray ty then pxr.GetArrayType ty else pxr.NoType)
                = ty) by (by destruct ty).
  assert (H0 : pxr.typeName a0 = ty
               /\ pxr.customData a0 = pxr.customData before
               /\ pxr.displayName a0 = pxr.displayName before
               /\ pxr.displayGroup a0 = pxr.displayGroup before
               /\ pxr.documentation a0 = pxr.documentation before
               /\ pxr.colorSpace a0 = pxr.colorSpace before).
  { subst a0 before. rewrite Hty.
    by destruct (attributeOf (stage s) p ("inputs:" ++ n)%string). }
  destruct H0 as (T0 & C0 & N0 & G0 & D0 & S0). clearbody a0 before.
  pose proof (foldl_customData_proj pxr.typeName cd (pxr.SetValue v a0)
                ltac:(done)) as F1.
  pose proof (foldl_customData_proj pxr.displayName cd (pxr.SetValue v a0)
                ltac:(done)) as F2.
  pose proof (foldl_customData_proj pxr.displayGroup cd (pxr.SetValue v a0)
                ltac:(done)) as F3.
  pose proof (foldl_customData_proj pxr.documentation cd (pxr.SetValue v a0)
                ltac:(done)) as F4.
  pose proof (foldl_customData_proj pxr.colorSpace cd (pxr.SetValue v a0)
                ltac:(done)) as F5.
  pose proof (value_customData cd (pxr.SetValue v a0)) as Fv.
  pose proof (foldl_customData_key cd (pxr.SetValue v a0)) as Fk.
  pose proof (foldl_customData_other cd (pxr.SetValue v a0)) as Fo.
  set (a1 := foldl _ (pxr.SetValue v a0) cd) in *. clearbody a1.
  simpl in *.
  destruct (empty dn), (empty dg), (empty doc), (empty cs); cbn [negb];
    simpl; repeat split; try congruence; auto;
    intros; rewrite ?Fo by done; congruence.
Qed.

End Helpers.

(** ** What a computation leaves alone *)

Section Keeps.

Context `{GzCommon}.

Implicit Types (s : State) (P : string -> bool).

Lemma keeps_ret {R A} (Rel : State -> State -> Prop) `{!Reflexive Rel} (a : A) :
  keeps Rel (ret (R := R) a).
Proof. intros s. simpl. reflexivity. Qed.

Lemma keeps_return {R A} (Rel : State -> State -> Prop) `{!Reflexive Rel} (r : R) :
  keeps Rel (return_ (A := A) r).
Proof. intros s. simpl. reflexivity. Qed.

Lemma keeps_undefined {R A} (Rel : State -> State -> Prop) :
  keeps Rel (undefined (R := R) (A := A)).
Proof. by intros s. Qed.

Lemma keeps_gets {R A} (Rel : State -> State -> Prop) `{!Reflexive Rel}
    (f : State -> A) :
  keeps Rel (gets (R := R) f).
Proof. intros s. simpl. reflexivity. Qed.

Lemma keeps_modify {R} (Rel : State -> State -> Prop) (f : State -> State) :
  (forall s, Rel s (f s)) -> keeps Rel (modify (R := R) f).
Proof. intros Hf s. apply Hf. Qed.

Lemma keeps_bind {R A B} (Rel : State -> State -> Prop) `{!Transitive Rel}
    (m : M R A) (f : A -> M R B) :
  keeps Rel m -> (forall a, keeps Rel (f a)) -> keeps Rel (bind m f).
Proof.
  intros Hm Hf s. specialize (Hm s). unfold bind.
  destruct (m s) as [a s1|r s1|]; [|done|done].
  specialize (Hf a s1). destruct (f a s1); [|by etrans|done]. by etrans.
Qed.

Lemma keeps_call {R A} (Rel : State -> State -> Prop) (m : M A A) :
  keeps Rel m -> keeps Rel (call (R := R) m).
Proof. intros Hm s. specialize (Hm s). unfold call. by destruct (m s). Qed.

Lemma keeps_run {A} (Rel : State -> State -> Prop) (m : M A A) s a s' :
  keeps Rel m -> run m s = Done a s' -> Rel s s'.
Proof.
  intros Hm Hr. specialize (Hm s). unfold run in Hr.
  destruct (m s); simplify_eq; done.
Qed.

Lemma keeps_wp {R A} (Rel : State -> State -> Prop) (m : M R A) s :
  keeps Rel m -> wp True m (fun _ s' => Rel s s') (fun _ s' => Rel s s') s.
Proof. intros Hm. specialize (Hm s). unfold wp. by destruct (m s). Qed.

Global Instance untouched_refl P : Reflexive (untouched P).
Proof. by intros s p Hp. Qed.

Global Instance untouched_trans P : Transitive (untouched P).
Proof. intros s1 s2 s3 H12 H23 p Hp. by rewrite H23, H12. Qed.

Lemma lookup_define_ne p q t (st : pxr.Stage) :
  p <> q -> pxr.DefinePrim q t st !! p = st !! p.
Proof.
  intros Hne. unfold pxr.DefinePrim. destruct (st !! q); by rewrite lookup_insert_ne.
Qed.

Lemma untouched_record P e s s' : untouched P s s' -> untouched P s (record e s').
Proof. done. Qed.

Lemma untouched_world P w s s' : untouched P s s' -> untouched P s (with_world w s').
Proof. done. Qed.

Lemma untouched_counter P i s s' :
  untouched P s s' -> untouched P s (with_material_i i s').
Proof. done. Qed.

Lemma untouched_alter P (f : pxr.Prim -> pxr.Prim) p s s' :
  P p = true -> untouched P s s' -> untouched P s (with_stage (alter f p) s').
Proof.
  intros Hp Hs q Hq. simpl. rewrite lookup_alter_ne by congruence. by apply Hs.
Qed.

Lemma untouched_define P p t s s' :
  P p = true -> untouched P s s' ->
  untouched P s (with_stage (pxr.DefinePrim p t) s').
Proof.
  intros Hp Hs q Hq. simpl. rewrite lookup_define_ne by congruence. by apply Hs.
Qed.

End Keeps.

(** Proves [keeps (untouched P) m] for a computation made of the steps of
    the converter; [solve_path] proves that the paths written are in [P]. *)
Tactic Notation "keeps_untouched" "by" tactic3(solve_path) :=
  repeat
    lazymatch goal with
    | |- keeps _ (bind _ _) => apply keeps_bind; [apply _| |intros ?; cbv beta]
    | |- keeps _ (ret _) => apply keeps_ret; apply _
    | |- keeps _ (return_ _) => apply keeps_return; apply _
    | |- keeps _ undefined => apply keeps_undefined
    | |- keeps _ (gets _) => apply keeps_gets; apply _
    | |- keeps _ (call _) => apply keeps_call
    | |- keeps _ (modify _) =>
        apply keeps_modify; intros ?;
        repeat first
          [ apply untouched_record | apply untouched_world
          | apply untouched_counter
          | apply untouched_alter; [solve_path|]
          | apply untouched_define; [solve_path|] ];
        reflexivity
    | |- keeps _ (if ?b then _ else _) => destruct b
    | |- keeps _ (match ?x with _ => _ end) => destruct x
    | |- keeps _ (let _ := _ in _) => cbv zeta
    | |- keeps _ _ =>
        progress unfold gzerr, ignerr, ignmsg, findFile, AddFilePaths_,
          createDirectories, copyFile, Load, GetPrimAtPath, DefinePrim, author,
          Bind_, when_, check, copyTexture, copyMaterial, CreateMaterialInput,
          env, at_, ParseSdfMaterial_pbr, localFullname, remoteFullname
    end.

Section Footprint.

Context `{GzCommon}.

Implicit Types (s : State).

Lemma reach_primName _path (subMesh : common.SubMesh) :
  reach _path (primNameOf _path subMesh) = true.
Proof. unfold reach. by rewrite primNameOf_prefix, orb_true_r. Qed.

Lemma materialPaths_material (i : Z) :
  materialPaths i ("/Looks/Material_" ++ Str.to_string i)%string = true.
Proof. unfold materialPaths, materialPathOf. by rewrite String.eqb_refl. Qed.

Lemma materialPaths_shader (i : Z) :
  materialPaths i (("/Looks/Material_" ++ Str.to_string i) ++ "/Shader")%string
  = true.
Proof.
  unfold materialPaths, materialPathOf. by rewrite String.eqb_refl, orb_true_r.
Qed.

(** What [ParseSdfMaterial] leaves of the stage, whatever it returns. *)
Lemma ParseSdfMaterial_paths (m : sdf.Material) s :
  let left_alone s' :=
    (forall p, p <> "/Looks" -> materialPaths (material_i s) p = false ->
       stage s' !! p = stage s !! p)
    /\ stage s' !! "/Looks"
       = Some (default (pxr.newPrim "Scope") (stage s !! "/Looks")) in
  wp True (ParseSdfMaterial m) (fun _ => left_alone) (fun _ => left_alone) s.
Proof.
  intros left_alone. unfold ParseSdfMaterial.
  eapply wp_bind_Next; [reflexivity|].
  assert (exists s1,
    when_ (R := bool * string) (negb (bool_decide (is_Some (stage s !! "/Looks"))))
          (DefinePrim "/Looks" "Scope") s = Next tt s1
    /\ material_i s1 = material_i s
    /\ (forall p, p <> "/Looks" -> stage s1 !! p = stage s !! p)
    /\ stage s1 !! "/Looks"
       = Some (default (pxr.newPrim "Scope") (stage s !! "/Looks")))
    as (s1 & E1 & C1 & L1 & K1).
  { destruct (stage s !! "/Looks") as [pr|] eqn:E.
    - rewrite bool_decide_true by eauto. exists s. by rewrite E.
    - rewrite bool_decide_false by (by intros [? ?]). eexists.
      split; [reflexivity|]. split; [done|]. simpl. split.
      + intros p Hp. by apply lookup_define_ne.
      + unfold pxr.DefinePrim. rewrite E. by rewrite lookup_insert_eq. }
  eapply wp_bind_Next; [exact E1|].
  eapply wp_bind_Next; [reflexivity|]. cbv beta. rewrite C1.
  eapply wp_mono; [apply (keeps_wp (untouched (materialPaths (material_i s))))| |].
  - keeps_untouched by
      (first [apply materialPaths_material | apply materialPaths_shader]).
  - intros r s' Hs. cbv beta in Hs. split.
    + intros p Hp Hm. rewrite Hs by done. by apply L1.
    + rewrite Hs by reflexivity. exact K1.
  - intros r s' Hs. cbv beta in Hs. split.
    + intros p Hp Hm. rewrite Hs by done. by apply L1.
    + rewrite Hs by reflexivity. exact K1.
Qed.

Lemma ParseSdfMaterial_reach _path (m : sdf.Material) :
  keeps (untouched (reach _path)) (ParseSdfMaterial m).
Proof.
  intros s. pose proof (ParseSdfMaterial_paths m s) as Hp.
  cbv zeta in Hp. unfold wp in Hp.
  destruct (ParseSdfMaterial m s) as [a s'|r s'|]; [| |done];
    destruct Hp as [Hp _]; intros p Hr; apply Hp;
    try (intros ->; done);
    unfold materialPaths, materialPathOf;
    apply orb_false_iff; split; apply String.eqb_neq; intros ->; done.
Qed.

Lemma UpdateMesh_material_reach _path (ignMesh : common.Mesh)
    (subMesh : common.SubMesh) :
  keeps (untouched (reach _path))
        (UpdateMesh_material ignMesh subMesh (primNameOf _path subMesh)).
Proof.
  unfold UpdateMesh_material.
  keeps_untouched by (apply reach_primName).
  apply ParseSdfMaterial_reach.
Qed.

Lemma UpdateMesh_submesh_reach (_meshMsg : msgs.MeshGeom) _path
    (ignMesh : common.Mesh) (flag : bool) (i : nat) :
  keeps (untouched (reach _path))
        (UpdateMesh_submesh _meshMsg _path ignMesh flag i).
Proof.
  unfold UpdateMesh_submesh.
  keeps_untouched by (apply reach_primName).
  apply UpdateMesh_material_reach.
Qed.

Lemma UpdateMesh_loop_reach (_meshMsg : msgs.MeshGeom) _path
    (ignMesh : common.Mesh) (flag : bool) (n i : nat) :
  keeps (untouched (reach _path))
        (UpdateMesh_loop _meshMsg _path ignMesh flag n i).
Proof.
  revert i. induction n as [|n IH]; intros i; cbn [UpdateMesh_loop].
  - apply keeps_ret, _.
  - apply keeps_bind; [apply _|apply UpdateMesh_submesh_reach|intros _; apply IH].
Qed.

Lemma first_loop_state {R} (ignMesh : common.Mesh) _path (n i : nat) s :
  match isUSDPathInSubMeshName_loop (R := R) ignMesh _path n i s with
  | Next _ s' | Return _ s' => s' = s
  | Undefined => True
  end.
Proof.
  revert i. induction n as [|n IH]; intros i; cbn [isUSDPathInSubMeshName_loop];
    [done|].
  destruct (negb _); [|apply IH].
  destruct (common.SubMeshByIndex ignMesh i); [|done].
  destruct (pathNamesSubMesh _path _); [done|apply IH].
Qed.

Lemma first_loop_keeps {R} (Rel : State -> State -> Prop) `{!Reflexive Rel}
    (ignMesh : common.Mesh) _path (n i : nat) :
  keeps Rel (isUSDPathInSubMeshName_loop (R := R) ignMesh _path n i).
Proof.
  intros s. pose proof (first_loop_state (R := R) ignMesh _path n i s) as Hs.
  destruct (isUSDPathInSubMeshName_loop _ _ _ _ s); by subst.
Qed.

Lemma nestedPaths_keeps {R} P (fullname : string) (tokens : list string) :
  keeps (untouched P) (nestedPaths (R := R) fullname tokens).
Proof.
  revert fullname. induction tokens as [|t tokens IH]; intros fullname;
    cbn [nestedPaths].
  - apply keeps_ret, _.
  - apply keeps_bind; [apply _| |intros _; apply IH].
    keeps_untouched by fail.
Qed.

Lemma UpdateMesh_body_reach (_meshMsg : msgs.MeshGeom) _path :
  keeps (untouched (reach _path)) (UpdateMesh_body _meshMsg _path).
Proof.
  unfold UpdateMesh_body, UpdateMesh_resolve, UpdateMesh_convert.
  keeps_untouched by fail;
    first [ apply nestedPaths_keeps
          | apply first_loop_keeps, _
          | apply UpdateMesh_loop_reach ].
Qed.


(** X10.  [ParseSdfMaterial] writes to three primitives and to no other: the
    scope /Looks, which it makes when the stage lacks it and otherwise
    leaves exactly as it is, the material primitive named after the
    counter, and the shader under it. *)
Theorem ParseSdfMaterial_footprint (m : sdf.Material) s (r : bool * string) s' :
  run (ParseSdfMaterial m) s = Done r s' ->
  (forall p,
     p <> "/Looks" ->
     p <> materialPathOf (material_i s) ->
     p <> (materialPathOf (material_i s) ++ "/Shader")%string ->
     stage s' !! p = stage s !! p)
  /\ stage s' !! "/Looks"
     = Some (default (pxr.newPrim "Scope") (stage s !! "/Looks")).
Proof.
  intros Hrun. pose proof (ParseSdfMaterial_paths m s) as Hp.
  cbv zeta in Hp. unfold wp in Hp. unfold run in Hrun.
  destruct (ParseSdfMaterial m s) as [a s''|r' s''|]; [| |done];
    simplify_eq; destruct Hp as [Hp Hl]; (split; [|done]);
    intros p H1 H2 H3; (apply Hp; [done|]); unfold materialPaths;
    apply orb_false_iff; by split; apply String.eqb_neq.
Qed.

End Footprint.

(** ** Materials, from the asset to the stage *)

Section NativeMaterials.

Context `{GzCommon}.

Implicit Types (s : State).

Lemma bindCondition_convert (material : common.Material) :
  bindCondition (convert material)
  = Color_ne (common.Emissive material) (math.mkColor 0 0 0 1)
    || Color_ne (common.Specular material) (math.mkColor 0 0 0 1)
    || bool_decide (is_Some (common.PbrMaterial material))
    || negb (empty (common.TextureImage material)).
Proof.
  unfold bindCondition, convert.
  destruct (common.PbrMaterial material) as [pbr|]; cbn [sdf.Emissive sdf.Specular sdf.PbrMaterial].
  - rewrite !bool_decide_true by eauto. by rewrite !orb_true_r.
  - destruct (negb (empty (common.TextureImage material)));
      cbn [sdf.Emissive sdf.Specular sdf.PbrMaterial sdf.Material_default].
    + rewrite bool_decide_true by eauto. by rewrite !orb_true_r.
    + rewrite !bool_decide_false by (by intros [? ?]). by rewrite !orb_false_r.
Qed.


Lemma chosenWorkflow_convert_pbr (material : common.Material) (pbr : common.Pbr) :
  common.PbrMaterial material = Some pbr ->
  exists w,
    chosenWorkflow (convert material) = Some w
    /\ sdf.AlbedoMap w = (if empty (common.AlbedoMap pbr)
                          then common.TextureImage material
                          else common.AlbedoMap pbr)
    /\ sdf.MetalnessMap w = common.MetalnessMap pbr
    /\ sdf.NormalMap w = common.NormalMap pbr
    /\ sdf.RoughnessMap w = common.RoughnessMap pbr
    /\ sdf.Metalness w = common.Metalness pbr
    /\ sdf.Roughness w = common.Roughness pbr.
Proof.
  intros Hpbr. unfold chosenWorkflow, convert. rewrite Hpbr.
  destruct (common.Type_ pbr); eexists; (split; [reflexivity|]); simpl;
    by destruct (empty (common.AlbedoMap pbr)).
Qed.

(** X12.  The texture maps of a PBR record of the asset reach the shader: for
    the albedo map (the texture image of the material when the record has
    none), the metalness map, the normal map and the roughness map, each
    when it is not empty, the shader input of that channel is the path
    materials/textures/<basename of the map>. *)
Theorem native_textures_reach_shader (ignMesh : common.Mesh)
    (subMesh : common.SubMesh) (primName : string)
    (material : common.Material) (pbr : common.Pbr) s :
  common.MaterialIndex subMesh <> -1 ->
  common.MaterialByIndex ignMesh (common.MaterialIndex subMesh) = Some material ->
  material_i s < INT_MAX ->
  common.PbrMaterial material = Some pbr ->
  exists s',
    UpdateMesh_material ignMesh subMesh primName s = Next tt s'
    /\ forall name map,
         (name, map)
         ∈ [("inputs:diffuse_texture",
             if empty (common.AlbedoMap pbr) then common.TextureImage material
             else common.AlbedoMap pbr);
            ("inputs:metallic_texture", common.MetalnessMap pbr);
            ("inputs:normalmap_texture", common.NormalMap pbr);
            ("inputs:reflectionroughness_texture", common.RoughnessMap pbr)] ->
         map <> "" ->
         attrValue (stage s')
                   (materialPathOf (material_i s) ++ "/Shader")%string name
         = Some (pxr.VAsset
                   (joinPaths (joinPaths "materials" "textures") (basename map))).
Proof.
  intros Hidx Hmat Hi Hpbr.
  destruct (UpdateMesh_material_total ignMesh subMesh primName material s
              Hidx Hmat Hi) as (s1 & _ & _ & _ & A & E).
  destruct (chosenWorkflow_convert_pbr material pbr Hpbr)
    as (w & Hw & Wa & Wm & Wn & Wr & _).
  eexists. split; [exact E|]. intros name map Hin Hmap.
  assert (Hin' : (name, map) ∈ textureInputs w).
  { unfold textureInputs. by rewrite Wa, Wm, Wn, Wr. }
  assert (A1 := A w name map Hw Hin' ltac:(by apply String.eqb_neq)).
  destruct (bindCondition (convert material) && _); [|exact A1].
  simpl. by rewrite attrValue_bind.
Qed.


(** X14.  A material path that holds a primitive of another type than
    Material: the material is written all the same, and is never bound,
    whatever it carries; the binding of the geometry stays as it was. *)
Theorem foreign_primitive_never_bound (ignMesh : common.Mesh)
    (subMesh : common.SubMesh) (primName : string)
    (material : common.Material) (foreign : pxr.Prim) s :
  common.MaterialIndex subMesh <> -1 ->
  common.MaterialByIndex ignMesh (common.MaterialIndex subMesh) = Some material ->
  material_i s < INT_MAX ->
  stage s !! materialPathOf (material_i s) = Some foreign ->
  pxr.primTypeName foreign <> "Material" ->
  exists s' evs,
    UpdateMesh_material ignMesh subMesh primName s = Next tt s'
    /\ trace s' = trace s ++ evs
    /\ binds evs = []
    /\ material_i s' = material_i s + 1
    /\ bindingOf (stage s') primName = bindingOf (stage s) primName.
Proof.
  intros Hidx Hmat Hi Hf Ht.
  destruct (UpdateMesh_material_total ignMesh subMesh primName material s
              Hidx Hmat Hi) as (s1 & S1 & C1 & _ & _ & E).
  assert (Hu : usable (stage s) (materialPathOf (material_i s)) = false).
  { unfold usable. rewrite Hf. by apply String.eqb_neq. }
  rewrite Hu, andb_false_r in E.
  destruct (steps_trace _ _ _ _ S1) as (evs & T & F).
  destruct (material_events_quiet _ F) as (_ & B & _).
  exists s1, evs. do 4 (split; [done|]). by eapply steps_binding.
Qed.

(** X15.  The file copied for a texture map: the map is searched under its
    base name, and what is found is the source of the copy; when nothing
    is found the map reference itself is the source.  The destination is
    the path materials/textures/<basename> whatever the source. *)
Theorem texture_copy_source (map : string) s :
  map <> "" ->
  getMaterialCopyPath map <> "" ->
  exists s' dirs copied,
    copyTexture (R := bool * string) map s = Next (getMaterialCopyPath map) s'
    /\ trace s'
       = trace s
         ++ FindFile (basename map)
            :: (CreateDirectories <$> dirs)
            ++ [CopyFile (if empty (findFile_in (world s) (basename map))
                          then map
                          else findFile_in (world s) (basename map))
                         (joinPaths (joinPaths "materials" "textures")
                                    (basename map))
                         copied]
    /\ stage s' = stage s.
Proof.
  intros Hmap Hdest. unfold copyTexture, bind, findFile, bind, gets, modify, ret.
  set (found := findFile_in (world s) (basename map)).
  set (source := if empty found then map else found).
  assert (Hs : empty source = false).
  { subst source. destruct (empty found) eqn:E; [by apply String.eqb_neq|done]. }
  apply String.eqb_neq in Hdest. fold (empty (getMaterialCopyPath map)) in Hdest.
  unfold call, copyMaterial. rewrite Hdest, Hs. cbn [negb andb].
  unfold bind, when_, createDirectories, copyFile, bind, gets, modify, ret, return_.
  destruct (negb (empty (substr0 _ _))).
  - eexists _, [_], _. split; [reflexivity|]. simpl. by rewrite <- !app_assoc.
  - eexists _, [], _. split; [reflexivity|]. simpl. by rewrite <- !app_assoc.
Qed.

(** X30.  From a PBR record [convert] makes one workflow and no second:
    a specular workflow when the type of the record is specular, a metal
    workflow otherwise, also when the record has no type.  The workflow
    carries every map and every scalar of the record, and it is the one
    [ParseSdfMaterial] reads, whose preference for the metal workflow so
    never sets a converted workflow aside. *)
Theorem converted_workflow_is_read (material : common.Material)
    (pbr : common.Pbr) :
  common.PbrMaterial material = Some pbr ->
  exists w,
    chosenWorkflow (convert material) = Some w
    /\ sdf.PbrMaterial (convert material)
       = Some (match common.Type_ pbr with
               | common.PbrType_SPECULAR =>
                   {| sdf.MetalWorkflow := None; sdf.SpecularWorkflow := Some w |}
               | _ =>
                   {| sdf.MetalWorkflow := Some w; sdf.SpecularWorkflow := None |}
               end)
    /\ sdf.Type_ w = match common.Type_ pbr with
                     | common.PbrType_SPECULAR => sdf.SPECULAR
                     | _ => sdf.METAL
                     end
    /\ sdf.NormalMapType w = match common.NormalMapType pbr with
                             | common.TANGENT => sdf.TANGENT
                             | common.OBJECT => sdf.OBJECT
                             end
    /\ (sdf.NormalMap w, sdf.MetalnessMap w, sdf.EmissiveMap w,
        sdf.RoughnessMap w, sdf.SpecularMap w, sdf.EnvironmentMap w,
        sdf.AmbientOcclusionMap w, sdf.LightMap w)
       = (common.NormalMap pbr, common.MetalnessMap pbr, common.EmissiveMap pbr,
          common.RoughnessMap pbr, common.SpecularMap pbr,
          common.EnvironmentMap pbr, common.AmbientOcclusionMap pbr,
          common.LightMap pbr)
    /\ (sdf.Roughness w, sdf.Glossiness w, sdf.Metalness w)
       = (common.Roughness pbr, common.Glossiness pbr, common.Metalness pbr)
    /\ sdf.NormalMap_ (convert material) = common.NormalMap pbr.
Proof.
  intros Hpbr. unfold chosenWorkflow, convert. rewrite Hpbr.
  destruct (common.Type_ pbr), (common.NormalMapType pbr);
    eexists; (split; [reflexivity|]); simpl; done.
Qed.

End NativeMaterials.

(** ** The mesh reference, from its name to the asset *)

Section Resolution.

Context `{GzCommon}.

Implicit Types (s : State).

Lemma env_HOME {R} (home : string) s :
  getenv (world s) "HOME" = Some home -> home <> "" ->
  env (R := R) "HOME" false s = Next (Some home) s.
Proof.
  intros Hh Hne. unfold env, gets. rewrite Hh.
  apply String.eqb_neq in Hne. by rewrite Hne.
Qed.

Lemma local_scheme (uri : string) :
  URI_Scheme uri <> "https" -> URI_Scheme uri <> "http" ->
  String.eqb (URI_Scheme uri) "https" || String.eqb (URI_Scheme uri) "http" = false.
Proof.
  intros H1 H2. apply orb_false_iff. by split; apply String.eqb_neq.
Qed.

(** X16.  A local mesh reference that is found neither under its name nor under
    its base name: the call searches twice, in this order, writes a notice
    and then an error, and returns false; it loads nothing, registers no
    search location, and leaves the stage and the counter as they were. *)
Theorem local_reference_not_found (_meshMsg : msgs.MeshGeom) (_path : string)
    (home : string) s :
  getenv (world s) "HOME" = Some home ->
  home <> "" ->
  URI_Scheme (msgs.filename _meshMsg) <> "https" ->
  URI_Scheme (msgs.filename _meshMsg) <> "http" ->
  findFile_in (world s) (msgs.filename _meshMsg) = "" ->
  findFile_in (world s) (basename (msgs.filename _meshMsg)) = "" ->
  exists s' notice,
    UpdateMesh _meshMsg _path s = Done false s'
    /\ trace s' = trace s ++ [FindFile (msgs.filename _meshMsg);
                              Log Msg notice;
                              FindFile (basename (msgs.filename _meshMsg));
                              Log Err "Couldn't locate file."]
    /\ stage s' = stage s
    /\ world s' = world s
    /\ material_i s' = material_i s.
Proof.
  intros Hh Hne H1 H2 F1 F2.
  unfold UpdateMesh, run, UpdateMesh_body, UpdateMesh_resolve.
  unfold bind at 1. unfold bind at 1. rewrite (env_HOME home) by done.
  rewrite local_scheme by done.
  unfold localFullname, bind, findFile, bind, gets, modify, ignmsg, ignerr,
    modify, ret, return_.
  cbn [world record with_world]. rewrite F1.
  change (empty "") with true. cbv beta iota.
  cbn [world record with_world]. rewrite F2.
  change (empty "") with true. cbv beta iota.
  eexists _, _. split; [reflexivity|]. cbn [trace record stage world material_i].
  by rewrite <- !app_assoc.
Qed.

(** X17.  A local mesh reference is searched under its name first and, only
    when that finds nothing, under its base name; the first name found is
    the file that is loaded.  No search location is registered, and the
    stage is not touched before the asset is loaded. *)
Theorem local_reference_resolution (_meshMsg : msgs.MeshGeom) (_path : string)
    (home : string) s :
  getenv (world s) "HOME" = Some home ->
  home <> "" ->
  URI_Scheme (msgs.filename _meshMsg) <> "https" ->
  URI_Scheme (msgs.filename _meshMsg) <> "http" ->
  let first := findFile_in (world s) (msgs.filename _meshMsg) in
  let second := findFile_in (world s) (basename (msgs.filename _meshMsg)) in
  let fullname := if empty first then second else first in
  fullname <> "" ->
  exists s1 evs,
    UpdateMesh_resolve _meshMsg s = Next fullname s1
    /\ UpdateMesh _meshMsg _path s
       = run (UpdateMesh_convert _meshMsg _path fullname) s1
    /\ trace s1 = trace s ++ evs
    /\ searches evs = (if empty first
                       then [msgs.filename _meshMsg;
                             basename (msgs.filename _meshMsg)]
                       else [msgs.filename _meshMsg])
    /\ registered evs = []
    /\ stage s1 = stage s
    /\ world s1 = world s
    /\ material_i s1 = material_i s.
Proof.
  intros Hh Hne H1 H2 first second fullname Hf.
  assert (exists s1, UpdateMesh_resolve _meshMsg s = Next fullname s1
            /\ (exists evs, trace s1 = trace s ++ evs
                  /\ searches evs = (if empty first
                                     then [msgs.filename _meshMsg;
                                           basename (msgs.filename _meshMsg)]
                                     else [msgs.filename _meshMsg])
                  /\ registered evs = [])
            /\ stage s1 = stage s /\ world s1 = world s
            /\ material_i s1 = material_i s) as (s1 & E & (evs & T & S & G) & K).
  { unfold UpdateMesh_resolve. unfold bind at 1.
    rewrite (env_HOME home) by done. rewrite local_scheme by done.
    unfold localFullname, bind, findFile, bind, gets, modify, ignmsg, ignerr,
      modify, ret, return_.
    cbn [world record with_world]. fold first. subst fullname.
    destruct (empty first) eqn:E1; cbv beta iota.
    - cbn [world record with_world]. fold second.
      apply String.eqb_neq in Hf. unfold empty at 1. rewrite Hf.
      eexists. split; [reflexivity|]. split; [|done].
      eexists. cbn [trace record]. rewrite <- !app_assoc. split; [reflexivity|].
      done.
    - eexists. split; [reflexivity|]. split; [|done].
      eexists. cbn [trace record]. rewrite <- !app_assoc. split; [reflexivity|].
      done. }
  exists s1, evs. split; [exact E|]. split; [|by repeat split; try apply K].
  unfold UpdateMesh, UpdateMesh_body, run, bind. by rewrite E.
Qed.

(** X18.  A remote mesh reference whose URI path has fewer than six segments:
    the segments are read by position without a test of their number, so
    the behaviour of the call is undefined. *)
Theorem remote_reference_too_short (_meshMsg : msgs.MeshGeom) (_path : string)
    (home : string) s :
  getenv (world s) "HOME" = Some home ->
  home <> "" ->
  URI_Scheme (msgs.filename _meshMsg) = "https"
  \/ URI_Scheme (msgs.filename _meshMsg) = "http" ->
  (length (split (URI_Path (msgs.filename _meshMsg)) "/") < 6)%nat ->
  UpdateMesh _meshMsg _path s = Crash.
Proof.
  intros Hh Hne Hscheme Hl.
  unfold UpdateMesh, run, UpdateMesh_body, UpdateMesh_resolve.
  unfold bind at 1. unfold bind at 1. rewrite (env_HOME home) by done.
  replace (String.eqb (URI_Scheme (msgs.filename _meshMsg)) "https"
           || String.eqb (URI_Scheme (msgs.filename _meshMsg)) "http")
    with true
    by (symmetry; destruct Hscheme as [-> | ->]; [done|apply orb_true_r]).
  unfold remoteFullname.
  destruct (split (URI_Path (msgs.filename _meshMsg)) "/")
    as [|t0 [|t1 [|t2 [|t3 [|t4 [|t5 rest]]]]]]; try done.
  simpl in Hl. lia.
Qed.

(** X19.  The result of the load is not tested: when the loader returns no
    asset for the file the reference resolved to, the behaviour of the
    call is undefined. *)
Theorem asset_not_loaded (_meshMsg : msgs.MeshGeom) (_path fullname : string)
    s s1 :
  UpdateMesh_resolve _meshMsg s = Next fullname s1 ->
  Load_from (world s1) fullname = None ->
  UpdateMesh _meshMsg _path s = Crash.
Proof.
  intros E Hl. unfold UpdateMesh, run, UpdateMesh_body. unfold bind at 1.
  rewrite E. unfold UpdateMesh_convert, bind, Load, bind, gets. by rewrite Hl.
Qed.

(** X20.  An asset without submeshes: the call returns true, having loaded the
    asset and done nothing else. *)
Theorem asset_without_submeshes (_meshMsg : msgs.MeshGeom)
    (_path fullname : string) (ignMesh : common.Mesh) s s1 :
  UpdateMesh_resolve _meshMsg s = Next fullname s1 ->
  Load_from (world s1) fullname = Some ignMesh ->
  common.SubMeshes ignMesh = [] ->
  UpdateMesh _meshMsg _path s
  = Done true (record (LoadMesh fullname (Some ignMesh)) s1).
Proof.
  intros E Hl Hs. unfold UpdateMesh, run, UpdateMesh_body. unfold bind at 1.
  rewrite E. unfold UpdateMesh_convert, bind, Load, bind, gets, modify, ret.
  rewrite Hl. cbv beta iota. unfold common.SubMeshCount. rewrite Hs. reflexivity.
Qed.

End Resolution.

(** ** The shader of a material *)

Section Shader.

Context `{GzCommon}.

Implicit Types (s : State).

Lemma wp_input {B} (p n : string) (ty : pxr.SdfValueTypeName) (v : pxr.VtValue)
    (cd : list (string * pxr.VtValue)) (dn dg doc cs text mp : string)
    (k : M (bool * string) B) Q QR s :
  pxr.IsA "Shader" p (stage s) = true ->
  (forall s',
     steps true (String.eqb ("inputs:" ++ n)%string) s s' ->
     attrValue (stage s') p ("inputs:" ++ n)%string = Some v ->
     wp False k Q QR s') ->
  wp False (success <- call (CreateMaterialInput p n ty v cd dn dg doc cs) ;;
            check success text mp ;; k) Q QR s.
Proof.
  intros Hp Hk.
  destruct (CreateMaterialInput_spec p n ty v cd dn dg doc cs s Hp)
    as (s' & E & S & A).
  eapply wp_bind_Next; [apply call_Return; exact E|].
  eapply wp_bind_Next; [reflexivity|]. by apply Hk.
Qed.

Lemma wp_input_last (p n : string) (ty : pxr.SdfValueTypeName) (v : pxr.VtValue)
    (cd : list (string * pxr.VtValue)) (dn dg doc cs text mp : string)
    (Q : unit -> State -> Prop) QR s :
  pxr.IsA "Shader" p (stage s) = true ->
  (forall s',
     steps true (String.eqb ("inputs:" ++ n)%string) s s' ->
     attrValue (stage s') p ("inputs:" ++ n)%string = Some v ->
     Q tt s') ->
  wp False (success <- call (CreateMaterialInput p n ty v cd dn dg doc cs) ;;
            check success text mp) Q QR s.
Proof.
  intros Hp Hk.
  destruct (CreateMaterialInput_spec p n ty v cd dn dg doc cs s Hp)
    as (s' & E & S & A).
  eapply wp_bind_Next; [apply call_Return; exact E|]. by apply Hk.
Qed.

Lemma wp_texture {B} (p mp map name dn dg cs text : string)
    (k : M (bool * string) B) Q QR s :
  pxr.IsA "Shader" p (stage s) = true ->
  (forall s',
     steps true (String.eqb ("inputs:" ++ name)%string) s s' ->
     wp False k Q QR s') ->
  wp False (textureBlock p mp map name dn dg cs text ;; k) Q QR s.
Proof.
  intros Hp Hk.
  destruct (textureBlock_spec p mp map name dn dg cs text s Hp) as (s' & E & S & _).
  eapply wp_bind_Next; [exact E|]. by apply Hk.
Qed.

Lemma steps_among q (names : list string) (name : string) s s' :
  among names name = true ->
  steps true (String.eqb name) s s' -> steps q (among names) s s'.
Proof.
  intros Hin. apply steps_mono; [done|].
  intros n Hn. apply String.eqb_eq in Hn. by subst.
Qed.

Lemma steps_among_app q (l1 l2 : list string) s s' :
  steps q (among l2) s s' -> steps q (among (l1 ++ l2)) s s'.
Proof.
  apply steps_mono; [done|]. intros n Hn. unfold among in *.
  by rewrite existsb_app, Hn, orb_true_r.
Qed.

(** The inputs a PBR workflow gives the shader. *)
Lemma ParseSdfMaterial_pbr_inputs (w : sdf.PbrWorkflow) (p mp : string) s :
  pxr.IsA "Shader" p (stage s) = true ->
  wp False (ParseSdfMaterial_pbr w p mp)
     (fun _ s' =>
        steps true (among pbrInputs) s s'
        /\ attrValue (stage s') p "inputs:metallic_constant"
           = Some (pxr.VFloat (sdf.Metalness w))
        /\ attrValue (stage s') p "inputs:reflection_roughness_constant"
           = Some (pxr.VFloat (sdf.Roughness w))
        /\ (empty (sdf.RoughnessMap w) = false ->
            attrValue (stage s') p "inputs:reflection_roughness_texture_influence"
            = Some (pxr.VBool true)))
     (fun _ _ => False) s.
Proof.
  intros Hp. unfold ParseSdfMaterial_pbr.
  apply wp_input; [exact Hp|]. intros s1 S1 A1.
  apply wp_input; [by rewrite (steps_quiet_IsA _ _ _ _ _ S1)|]. intros s2 S2 A2.
  eapply attr_kept in A1; [|exact S2|reflexivity].
  apply (steps_among true pbrInputs) in S1; [|reflexivity].
  apply (steps_among true pbrInputs) in S2; [|reflexivity].
  assert (S02 := steps_trans _ _ _ _ _ S1 S2). clear S1 S2.
  fold_textureBlock.
  apply wp_texture; [by rewrite (steps_quiet_IsA _ _ _ _ _ S02)|]. intros s3 S3.
  eapply attr_kept in A1; [|exact S3|reflexivity].
  eapply attr_kept in A2; [|exact S3|reflexivity].
  apply (steps_among true pbrInputs) in S3; [|reflexivity].
  assert (S03 := steps_trans _ _ _ _ _ S02 S3). clear S02 S3.
  fold_textureBlock.
  apply wp_texture; [by rewrite (steps_quiet_IsA _ _ _ _ _ S03)|]. intros s4 S4.
  eapply attr_kept in A1; [|exact S4|reflexivity].
  eapply attr_kept in A2; [|exact S4|reflexivity].
  apply (steps_among true pbrInputs) in S4; [|reflexivity].
  assert (S04 := steps_trans _ _ _ _ _ S03 S4). clear S03 S4.
  fold_textureBlock.
  apply wp_texture; [by rewrite (steps_quiet_IsA _ _ _ _ _ S04)|]. intros s5 S5.
  eapply attr_kept in A1; [|exact S5|reflexivity].
  eapply attr_kept in A2; [|exact S5|reflexivity].
  apply (steps_among true pbrInputs) in S5; [|reflexivity].
  assert (S05 := steps_trans _ _ _ _ _ S04 S5). clear S04 S5.
  assert (P5 : pxr.IsA "Shader" p (stage s5) = true)
    by (by rewrite (steps_quiet_IsA _ _ _ _ _ S05)).
  destruct (empty (sdf.RoughnessMap w)) eqn:Er; cbn [negb].
  { unfold wp. simpl. done. }
  destruct (copyTexture_spec (R := bool * string)
              (String.eqb "inputs:reflectionroughness_texture")
              (sdf.RoughnessMap w) s5) as (s6 & E6 & S6).
  eapply wp_bind_Next; [exact E6|].
  eapply attr_kept in A1; [|exact S6|reflexivity].
  eapply attr_kept in A2; [|exact S6|reflexivity].
  assert (P6 : pxr.IsA "Shader" p (stage s6) = true)
    by (by rewrite (steps_quiet_IsA _ _ _ _ _ S6)).
  apply (steps_among true pbrInputs) in S6; [|reflexivity].
  assert (S06 := steps_trans _ _ _ _ _ S05 S6).
  apply wp_input; [exact P6|]. intros s7 S7 _.
  eapply attr_kept in A1; [|exact S7|reflexivity].
  eapply attr_kept in A2; [|exact S7|reflexivity].
  assert (P7 : pxr.IsA "Shader" p (stage s7) = true)
    by (by rewrite (steps_quiet_IsA _ _ _ _ _ S7)).
  apply (steps_among true pbrInputs) in S7; [|reflexivity].
  assert (S07 := steps_trans _ _ _ _ _ S06 S7).
  apply wp_input_last; [exact P7|].
  intros s8 S8 A8.
  eapply attr_kept in A1; [|exact S8|reflexivity].
  eapply attr_kept in A2; [|exact S8|reflexivity].
  apply (steps_among true pbrInputs) in S8; [|reflexivity].
  split; [by eapply steps_trans|]. done.
Qed.

Lemma chosen_pbr_inputs (m : sdf.Material) (p mp : string) s :
  pxr.IsA "Shader" p (stage s) = true ->
  wp False
     (match sdf.PbrMaterial m with
      | Some pbr =>
          let pbrWorkflow :=
            match sdf.Workflow pbr sdf.METAL with
            | Some w => Some w
            | None => sdf.Workflow pbr sdf.SPECULAR
            end in
          match pbrWorkflow with
          | Some pbrWorkflow => ParseSdfMaterial_pbr pbrWorkflow p mp
          | None => ret tt
          end
      | None => ret tt
      end)
     (fun _ s' =>
        steps true (among pbrInputs) s s'
        /\ forall w, chosenWorkflow m = Some w ->
             attrValue (stage s') p "inputs:metallic_constant"
             = Some (pxr.VFloat (sdf.Metalness w))
             /\ attrValue (stage s') p "inputs:reflection_roughness_constant"
                = Some (pxr.VFloat (sdf.Roughness w))
             /\ (empty (sdf.RoughnessMap w) = false ->
                 attrValue (stage s') p
                           "inputs:reflection_roughness_texture_influence"
                 = Some (pxr.VBool true)))
     (fun _ _ => False) s.
Proof.
  intros Hp. unfold chosenWorkflow.
  destruct (sdf.PbrMaterial m) as [pbr|]; cbv zeta.
  - destruct (match sdf.Workflow pbr sdf.METAL with
              | Some w => Some w
              | None => sdf.Workflow pbr sdf.SPECULAR
              end) as [w|].
    + eapply wp_mono; [by apply ParseSdfMaterial_pbr_inputs| |done].
      intros _ s' (S & A). split; [done|]. by intros w' [= <-].
    + split; [apply steps_refl|done].
  - split; [apply steps_refl|done].
Qed.

(** What [ParseSdfMaterial] writes, attribute by attribute. *)
Lemma ParseSdfMaterial_inputs (m : sdf.Material) s :
  material_i s < INT_MAX ->
  wp False (ParseSdfMaterial m) (fun _ _ => False)
     (fun r s' =>
        let shader := (materialPathOf (material_i s) ++ "/Shader")%string in
        r = (true, materialPathOf (material_i s))
        /\ steps false (among (baseAttributes ++ pbrInputs)) s s'
        /\ attrValue (stage s') shader "inputs:diffuse_color_constant"
           = Some (Color3f (sdf.Diffuse m))
        /\ attrValue (stage s') shader "inputs:emissive_color"
           = Some (Color3f (sdf.Emissive m))
        /\ attrValue (stage s') shader "inputs:enable_emission"
           = Some (pxr.VBool (negb (Qle_bool (math.A (sdf.Emissive m)) 0)))
        /\ attrValue (stage s') shader "inputs:emissive_intensity"
           = Some (pxr.VFloat (math.A (sdf.Emissive m)))
        /\ attrValue (stage s') shader "info:mdl:sourceAsset"
           = Some (pxr.VAsset "OmniPBR.mdl")
        /\ forall w, chosenWorkflow m = Some w ->
             attrValue (stage s') shader "inputs:metallic_constant"
             = Some (pxr.VFloat (sdf.Metalness w))
             /\ attrValue (stage s') shader "inputs:reflection_roughness_constant"
                = Some (pxr.VFloat (sdf.Roughness w))
             /\ (empty (sdf.RoughnessMap w) = false ->
                 attrValue (stage s') shader
                           "inputs:reflection_roughness_texture_influence"
                 = Some (pxr.VBool true)))
     s.
Proof.
  intros Hi. unfold ParseSdfMaterial.
  set (N := among (baseAttributes ++ pbrInputs)).
  eapply wp_bind_Next; [reflexivity|].
  destruct (when_missing_spec (R := bool * string) N
              "/Looks" "Scope" s) as (s1 & E1 & S1 & C1 & _ & _ & L1); [done|].
  eapply wp_bind_Next; [exact E1|].
  eapply wp_bind_Next; [reflexivity|]. cbv beta.
  rewrite C1. fold (materialPathOf (material_i s)).
  set (mp := materialPathOf (material_i s)) in *.
  eapply wp_bind_Next.
  { apply Z.ltb_lt in Hi. rewrite Hi. reflexivity. }
  eapply wp_bind_Next; [reflexivity|].
  set (s2 := with_material_i (material_i s + 1) s1).
  destruct (when_missing_spec (R := bool * string) N
              mp "Material" s2) as (s3 & E3 & S3 & C3 & L3 & T3 & _); [done|].
  eapply wp_bind_Next; [exact E3|].
  eapply wp_bind_Next; [reflexivity|].
  eapply wp_bind_Next; [reflexivity|].
  eapply wp_bind_Next.
  { simpl. rewrite bool_decide_true by apply lookup_define_eq. reflexivity. }
  do 7 (eapply wp_bind_Next; [reflexivity|]).
  match goal with |- wp _ _ _ _ ?s4' => set (s4 := s4') end.
  assert (S4 : steps false N s3 s4) by (subst s4 N; steps_auto).
  assert (P4 : pxr.IsA "Shader" (mp ++ "/Shader")%string (stage s4) = true).
  { subst s4. simpl. by rewrite !IsA_author, IsA_define_eq. }
  assert (A4 : attrValue (stage s4) (mp ++ "/Shader")%string "info:mdl:sourceAsset"
               = Some (pxr.VAsset "OmniPBR.mdl")).
  { subst s4. simpl. rewrite attrValue_author_ne by done.
    apply attrValue_author_eq; [|done].
    rewrite !lookup_alter_is_Some. apply lookup_define_eq. }
  assert (S04 : steps false N s s4).
  { eapply steps_trans; [exact S1|]. eapply steps_trans; [|exact S4].
    eapply steps_trans; [|exact S3]. subst s2.
    eapply rtc_r; [apply rtc_refl|]. rewrite <- C1. by apply step_incr. }
  clearbody s4. clear S4 E3 S3 C3 T3 E1 S1 L1 L3 s2 C1.
  apply wp_input; [exact P4|]. intros s5 S5 A5.
  apply wp_input; [by rewrite (steps_quiet_IsA _ _ _ _ _ S5)|]. intros s6 S6 A6.
  apply wp_input;
    [by rewrite (steps_quiet_IsA _ _ _ _ _ S6), (steps_quiet_IsA _ _ _ _ _ S5)|].
  intros s7 S7 A7.
  apply wp_input;
    [by rewrite (steps_quiet_IsA _ _ _ _ _ S7), (steps_quiet_IsA _ _ _ _ _ S6),
          (steps_quiet_IsA _ _ _ _ _ S5)|].
  intros s8 S8 A8.
  assert (P8 : pxr.IsA "Shader" (mp ++ "/Shader")%string (stage s8) = true).
  { by rewrite (steps_quiet_IsA _ _ _ _ _ S8), (steps_quiet_IsA _ _ _ _ _ S7),
         (steps_quiet_IsA _ _ _ _ _ S6), (steps_quiet_IsA _ _ _ _ _ S5). }
  eapply attr_kept in A4; [|exact S5|reflexivity].
  eapply attr_kept in A4; [|exact S6|reflexivity].
  eapply attr_kept in A4; [|exact S7|reflexivity].
  eapply attr_kept in A4; [|exact S8|reflexivity].
  eapply attr_kept in A5; [|exact S6|reflexivity].
  eapply attr_kept in A5; [|exact S7|reflexivity].
  eapply attr_kept in A5; [|exact S8|reflexivity].
  eapply attr_kept in A6; [|exact S7|reflexivity].
  eapply attr_kept in A6; [|exact S8|reflexivity].
  eapply attr_kept in A7; [|exact S8|reflexivity].
  apply (steps_among false (baseAttributes ++ pbrInputs)) in S5; [|reflexivity].
  apply (steps_among false (baseAttributes ++ pbrInputs)) in S6; [|reflexivity].
  apply (steps_among false (baseAttributes ++ pbrInputs)) in S7; [|reflexivity].
  apply (steps_among false (baseAttributes ++ pbrInputs)) in S8; [|reflexivity].
  assert (S08 : steps false N s s8).
  { eapply steps_trans; [exact S04|]. eapply steps_trans; [exact S5|].
    eapply steps_trans; [exact S6|]. by eapply steps_trans. }
  clear S04 S5 S6 S7 S8.
  apply wp_bind.
  eapply wp_mono; [apply chosen_pbr_inputs; exact P8| |done].
  intros _ s9 [S9 A9]. apply wp_return. cbv zeta.
  eapply attr_kept in A4; [|exact S9|reflexivity].
  eapply attr_kept in A5; [|exact S9|reflexivity].
  eapply attr_kept in A6; [|exact S9|reflexivity].
  eapply attr_kept in A7; [|exact S9|reflexivity].
  eapply attr_kept in A8; [|exact S9|reflexivity].
  split; [done|]. split.
  { eapply steps_trans; [exact S08|].
    apply steps_among_app. by eapply steps_mono; [| |exact S9]. }
  done.
Qed.


(** X22.  [ParseSdfMaterial] changes the value of no attribute but those of
    its own list: on any primitive, an attribute under another name (an
    input for the emissive, the specular, the environment, the ambient
    occlusion or the light map, say, or an attribute of the geometry) has
    the value it had. *)
Theorem shader_attributes_only (m : sdf.Material) s (r : bool * string) s' :
  run (ParseSdfMaterial m) s = Done r s' ->
  forall p name,
    among (baseAttributes ++ pbrInputs) name = false ->
    attrValue (stage s') p name = attrValue (stage s) p name.
Proof.
  intros Hrun p name Hn.
  destruct (decide (material_i s < INT_MAX)) as [Hi|Hi].
  - pose proof (ParseSdfMaterial_inputs m s Hi) as Hp.
    unfold wp in Hp. unfold run in Hrun.
    destruct (ParseSdfMaterial m s) as [|r' s''|]; [done| |done].
    simplify_eq. cbv zeta in Hp. destruct Hp as (_ & S & _).
    by eapply steps_attr.
  - unfold run in Hrun. by rewrite ParseSdfMaterial_overflow in Hrun.
Qed.

End Shader.

(** ** The loop over the submeshes, further *)

Section Loop.

Context `{GzCommon}.

Implicit Types (s : State).

Lemma material_events_plain (evs : list Event) :
  forallb material_event evs = true ->
  errors evs = [] /\ loads evs = [] /\ meshDefines evs = [].
Proof.
  induction evs as [|e evs IH]; [done|]. simpl.
  intros [He Hevs]%andb_true_iff. destruct (IH Hevs) as (I1 & I2 & I3).
  unfold errors, loads, meshDefines in *.
  destruct e; simpl in *; rewrite ?I1, ?I2, ?I3; try done.
  by destruct (String.eqb typeName "Mesh").
Qed.

Lemma attrValue_author_same p name q n ty (f : pxr.Attribute -> pxr.Attribute)
    (st : pxr.Stage) :
  (forall a, pxr.value (f a) = pxr.value a) ->
  attrValue (alter (pxr.authorAttribute n ty f) q st) p name = attrValue st p name.
Proof.
  intros Hf. destruct (decide (n = name)) as [->|Hne];
    [|by apply attrValue_author_ne].
  unfold attrValue. rewrite lookup_alter. case_decide; [subst|done].
  destruct (st !! p) as [pr|]; simpl; [|done].
  rewrite lookup_insert_eq. simpl. rewrite Hf.
  by destruct (pxr.attributes pr !! name).
Qed.

(** What the material step of a submesh adds to the record of the run,
    and what it leaves of the attributes. *)
Lemma UpdateMesh_material_account (ignMesh : common.Mesh)
    (subMesh : common.SubMesh) (primName : string) s :
  wp True (UpdateMesh_material ignMesh subMesh primName)
     (fun _ s' =>
        (exists evs,
           trace s' = trace s ++ evs
           /\ errors evs = [] /\ loads evs = [] /\ meshDefines evs = [])
        /\ material_i s' = material_i s + (if withMaterial subMesh then 1 else 0)
        /\ (forall p, is_Some (stage s !! p) -> is_Some (stage s' !! p))
        /\ forall p name, material_attr name = false ->
             attrValue (stage s') p name = attrValue (stage s) p name)
     (fun _ _ => False) s.
Proof.
  unfold withMaterial.
  destruct (decide (common.MaterialIndex subMesh = -1)) as [E|Hidx].
  { unfold UpdateMesh_material, wp. rewrite E. simpl.
    split; [exists []; by rewrite app_nil_r|]. split; [lia|done]. }
  destruct (common.MaterialByIndex ignMesh (common.MaterialIndex subMesh))
    as [material|] eqn:Hmat.
  2: { unfold UpdateMesh_material, wp. apply Z.eqb_neq in Hidx.
       by rewrite Hidx, Hmat. }
  destruct (decide (material_i s < INT_MAX)) as [Hi|Hi].
  - destruct (UpdateMesh_material_total ignMesh subMesh primName material s
                Hidx Hmat Hi) as (s1 & S1 & C1 & _ & _ & E).
    unfold wp. rewrite E. apply Z.eqb_neq in Hidx. rewrite Hidx. cbn [negb].
    destruct (steps_trace _ _ _ _ S1) as (evs & T & F).
    destruct (material_events_plain _ F) as (F1 & F2 & F3).
    destruct (bindCondition (convert material) && usable _ _).
    + split; [|split; [done|split]].
      * exists (evs ++ [Bind primName (materialPathOf (material_i s))]).
        simpl. rewrite T, <- app_assoc. split; [done|].
        unfold errors, loads, meshDefines in *.
        by rewrite !omap_app, F1, F2, F3.
      * intros p Hp. simpl. apply lookup_alter_is_Some. by eapply steps_lookup.
      * intros p name Hn. simpl. rewrite attrValue_bind. by eapply steps_attr.
    + split; [by exists evs|]. split; [done|]. split.
      * intros p Hp. by eapply steps_lookup.
      * intros p name Hn. by eapply steps_attr.
  - unfold UpdateMesh_material, wp. apply Z.eqb_neq in Hidx.
    rewrite Hidx, Hmat. simpl. unfold bind at 1. unfold call.
    by rewrite ParseSdfMaterial_overflow.
Qed.

(** One iteration of the second loop, in full. *)
Lemma UpdateMesh_submesh_account (_meshMsg : msgs.MeshGeom) (_path : string)
    (ignMesh : common.Mesh) (flag : bool) (i : nat) s :
  wp True (UpdateMesh_submesh _meshMsg _path ignMesh flag i)
     (fun _ s' =>
        exists subMesh,
          common.SubMeshByIndex ignMesh i = Some subMesh
          /\ if kept _path ignMesh flag subMesh then
               let primName := primNameOf _path subMesh in
               supported subMesh = true
               /\ (exists evs,
                     trace s' = trace s ++ Define primName "Mesh" :: evs
                     /\ errors evs = [] /\ loads evs = [] /\ meshDefines evs = [])
               /\ material_i s'
                  = material_i s + (if withMaterial subMesh then 1 else 0)
               /\ attrValue (stage s') primName "points"
                  = Some (pxr.VVec3fArray (GfVec3f <$> common.Vertices subMesh))
               /\ attrValue (stage s') primName "faceVertexIndices"
                  = Some (pxr.VIntArray (common.Indices subMesh))
               /\ (exists verticesPerFace numFaces,
                     faces (common.SubMeshPrimitiveType subMesh)
                           (common.IndexCount subMesh)
                     = Some (verticesPerFace, numFaces)
                     /\ attrValue (stage s') primName "faceVertexCounts"
                        = Some (pxr.VIntArray
                                  (replicate numFaces (Z.of_nat verticesPerFace))))
               /\ attrValue (stage s') primName "primvars:st"
                  = Some (pxr.VVec2fArray
                            ((fun uv => (math.U uv, 1 - math.V uv)%Q)
                               <$> common.TexCoords subMesh))
               /\ attrValue (stage s') primName "normals"
                  = Some (pxr.VVec3fArray (GfVec3f <$> common.Normals subMesh))
               /\ attrValue (stage s') primName "subdivisionScheme"
                  = Some (pxr.VToken "none")
               /\ attrValue (stage s') primName "extent"
                  = Some (pxr.VVec3fArray [GfVec3f (common.Min ignMesh);
                                           GfVec3f (common.Max ignMesh)])
               /\ attrValue (stage s') primName "xformOp:scale"
                  = Some (pxr.VVec3f (math.X (msgs.scale _meshMsg))
                                     (math.Y (msgs.scale _meshMsg))
                                     (math.Z (msgs.scale _meshMsg)))
             else s' = s)
     (fun r s' => r = false /\ exists text, s' = record (Log Err text) s)
     s.
Proof.
  unfold UpdateMesh_submesh.
  destruct (common.SubMeshByIndex ignMesh i) as [subMesh|] eqn:Hsub.
  2: { unfold wp. simpl. eauto. }
  fold (kept _path ignMesh flag subMesh).
  unfold kept.
  destruct (flag && negb (common.SubMeshCount ignMesh =? 1)%nat
            && negb (pathNamesSubMesh _path subMesh)) eqn:Hk; simpl.
  { unfold wp. simpl. exists subMesh. split; [done|]. unfold kept. by rewrite Hk. }
  unfold supported.
  destruct (faces (common.SubMeshPrimitiveType subMesh) (common.IndexCount subMesh))
    as [[verticesPerFace numFaces]|] eqn:Hf.
  2: { unfold wp. simpl. eauto. }
  do 9 (eapply wp_bind_Next; [reflexivity|]).
  match goal with |- wp _ _ _ _ ?sa' => set (sa := sa') end.
  set (pn := primNameOf _path subMesh) in *.
  assert (Ta : trace sa = trace s ++ [Define pn "Mesh"]) by done.
  assert (Ca : material_i sa = material_i s) by done.
  assert (La : is_Some (stage sa !! pn)).
  { subst sa. simpl. rewrite !lookup_alter_is_Some. apply lookup_define_eq. }
  assert (Aa : attrValue (stage sa) pn "points"
               = Some (pxr.VVec3fArray (GfVec3f <$> common.Vertices subMesh))
               /\ attrValue (stage sa) pn "faceVertexIndices"
                  = Some (pxr.VIntArray (common.Indices subMesh))
               /\ attrValue (stage sa) pn "faceVertexCounts"
                  = Some (pxr.VIntArray
                            (replicate numFaces (Z.of_nat verticesPerFace)))
               /\ attrValue (stage sa) pn "primvars:st"
                  = Some (pxr.VVec2fArray
                            ((fun uv => (math.U uv, 1 - math.V uv)%Q)
                               <$> common.TexCoords subMesh))
               /\ attrValue (stage sa) pn "normals"
                  = Some (pxr.VVec3fArray (GfVec3f <$> common.Normals subMesh))
               /\ attrValue (stage sa) pn "subdivisionScheme"
                  = Some (pxr.VToken "none")
               /\ attrValue (stage sa) pn "extent"
                  = Some (pxr.VVec3fArray [GfVec3f (common.Min ignMesh);
                                           GfVec3f (common.Max ignMesh)])).
  { subst sa. cbn [stage with_stage record].
    repeat split;
      rewrite ?attrValue_author_ne by done;
      rewrite ?(attrValue_author_same _ _ _ _ _ (pxr.SetInterpolation "vertex"))
        by done;
      rewrite ?attrValue_author_ne by done;
      (apply attrValue_author_eq; [|done]);
      rewrite ?lookup_alter_is_Some; apply lookup_define_eq. }
  clearbody sa. apply wp_bind.
  eapply wp_mono; [apply UpdateMesh_material_account| |done].
  intros _ sm ((evs & T & F1 & F2 & F3) & Cm & Lm & Am). unfold wp, author, modify.
  cbv beta iota.
  exists subMesh. split; [done|]. unfold kept. rewrite Hk.
  cbv beta iota zeta delta [negb]. fold pn.
  split; [apply bool_decide_true; eauto|].
  split; [exists evs; cbn [trace with_stage]; by rewrite T, Ta, <- app_assoc|].
  split; [cbn [material_i with_stage]; by rewrite Cm, Ca|].
  cbn [stage with_stage].
  destruct Aa as (A1 & A2 & A2' & A3 & A4 & A5 & A6).
  rewrite !attrValue_author_ne by done. rewrite !Am by done.
  do 2 (split; [done|]). split; [by exists verticesPerFace, numFaces|].
  do 4 (split; [done|]).
  apply attrValue_author_eq; [|done]. by apply Lm.
Qed.

Lemma UpdateMesh_loop_account (_meshMsg : msgs.MeshGeom) (_path : string)
    (ignMesh : common.Mesh) (flag : bool) (n i : nat) s :
  (i + n = common.SubMeshCount ignMesh)%nat ->
  wp True (UpdateMesh_loop _meshMsg _path ignMesh flag n i)
     (fun _ s' =>
        (exists evs,
           trace s' = trace s ++ evs /\ errors evs = [] /\ loads evs = [])
        /\ material_i s'
           = material_i s
             + Z.of_nat (length (List.filter withMaterial
                                   (List.filter (kept _path ignMesh flag)
                                      (drop i (common.SubMeshes ignMesh))))))
     (fun r s' =>
        r = false
        /\ exists front text,
             trace s' = trace s ++ front ++ [Log Err text]
             /\ errors front = [] /\ loads front = [])
     s.
Proof.
  revert i s. induction n as [|n IH]; intros i s Hn.
  - unfold wp. simpl. unfold common.SubMeshCount in Hn.
    rewrite drop_ge by lia. simpl. split; [exists []; by rewrite app_nil_r|lia].
  - cbn [UpdateMesh_loop]. apply wp_bind.
    eapply wp_mono; [apply UpdateMesh_submesh_account| |].
    + intros _ s1 (subMesh & Hsub & Hk).
      unfold common.SubMeshByIndex in Hsub. rewrite (drop_S _ _ _ Hsub).
      cbn [List.filter].
      assert (exists ev1,
                trace s1 = trace s ++ ev1 /\ errors ev1 = [] /\ loads ev1 = []
                /\ material_i s1
                   = material_i s
                     + (if kept _path ignMesh flag subMesh && withMaterial subMesh
                        then 1 else 0)) as (ev1 & T1 & F1 & G1 & C1).
      { destruct (kept _path ignMesh flag subMesh).
        - destruct Hk as (_ & (evs & T & F & G & _) & C & _).
          exists (Define (primNameOf _path subMesh) "Mesh" :: evs). done.
        - subst s1. exists []. rewrite app_nil_r. simpl. repeat split; lia. }
      eapply wp_mono; [apply (IH (S i) s1); lia| |].
      * intros _ s' [(ev2 & T2 & F2 & G2) C2]. split.
        -- exists (ev1 ++ ev2). rewrite T2, T1, <- app_assoc.
           unfold errors, loads in *. by rewrite !omap_app, F1, F2, G1, G2.
        -- rewrite C2, C1. clear.
           destruct (kept _path ignMesh flag subMesh); cbn [andb List.filter];
             [|lia].
           destruct (withMaterial subMesh); cbn [length]; lia.
      * intros r s' (-> & front & text & T2 & F2 & G2). split; [done|].
        exists (ev1 ++ front), text. rewrite T2, T1, <- !app_assoc.
        unfold errors, loads in *. by rewrite !omap_app, F1, F2, G1, G2.
    + intros r s' (-> & text & ->). split; [done|].
      exists [], text. by rewrite app_nil_l.
Qed.

Lemma UpdateMesh_convert_account (_meshMsg : msgs.MeshGeom)
    (_path fullname : string) s :
  wp True (UpdateMesh_convert _meshMsg _path fullname) (fun _ _ => False)
     (fun b s' =>
        exists ignMesh post,
          Load_from (world s) fullname = Some ignMesh
          /\ trace s' = trace s ++ LoadMesh fullname (Some ignMesh) :: post
          /\ loads post = []
          /\ if b
             then errors post = []
                  /\ material_i s'
                     = material_i s
                       + Z.of_nat (length (List.filter withMaterial
                                             (Spec.selected _path ignMesh)))
             else exists front text,
                    post = front ++ [Log Err text] /\ errors front = [])
     s.
Proof.
  unfold UpdateMesh_convert.
  eapply wp_bind_Next; [reflexivity|].
  destruct (Load_from (world s) fullname) as [ignMesh|] eqn:El; [|done].
  eapply wp_bind_Next; [by apply isUSDPathInSubMeshName_loop_spec|].
  rewrite drop_0. apply wp_bind.
  eapply wp_mono; [by apply UpdateMesh_loop_account| |].
  - intros _ s' [(evs & T & F & G) C]. apply wp_return.
    rewrite drop_0, kept_selected in C.
    exists ignMesh, evs. split; [done|]. split.
    { rewrite T. simpl. by rewrite <- app_assoc. }
    split; [done|]. split; [done|]. exact C.
  - intros r s' (-> & front & text & T & F & G).
    exists ignMesh, (front ++ [Log Err text]). split; [done|]. split.
    { rewrite T. simpl. by rewrite <- !app_assoc. }
    split; [unfold loads in *; by rewrite omap_app, G|]. eauto.
Qed.

Lemma errors_registered (paths : list string) :
  errors (AddFilePaths <$> paths) = [] /\ loads (AddFilePaths <$> paths) = [].
Proof. induction paths as [|p paths [IH1 IH2]]; [done|]. done. Qed.

Lemma UpdateMesh_resolve_account (_meshMsg : msgs.MeshGeom) s :
  wp True (UpdateMesh_resolve _meshMsg)
     (fun _ s1 =>
        exists pre,
          trace s1 = trace s ++ pre /\ errors pre = [] /\ loads pre = []
          /\ material_i s1 = material_i s)
     (fun b s1 =>
        b = false
        /\ exists pre text,
             trace s1 = trace s ++ pre ++ [Log Err text] /\ errors pre = [])
     s.
Proof.
  unfold UpdateMesh_resolve. eapply wp_bind_Next; [reflexivity|].
  destruct (match getenv (world s) "HOME" with
            | Some v => if negb false && String.eqb v "" then None else Some v
            | None => None
            end) as [home|].
  2: { unfold wp. simpl. split; [done|]. by eexists [], _. }
  destruct (String.eqb (URI_Scheme (msgs.filename _meshMsg)) "https"
            || String.eqb (URI_Scheme (msgs.filename _meshMsg)) "http").
  - destruct (split (URI_Path (msgs.filename _meshMsg)) "/")
      as [|t0 [|t1 [|t2 [|t3 [|t4 [|t5 rest]]]]]] eqn:Hs;
      try (unfold wp, remoteFullname; rewrite Hs; done).
    unfold wp. erewrite remoteFullname_spec by exact Hs.
    match goal with |- context [registerAll ?paths s] =>
      destruct (registerAll_trace paths s) as (T & C & _);
      destruct (errors_registered paths) as (F & G);
      exists (AddFilePaths <$> paths)
    end. done.
  - unfold wp, localFullname, bind, findFile, bind. simpl.
    destruct (empty (findFile_in (world s) (msgs.filename _meshMsg))); simpl.
    + destruct (empty (findFile_in (world s) (basename (msgs.filename _meshMsg))));
        simpl.
      * split; [done|]. eexists [_; _; _], _. by rewrite <- !app_assoc.
      * eexists [_; _; _; _]. by rewrite <- !app_assoc.
    + eexists [_; _]. by rewrite <- !app_assoc.
Qed.

(** What every finished call did, in diagnostics and in counter values. *)
Lemma UpdateMesh_account (_meshMsg : msgs.MeshGeom) (_path : string) s b s' :
  UpdateMesh _meshMsg _path s = Done b s' ->
  exists evs,
    trace s' = trace s ++ evs
    /\ if b
       then errors evs = []
            /\ exists ignMesh,
                 loads evs = [Some ignMesh]
                 /\ material_i s'
                    = material_i s
                      + Z.of_nat (length (List.filter withMaterial
                                            (Spec.selected _path ignMesh)))
       else exists front text, evs = front ++ [Log Err text] /\ errors front = [].
Proof.
  unfold UpdateMesh. intros Hrun. pattern b, s'.
  eapply wp_run; [|exact Hrun]. clear Hrun b s'.
  unfold UpdateMesh_body. apply wp_bind.
  eapply wp_mono; [apply UpdateMesh_resolve_account| |].
  - intros fullname s1 (pre & T1 & F1 & G1 & C1).
    eapply wp_mono; [apply UpdateMesh_convert_account|done|].
    intros b s2 (ignMesh & post & _ & T2 & G2 & Hb).
    exists (pre ++ LoadMesh fullname (Some ignMesh) :: post).
    split; [by rewrite T2, T1, <- app_assoc|].
    destruct b.
    + destruct Hb as [F2 C2]. split.
      * unfold errors in *. rewrite omap_app, F1. simpl. exact F2.
      * exists ignMesh. split; [|by rewrite C2, C1].
        unfold loads in *. rewrite omap_app, G1. simpl. f_equal. exact G2.
    + destruct Hb as (front & text & -> & F2).
      exists (pre ++ LoadMesh fullname (Some ignMesh) :: front), text.
      split; [by rewrite <- app_assoc|].
      unfold errors in *. rewrite omap_app, F1. simpl. exact F2.
  - intros b s1 (-> & pre & text & T1 & F1). exists (pre ++ [Log Err text]).
    split; [done|]. by exists pre, text.
Qed.


(** X24.  A call that returns true has raised the counter of material names by
    the number of submeshes it wrote that declare a material: every such
    submesh gets a material primitive of its own, also when several of them
    declare the same material. *)
Theorem UpdateMesh_counter (_meshMsg : msgs.MeshGeom) (_path : string) s s' :
  UpdateMesh _meshMsg _path s = Done true s' ->
  exists evs ignMesh,
    trace s' = trace s ++ evs
    /\ loads evs = [Some ignMesh]
    /\ material_i s'
       = material_i s
         + Z.of_nat (length (List.filter withMaterial
                               (Spec.selected _path ignMesh))).
Proof.
  intros Hrun. destruct (UpdateMesh_account _ _ _ _ _ Hrun) as (evs & T & _ & Hb).
  destruct Hb as (ignMesh & L & C). by exists evs, ignMesh.
Qed.

Lemma UpdateMesh_submesh_total (_meshMsg : msgs.MeshGeom) (_path : string)
    (ignMesh : common.Mesh) (flag : bool) (i : nat) (subMesh : common.SubMesh) s :
  common.SubMeshByIndex ignMesh i = Some subMesh ->
  kept _path ignMesh flag subMesh = true ->
  supported subMesh = true ->
  common.MaterialIndex subMesh = -1
  \/ (is_Some (common.MaterialByIndex ignMesh (common.MaterialIndex subMesh))
      /\ material_i s < INT_MAX) ->
  exists s', UpdateMesh_submesh _meshMsg _path ignMesh flag i s = Next tt s'.
Proof.
  intros Hsub Hk Hs Hm. unfold supported in Hs.
  apply bool_decide_eq_true in Hs as [[vpf nf] Hf].
  unfold UpdateMesh_submesh. rewrite Hsub.
  unfold kept in Hk. apply negb_true_iff in Hk. rewrite Hk, Hf.
  do 9 (unfold bind at 1; cbn [DefinePrim author modify]).
  match goal with |- context [bind (UpdateMesh_material _ _ ?pn) _ ?sa] =>
    assert (Hsa : exists s1, UpdateMesh_material ignMesh subMesh pn sa
                             = Next tt s1)
  end.
  { destruct Hm as [Hm|[[material Hm] Hi]].
    - unfold UpdateMesh_material. rewrite Hm. simpl. eauto.
    - destruct (decide (common.MaterialIndex subMesh = -1)) as [E|Hidx].
      { unfold UpdateMesh_material. rewrite E. simpl. eauto. }
      edestruct (UpdateMesh_material_total ignMesh subMesh) as (s1 & _ & _ & _ & _ & E);
        [exact Hidx|exact Hm| |rewrite E; eauto]. exact Hi. }
  destruct Hsa as [s1 Hsa]. unfold bind at 1. rewrite Hsa. eauto.
Qed.


Lemma sum_replicate (n : nat) (x : Z) :
  foldr Z.add 0 (replicate n x) = Z.of_nat n * x.
Proof. induction n as [|n IH]; [done|]. cbn [replicate foldr]. lia. Qed.

(** X26.  The face-vertex counts are made by a division that drops the
    remainder, and the indices are written in full: the counts add up to
    the number of indices less its remainder by the vertices per face, so
    when the number of indices is not a multiple of the vertices per face,
    the last indices belong to no face. *)
Theorem leftover_indices (_meshMsg : msgs.MeshGeom) (_path : string)
    (ignMesh : common.Mesh) (flag : bool) (i : nat) (subMesh : common.SubMesh)
    (verticesPerFace : nat) s :
  common.SubMeshByIndex ignMesh i = Some subMesh ->
  kept _path ignMesh flag subMesh = true ->
  Spec.verticesPerFace (common.SubMeshPrimitiveType subMesh)
  = Some verticesPerFace ->
  common.MaterialIndex subMesh = -1
  \/ (is_Some (common.MaterialByIndex ignMesh (common.MaterialIndex subMesh))
      /\ material_i s < INT_MAX) ->
  exists s' counts indices,
    UpdateMesh_submesh _meshMsg _path ignMesh flag i s = Next tt s'
    /\ attrValue (stage s') (primNameOf _path subMesh) "faceVertexCounts"
       = Some (pxr.VIntArray counts)
    /\ attrValue (stage s') (primNameOf _path subMesh) "faceVertexIndices"
       = Some (pxr.VIntArray indices)
    /\ length indices = common.IndexCount subMesh
    /\ foldr Z.add 0 counts
       = Z.of_nat (length indices - length indices mod verticesPerFace).
Proof.
  intros Hsub Hk Hv Hm.
  assert (Hf : faces (common.SubMeshPrimitiveType subMesh)
                     (common.IndexCount subMesh)
               = Some (verticesPerFace,
                       (common.IndexCount subMesh / verticesPerFace)%nat)).
  { destruct (common.SubMeshPrimitiveType subMesh);
      cbn [Spec.verticesPerFace faces] in *; simplify_eq;
      by rewrite ?Nat.div_1_r. }
  assert (Hs : supported subMesh = true).
  { unfold supported. rewrite Hf. apply bool_decide_true. eauto. }
  destruct (UpdateMesh_submesh_total _meshMsg _path ignMesh flag i subMesh s
              Hsub Hk Hs Hm) as [s' Hn].
  pose proof (UpdateMesh_submesh_account _meshMsg _path ignMesh flag i s) as Ha.
  unfold wp in Ha. rewrite Hn in Ha.
  destruct Ha as (subMesh' & Hsub' & Ha). simplify_eq.
  rewrite Hk in Ha. cbv zeta in Ha.
  destruct Ha as (_ & _ & _ & _ & A2 & (vpf & nf & Hf' & A3) & _).
  rewrite Hf in Hf'. injection Hf' as <- <-.
  eexists s', _, _. split; [exact Hn|]. split; [exact A3|]. split; [exact A2|].
  split; [done|]. rewrite sum_replicate. fold (common.IndexCount subMesh).
  assert (Hpos : verticesPerFace <> 0%nat)
    by (destruct (common.SubMeshPrimitiveType subMesh); simplify_eq/=; lia).
  pose proof (Nat.div_mod_eq (common.IndexCount subMesh) verticesPerFace). nia.
Qed.

(** X27.  A call whose record shows no load has written nothing: it returned
    false, and the stage and the counter are as they were.  Whatever goes
    wrong before the asset is loaded leaves the scene alone. *)
Theorem no_load_no_write (_meshMsg : msgs.MeshGeom) (_path : string)
    s (b : bool) s' (evs : list Event) :
  UpdateMesh _meshMsg _path s = Done b s' ->
  trace s' = trace s ++ evs ->
  loads evs = [] ->
  b = false /\ stage s' = stage s /\ material_i s' = material_i s
  /\ meshDefines evs = [] /\ binds evs = [].
Proof.
  unfold UpdateMesh. intros Hrun. revert evs. pattern b, s'.
  eapply wp_run; [|exact Hrun]. clear Hrun b s'.
  unfold UpdateMesh_body. apply wp_bind.
  eapply wp_mono; [apply UpdateMesh_resolve_spec| |].
  - intros fullname s1 (pre & T1 & F1 & C1 & S1).
    eapply wp_mono; [apply UpdateMesh_convert_spec|done|].
    intros r s2 (ignMesh & post & _ & T2 & _) evs T L. exfalso.
    rewrite T2, T1, <- app_assoc in T. apply app_inv_head in T. subst evs.
    unfold loads in L. rewrite omap_app in L. by destruct (omap _ pre).
  - intros r s1 (-> & pre & T1 & F1 & C1 & S1) evs T L.
    rewrite T1 in T. apply app_inv_head in T. subst evs.
    destruct (resolution_events_quiet _ F1) as (Q1 & _ & Q3). done.
Qed.



Lemma find_empty (s : string) : Str.find s "" = Some 0%nat.
Proof. by destruct s. Qed.

(** X29.  A submesh without a name is named by every path, the empty string
    being part of every string.  So in an asset of several submeshes of
    which one has no name, the path always counts as naming a submesh, and
    every submesh whose name is not part of the path is skipped. *)
Theorem unnamed_submesh_selects (_meshMsg : msgs.MeshGeom) (_path : string)
    (ignMesh : common.Mesh) (unnamed : common.SubMesh) s :
  common.SubMeshCount ignMesh <> 1%nat ->
  unnamed ∈ common.SubMeshes ignMesh ->
  common.Name unnamed = "" ->
  pathNamesSubMesh _path unnamed = true
  /\ isUSDPathInSubMeshName_loop (R := bool) ignMesh _path
       (common.SubMeshCount ignMesh) 0 s
     = Next true s
  /\ forall i subMesh,
       common.SubMeshByIndex ignMesh i = Some subMesh ->
       pathNamesSubMesh _path subMesh = false ->
       UpdateMesh_submesh _meshMsg _path ignMesh true i s = Next tt s.
Proof.
  intros Hc Hin Hn.
  assert (Hp : pathNamesSubMesh _path unnamed = true).
  { unfold pathNamesSubMesh. rewrite Hn. cbn [Str.lowercase].
    rewrite find_empty. apply bool_decide_true. eauto. }
  split; [exact Hp|]. split.
  - rewrite isUSDPathInSubMeshName_loop_spec by done. rewrite drop_0.
    apply Nat.eqb_neq in Hc. rewrite Hc. cbn [negb andb]. f_equal.
    apply existsb_exists. exists unnamed. split; [|done].
    by apply list_elem_of_In.
  - intros i subMesh Hsub Hf. unfold UpdateMesh_submesh. rewrite Hsub.
    apply Nat.eqb_neq in Hc. by rewrite Hc, Hf.
Qed.

End Loop.

(** * Further runs on concrete assets *)

Section FurtherRuns.

Import Example Scenario.

(** The albedo input of the shader of the stage "shaded". *)
Lemma CreateMaterialInput_attribute_witness :
  pxr.IsA "Shader" "/Looks/M/Shader" (stage shaded) = true
  /\ NoDup customDefaultSdfAssetPath.*1
  /\ exists before a s',
       before = default (pxr.newAttribute (pxr.Scalar "asset"))
                  (attributeOf (stage shaded) "/Looks/M/Shader"
                               ("inputs:" ++ "diffuse_texture")%string)
       /\ @CreateMaterialInput Sample.lib "/Looks/M/Shader" "diffuse_texture"
            (pxr.Scalar "asset") (pxr.VAsset "materials/textures/wood.png")
            customDefaultSdfAssetPath "Base Map" "Albedo" "" "auto" shaded
          = Return true s'
       /\ attributeOf (stage s') "/Looks/M/Shader"
                      ("inputs:" ++ "diffuse_texture")%string = Some a
       /\ pxr.value a = Some (pxr.VAsset "materials/textures/wood.png")
       /\ pxr.typeName a = pxr.Scalar "asset"
       /\ (forall k x, (k, x) ∈ customDefaultSdfAssetPath ->
             pxr.customData a !! k = Some x)
       /\ (forall k, k ∉ customDefaultSdfAssetPath.*1 ->
             pxr.customData a !! k = pxr.customData before !! k)
       /\ pxr.displayName a = "Base Map"
       /\ pxr.displayGroup a = "Albedo"
       /\ pxr.documentation a = pxr.documentation before
       /\ pxr.colorSpace a = "auto".
Proof.
  assert (Hs : pxr.IsA "Shader" "/Looks/M/Shader" (stage shaded) = true)
    by (vm_compute; reflexivity).
  assert (Hnd : NoDup customDefaultSdfAssetPath.*1) by apply NoDup_singleton.
  split; [exact Hs|]. split; [exact Hnd|].
  exact (@CreateMaterialInput_attribute Sample.lib "/Looks/M/Shader"
           "diffuse_texture" (pxr.Scalar "asset")
           (pxr.VAsset "materials/textures/wood.png") customDefaultSdfAssetPath
           "Base Map" "Albedo" "" "auto" shaded Hs Hnd).
Defined.


(** The material "textured" written to a stage that holds a primitive of
    the scene. *)
Lemma shader_attributes_only_witness :
  let s' := final (@run Sample.lib _ (@ParseSdfMaterial Sample.lib (convert textured))
                     furnished) furnished in
  @run Sample.lib _ (@ParseSdfMaterial Sample.lib (convert textured)) furnished
  = Done (true, "/Looks/Material_0") s'
  /\ forall p name,
       among (baseAttributes ++ pbrInputs) name = false ->
       attrValue (stage s') p name = attrValue (stage furnished) p name.
Proof.
  intros s'.
  assert (Hrun : @run Sample.lib _ (@ParseSdfMaterial Sample.lib (convert textured))
                   furnished = Done (true, "/Looks/Material_0") s')
    by (vm_compute; reflexivity).
  split; [exact Hrun|].
  exact (@shader_attributes_only Sample.lib _ _ _ _ Hrun).
Defined.

Lemma ParseSdfMaterial_footprint_witness :
  let s' := final (@run Sample.lib _ (@ParseSdfMaterial Sample.lib (convert plain))
                     furnished) furnished in
  @run Sample.lib _ (@ParseSdfMaterial Sample.lib (convert plain)) furnished
  = Done (true, "/Looks/Material_0") s'
  /\ (forall p,
        p <> "/Looks" ->
        p <> materialPathOf (material_i furnished) ->
        p <> (materialPathOf (material_i furnished) ++ "/Shader")%string ->
        stage s' !! p = stage furnished !! p)
  /\ stage s' !! "/Looks"
     = Some (default (pxr.newPrim "Scope") (stage furnished !! "/Looks")).
Proof.
  intros s'.
  assert (Hrun : @run Sample.lib _ (@ParseSdfMaterial Sample.lib (convert plain))
                   furnished = Done (true, "/Looks/Material_0") s')
    by (vm_compute; reflexivity).
  split; [exact Hrun|].
  exact (@ParseSdfMaterial_footprint Sample.lib _ _ _ _ Hrun).
Defined.


(** The material "mapped": the texture image stands in for the albedo
    map, and the metalness and roughness maps are those of the record. *)
Lemma native_textures_reach_shader_witness :
  common.MaterialIndex (submesh "plate" common.TRIANGLES 0) <> -1
  /\ common.MaterialByIndex plated 0 = Some mapped
  /\ material_i initial < INT_MAX
  /\ exists s',
       @UpdateMesh_material Sample.lib plated (submesh "plate" common.TRIANGLES 0)
         "/model/plate" initial = Next tt s'
       /\ forall name map,
            (name, map) ∈ [("inputs:diffuse_texture", "wood.png");
                           ("inputs:metallic_texture", "textures/metal.png");
                           ("inputs:normalmap_texture", "");
                           ("inputs:reflectionroughness_texture",
                            "textures/rough.png")] ->
            map <> "" ->
            attrValue (stage s') (materialPathOf 0 ++ "/Shader")%string name
            = Some (pxr.VAsset
                      (@joinPaths Sample.lib
                         (@joinPaths Sample.lib "materials" "textures")
                         (@basename Sample.lib map))).
Proof.
  split; [discriminate|]. split; [reflexivity|]. split; [reflexivity|].
  exact (@native_textures_reach_shader Sample.lib plated
           (submesh "plate" common.TRIANGLES 0) "/model/plate" mapped _ initial
           ltac:(discriminate) eq_refl eq_refl eq_refl).
Defined.

(** The stage "occupied" holds a scope where the first material goes. *)
Lemma foreign_primitive_never_bound_witness :
  common.MaterialIndex (submesh "left" common.TRIANGLES 0) <> -1
  /\ common.MaterialByIndex twins 0 = Some textured
  /\ material_i occupied < INT_MAX
  /\ stage occupied !! materialPathOf (material_i occupied)
     = Some (pxr.newPrim "Scope")
  /\ pxr.primTypeName (pxr.newPrim "Scope") <> "Material"
  /\ exists s' evs,
       @UpdateMesh_material Sample.lib twins (submesh "left" common.TRIANGLES 0)
         "/model/left" occupied = Next tt s'
       /\ trace s' = trace occupied ++ evs
       /\ binds evs = []
       /\ material_i s' = material_i occupied + 1
       /\ bindingOf (stage s') "/model/left" = bindingOf (stage occupied) "/model/left".
Proof.
  assert (Hf : stage occupied !! materialPathOf (material_i occupied)
               = Some (pxr.newPrim "Scope")) by (vm_compute; reflexivity).
  split; [discriminate|]. split; [reflexivity|]. split; [reflexivity|].
  split; [exact Hf|]. split; [discriminate|].
  exact (@foreign_primitive_never_bound Sample.lib twins
           (submesh "left" common.TRIANGLES 0) "/model/left" textured _ occupied
           ltac:(discriminate) eq_refl eq_refl Hf ltac:(discriminate)).
Defined.

(** The map textures/metal.png is not found under its base name: the
    reference itself is copied. *)
Lemma texture_copy_source_witness :
  "textures/metal.png" <> ""
  /\ @getMaterialCopyPath Sample.lib "textures/metal.png" <> ""
  /\ exists s' dirs copied,
       @copyTexture Sample.lib (bool * string) "textures/metal.png" visited
       = Next "materials/textures/metal.png" s'
       /\ trace s'
          = trace visited
            ++ FindFile "metal.png"
               :: (CreateDirectories <$> dirs)
               ++ [CopyFile "textures/metal.png" "materials/textures/metal.png"
                            copied]
       /\ stage s' = stage visited.
Proof.
  split; [discriminate|]. split; [discriminate|].
  exact (@texture_copy_source Sample.lib "textures/metal.png" visited
           ltac:(discriminate) ltac:(discriminate)).
Defined.

(** No file is called missing.dae. *)
Lemma local_reference_not_found_witness :
  @getenv Sample.lib (world initial) "HOME" = Some "/home/u"
  /\ "/home/u" <> ""
  /\ @URI_Scheme Sample.lib "missing.dae" <> "https"
  /\ @URI_Scheme Sample.lib "missing.dae" <> "http"
  /\ @findFile_in Sample.lib (world initial) "missing.dae" = ""
  /\ @findFile_in Sample.lib (world initial) (@basename Sample.lib "missing.dae") = ""
  /\ exists s' notice,
       @UpdateMesh Sample.lib (mesh "missing.dae") "/model" initial = Done false s'
       /\ trace s' = trace initial ++ [FindFile "missing.dae";
                                       Log Msg notice;
                                       FindFile "missing.dae";
                                       Log Err "Couldn't locate file."]
       /\ stage s' = stage initial
       /\ world s' = world initial
       /\ material_i s' = material_i initial.
Proof.
  split; [reflexivity|]. split; [discriminate|]. split; [discriminate|].
  split; [discriminate|]. split; [reflexivity|]. split; [reflexivity|].
  exact (@local_reference_not_found Sample.lib (mesh "missing.dae") "/model"
           "/home/u" initial eq_refl ltac:(discriminate) ltac:(discriminate)
           ltac:(discriminate) eq_refl eq_refl).
Defined.

(** The reference models/car.dae is found under its base name only. *)
Lemma local_reference_resolution_witness :
  @getenv Sample.lib (world visited) "HOME" = Some "/home/u"
  /\ "/home/u" <> ""
  /\ @URI_Scheme Sample.lib "models/car.dae" <> "https"
  /\ @URI_Scheme Sample.lib "models/car.dae" <> "http"
  /\ "/m/car.dae" <> ""
  /\ exists s1 evs,
       @UpdateMesh_resolve Sample.lib (mesh "models/car.dae") visited
       = Next "/m/car.dae" s1
       /\ @UpdateMesh Sample.lib (mesh "models/car.dae") "/car" visited
          = run (UpdateMesh_convert (mesh "models/car.dae") "/car" "/m/car.dae") s1
       /\ trace s1 = trace visited ++ evs
       /\ searches evs = ["models/car.dae"; "car.dae"]
       /\ registered evs = []
       /\ stage s1 = stage visited
       /\ world s1 = world visited
       /\ material_i s1 = material_i visited.
Proof.
  split; [reflexivity|]. split; [discriminate|]. split; [discriminate|].
  split; [discriminate|]. split; [discriminate|].
  exact (@local_reference_resolution Sample.lib (mesh "models/car.dae") "/car"
           "/home/u" visited eq_refl ltac:(discriminate) ltac:(discriminate)
           ltac:(discriminate) ltac:(discriminate)).
Defined.

(** A remote reference with three segments after the scheme. *)
Lemma remote_reference_too_short_witness :
  @getenv Sample.lib (world initial) "HOME" = Some "/home/u"
  /\ "/home/u" <> ""
  /\ @URI_Scheme Sample.lib "https://fuel.example.org/1.0/pump" = "https"
  /\ (length (@split Sample.lib
                (@URI_Path Sample.lib "https://fuel.example.org/1.0/pump") "/")
      < 6)%nat
  /\ @UpdateMesh Sample.lib (mesh "https://fuel.example.org/1.0/pump") "/model"
       initial = Crash.
Proof.
  split; [reflexivity|]. split; [discriminate|]. split; [reflexivity|].
  split; [vm_compute; lia|].
  exact (@remote_reference_too_short Sample.lib
           (mesh "https://fuel.example.org/1.0/pump") "/model" "/home/u" initial
           eq_refl ltac:(discriminate) (or_introl eq_refl)
           ltac:(vm_compute; lia)).
Defined.

(** The file ghost.dae is found, and the loader has no asset for it. *)
Lemma asset_not_loaded_witness :
  let s1 := after (@UpdateMesh_resolve Sample.lib (mesh "ghost.dae") visited)
                  visited in
  @UpdateMesh_resolve Sample.lib (mesh "ghost.dae") visited = Next "/m/ghost.dae" s1
  /\ @Load_from Sample.lib (world s1) "/m/ghost.dae" = None
  /\ @UpdateMesh Sample.lib (mesh "ghost.dae") "/model" visited = Crash.
Proof.
  intros s1.
  assert (Hr : @UpdateMesh_resolve Sample.lib (mesh "ghost.dae") visited
               = Next "/m/ghost.dae" s1) by (vm_compute; reflexivity).
  assert (Hl : @Load_from Sample.lib (world s1) "/m/ghost.dae" = None)
    by (vm_compute; reflexivity).
  split; [exact Hr|]. split; [exact Hl|].
  exact (@asset_not_loaded Sample.lib (mesh "ghost.dae") "/model" "/m/ghost.dae"
           visited s1 Hr Hl).
Defined.

(** The file hollow.dae holds an asset without submeshes. *)
Lemma asset_without_submeshes_witness :
  let s1 := after (@UpdateMesh_resolve Sample.lib (mesh "hollow.dae") visited)
                  visited in
  @UpdateMesh_resolve Sample.lib (mesh "hollow.dae") visited
  = Next "/m/hollow.dae" s1
  /\ @Load_from Sample.lib (world s1) "/m/hollow.dae" = Some hollow
  /\ common.SubMeshes hollow = []
  /\ @UpdateMesh Sample.lib (mesh "hollow.dae") "/model" visited
     = Done true (record (LoadMesh "/m/hollow.dae" (Some hollow)) s1).
Proof.
  intros s1.
  assert (Hr : @UpdateMesh_resolve Sample.lib (mesh "hollow.dae") visited
               = Next "/m/hollow.dae" s1) by (vm_compute; reflexivity).
  assert (Hl : @Load_from Sample.lib (world s1) "/m/hollow.dae" = Some hollow)
    by (vm_compute; reflexivity).
  split; [exact Hr|]. split; [exact Hl|]. split; [reflexivity|].
  exact (@asset_without_submeshes Sample.lib (mesh "hollow.dae") "/model"
           "/m/hollow.dae" hollow visited s1 Hr Hl eq_refl).
Defined.




(** The asset "twins": two submeshes with the same material, two counter
    values. *)
Lemma UpdateMesh_counter_witness :
  let s' := final (@UpdateMesh Sample.lib (mesh "twins.dae") "/model" initial)
                  initial in
  @UpdateMesh Sample.lib (mesh "twins.dae") "/model" initial = Done true s'
  /\ exists evs ignMesh,
       trace s' = trace initial ++ evs
       /\ loads evs = [Some ignMesh]
       /\ material_i s'
          = material_i initial
            + Z.of_nat (length (List.filter withMaterial
                                  (Spec.selected "/model" ignMesh))).
Proof.
  intros s'.
  assert (Hrun : @UpdateMesh Sample.lib (mesh "twins.dae") "/model" initial
                 = Done true s') by (vm_compute; reflexivity).
  split; [exact Hrun|].
  exact (@UpdateMesh_counter Sample.lib _ _ _ _ Hrun).
Defined.

(** The asset "anonymous": its first submesh has no name, so the second,
    "door", is skipped at the path /house. *)
Lemma unnamed_submesh_selects_witness :
  common.SubMeshCount anonymous <> 1%nat
  /\ submesh "" common.TRIANGLES (-1) ∈ common.SubMeshes anonymous
  /\ common.Name (submesh "" common.TRIANGLES (-1)) = ""
  /\ pathNamesSubMesh "/house" (submesh "" common.TRIANGLES (-1)) = true
  /\ @isUSDPathInSubMeshName_loop Sample.lib bool anonymous "/house"
       (common.SubMeshCount anonymous) 0 initial
     = Next true initial
  /\ forall i subMesh,
       common.SubMeshByIndex anonymous i = Some subMesh ->
       pathNamesSubMesh "/house" subMesh = false ->
       @UpdateMesh_submesh Sample.lib (mesh "anonymous.dae") "/house" anonymous
         true i initial = Next tt initial.
Proof.
  assert (Hc : common.SubMeshCount anonymous <> 1%nat) by discriminate.
  assert (Hin : submesh "" common.TRIANGLES (-1) ∈ common.SubMeshes anonymous)
    by apply list_elem_of_here.
  split; [exact Hc|]. split; [exact Hin|]. split; [reflexivity|].
  exact (@unnamed_submesh_selects Sample.lib (mesh "anonymous.dae") "/house"
           anonymous (submesh "" common.TRIANGLES (-1)) initial Hc Hin eq_refl).
Defined.

(** The first submesh of the asset "car" has seven indices and is made
    of triangles: two faces, and one index left over. *)
Lemma leftover_indices_witness :
  common.SubMeshByIndex car 0 = Some (submesh "wheel" common.TRIANGLES (-1))
  /\ kept "/car/wheel" car true (submesh "wheel" common.TRIANGLES (-1)) = true
  /\ Spec.verticesPerFace common.TRIANGLES = Some 3%nat
  /\ exists s' counts indices,
       @UpdateMesh_submesh Sample.lib (mesh "car.dae") "/car/wheel" car true 0
         initial = Next tt s'
       /\ attrValue (stage s') "/car/wheel/wheel" "faceVertexCounts"
          = Some (pxr.VIntArray counts)
       /\ attrValue (stage s') "/car/wheel/wheel" "faceVertexIndices"
          = Some (pxr.VIntArray indices)
       /\ length indices = 7%nat
       /\ foldr Z.add 0 counts = Z.of_nat (length indices - length indices mod 3).
Proof.
  split; [reflexivity|]. split; [reflexivity|]. split; [reflexivity|].
  exact (@leftover_indices Sample.lib (mesh "car.dae") "/car/wheel" car true 0%nat
           (submesh "wheel" common.TRIANGLES (-1)) 3%nat initial
           eq_refl eq_refl eq_refl (or_introl eq_refl)).
Defined.

(** No file is called missing.dae: the call loads nothing and writes
    nothing. *)
Lemma no_load_no_write_witness :
  let s' := final (@UpdateMesh Sample.lib (mesh "missing.dae") "/model" furnished)
                  furnished in
  @UpdateMesh Sample.lib (mesh "missing.dae") "/model" furnished = Done false s'
  /\ trace s' = trace furnished ++ trace s'
  /\ loads (trace s') = []
  /\ false = false /\ stage s' = stage furnished
  /\ material_i s' = material_i furnished
  /\ meshDefines (trace s') = [] /\ binds (trace s') = [].
Proof.
  intros s'.
  assert (Hrun : @UpdateMesh Sample.lib (mesh "missing.dae") "/model" furnished
                 = Done false s') by (vm_compute; reflexivity).
  assert (Ht : trace s' = trace furnished ++ trace s') by reflexivity.
  assert (Hl : loads (trace s') = []) by (vm_compute; reflexivity).
  split; [exact Hrun|]. split; [exact Ht|]. split; [exact Hl|].
  exact (@no_load_no_write Sample.lib _ _ _ _ _ _ Hrun Ht Hl).
Defined.


(** The material "metal": its record is of the metal type. *)
Lemma converted_workflow_is_read_witness :
  common.PbrMaterial metal = Some bare
  /\ exists w,
       chosenWorkflow (convert metal) = Some w
       /\ sdf.PbrMaterial (convert metal)
          = Some {| sdf.MetalWorkflow := Some w; sdf.SpecularWorkflow := None |}
       /\ sdf.Type_ w = sdf.METAL
       /\ sdf.NormalMapType w = sdf.TANGENT
       /\ (sdf.NormalMap w, sdf.MetalnessMap w, sdf.EmissiveMap w,
           sdf.RoughnessMap w, sdf.SpecularMap w, sdf.EnvironmentMap w,
           sdf.AmbientOcclusionMap w, sdf.LightMap w)
          = ("", "", "", "", "", "", "", "")
       /\ (sdf.Roughness w, sdf.Glossiness w, sdf.Metalness w)
          = ((1 # 2)%Q, 0%Q, (1 # 2)%Q)
       /\ sdf.NormalMap_ (convert metal) = "".
Proof.
  split; [reflexivity|].
  exact (converted_workflow_is_read metal bare eq_refl).
Defined.
End FurtherRuns.
